(** * L-Store database layer ([lstore/db.py]): serializer and lifecycle

    A shallow embedding of [convert_to_serializable], [rehydrate] and the
    [Database] class, with the properties of the persistence layer that
    the design document states about them.

    Python objects live in a heap indexed by object identity ([id(obj)]);
    the serializer's [seen] set is threaded through the walk exactly as
    the source mutates it.  Values that are built fresh (the output of the
    serializer, of [msgpack.unpackb] and of [rehydrate]) are finite trees.

    The file has five parts: the program, the notions its properties are
    stated with, the lemmas, the properties the design document states,
    and further properties read off the code. *)

From Stdlib Require Import ZArith Strings.Byte.
From stdpp Require Import gmap strings list.

Local Open Scope string_scope.
Local Open Scope Z_scope.
Local Open Scope list_scope.
#[local] Set Warnings "-clear-no-such-hyp".
#[local] Set Warnings "-register-all".

(** * Part I: the program *)

(** ** Outcomes: a returned value, a raised exception, or an exhausted
       recursion budget (only the heap walk and the unpacker take one). *)

(** The exceptions.  [InvalidKeyIndex] is the failure of the [Table]
    constructor (lstore/table.py, which is not among the sources);
    [db.py] raises none of this kind itself. *)
Inductive exn :=
| TypeError (msg : string)
| ValueError (msg : string)
| OverflowError (msg : string)
| FileNotFoundError (msg : string)
| InvalidKeyIndex.

Inductive outcome (A : Type) :=
| Ok (a : A)
| Raise (e : exn)
| OutOfFuel.
Arguments Ok {A} a.
Arguments Raise {A} e.
Arguments OutOfFuel {A}.

#[global] Instance outcome_ret : MRet outcome := fun A a => Ok a.

#[global] Instance outcome_bind : MBind outcome := fun A B k m =>
  match m with
  | Ok a => k a
  | Raise e => Raise e
  | OutOfFuel => OutOfFuel
  end.

#[global] Instance outcome_fmap : FMap outcome := fun A B f m =>
  match m with
  | Ok a => Ok (f a)
  | Raise e => Raise e
  | OutOfFuel => OutOfFuel
  end.

(** A comprehension or loop body run over a list, stopping at the first
    exception. *)
Definition omapM {A B} (f : A -> outcome B) : list A -> outcome (list B) :=
  fix go l :=
    match l with
    | [] => Ok []
    | x :: r =>
        match f x with
        | Ok y =>
            match go r with
            | Ok ys => Ok (y :: ys)
            | Raise e => Raise e
            | OutOfFuel => OutOfFuel
            end
        | Raise e => Raise e
        | OutOfFuel => OutOfFuel
        end
    end.

(** ** Python values *)

(** The basic types of line 97: [str, int, float, bool, NoneType].  A float
    is its IEEE-754 binary64 bit pattern. *)
Inductive atom :=
| ANone
| ABool (b : bool)
| AInt (z : Z)
| AFloat (bits : Z)
| AStr (s : string).

Inductive clskind := KTable | KIndex | KPlain.

(** A class: its [__name__], and whether [isinstance(obj, Table)] or
    [isinstance(obj, Index)] holds of its instances. *)
Record pyclass := { cname : string; ckind : clskind }.

Definition TableClass : pyclass := {| cname := "Table"; ckind := KTable |}.

Definition IndexClass : pyclass := {| cname := "Index"; ckind := KIndex |}.

(** Trees of freshly built values.  Dict and [__dict__] keys are atoms:
    the serializer can only produce such keys (anything else is
    unhashable), and so does the unpacker. *)
Inductive pyval :=
| PAtom (a : atom)
| PList (l : list pyval)
| PTuple (l : list pyval)
| PSet (l : list pyval)
| PDict (d : list (atom * pyval))
| PInst (c : pyclass) (d : list (atom * pyval))
| POpaque (tyname : string) (repr : string).

Definition PStr (s : string) : pyval := PAtom (AStr s).

#[global] Instance exn_eq_dec : EqDecision exn.
Proof. solve_decision. Defined.

#[global] Instance atom_eq_dec : EqDecision atom.
Proof. solve_decision. Defined.

#[global] Instance clskind_eq_dec : EqDecision clskind.
Proof. solve_decision. Defined.

#[global] Instance pyclass_eq_dec : EqDecision pyclass.
Proof. solve_decision. Defined.

(** ** The object heap *)

Definition addr := positive.

(** A heap object.  Containers hold references; a dict and a set keep
    their iteration order; an instance refers to its [__dict__], which is
    a heap object of its own (with its own identity).  [OOpaque] is an
    object without [__dict__] (bytes, bytearray, frozenset, ...), with its
    type name and its [str()]. *)
Inductive obj :=
| OAtom (a : atom)
| OList (items : list addr)
| OTuple (items : list addr)
| OSet (items : list addr)
| ODict (items : list (addr * addr))
| OInst (c : pyclass) (dict : addr)
| OOpaque (tyname : string) (repr : string).

Abbreviation heap := (gmap addr obj).

(** Every reference denotes an object; addresses the finite map does not
    list hold [None]. *)
Definition deref (h : heap) (a : addr) : obj :=
  default (OAtom ANone) (h !! a).

(** [type(obj).__name__] *)
Definition type_name (o : obj) : string :=
  match o with
  | OAtom ANone => "NoneType"
  | OAtom (ABool _) => "bool"
  | OAtom (AInt _) => "int"
  | OAtom (AFloat _) => "float"
  | OAtom (AStr _) => "str"
  | OList _ => "list"
  | OTuple _ => "tuple"
  | OSet _ => "set"
  | ODict _ => "dict"
  | OInst c _ => cname c
  | OOpaque t _ => t
  end.

(** ** Dictionaries

    A Python dict is an insertion-ordered association list without
    duplicate keys.  Keys are compared the way [dict] does, with [==]:
    [True == 1 == 1.0], a NaN equals nothing, strings by content. *)

Definition float_is_nan (bits : Z) : bool :=
  ((bits / 2 ^ 52) mod 2 ^ 11 =? 2047) && negb (bits mod 2 ^ 52 =? 0).

Definition float_is_zero (bits : Z) : bool := bits mod 2 ^ 63 =? 0.

Definition float_eqb (b1 b2 : Z) : bool :=
  negb (float_is_nan b1) && negb (float_is_nan b2)
  && ((b1 =? b2) || (float_is_zero b1 && float_is_zero b2)).

(** The exact value [m * 2 ^ e] of a finite float. *)
Definition float_dyadic (bits : Z) : option (Z * Z) :=
  let sign := if bits / 2 ^ 63 =? 0 then 1 else -1 in
  let ex := (bits / 2 ^ 52) mod 2 ^ 11 in
  let frac := bits mod 2 ^ 52 in
  if ex =? 2047 then None
  else if ex =? 0 then Some (sign * frac, -1074)
  else Some (sign * (2 ^ 52 + frac), ex - 1075).

Definition int_float_eqb (z bits : Z) : bool :=
  match float_dyadic bits with
  | None => false
  | Some (m, e) => if 0 <=? e then z =? m * 2 ^ e else z * 2 ^ (- e) =? m
  end.

Definition key_eqb (a b : atom) : bool :=
  let num (x : atom) : option Z :=
    match x with
    | ABool true => Some 1
    | ABool false => Some 0
    | AInt z => Some z
    | _ => None
    end in
  match a, b with
  | ANone, ANone => true
  | AStr s, AStr t => bool_decide (s = t)
  | AFloat x, AFloat y => float_eqb x y
  | AFloat x, _ => match num b with Some z => int_float_eqb z x | None => false end
  | _, AFloat y => match num a with Some z => int_float_eqb z y | None => false end
  | _, _ => match num a, num b with Some x, Some y => x =? y | _, _ => false end
  end.

Section dict.

Context {K V : Type} (eqb : K -> K -> bool).

(** [d.get(k)] / [k in d] *)
Fixpoint dict_get (d : list (K * V)) (k : K) : option V :=
  match d with
  | [] => None
  | (k', v) :: r => if eqb k' k then Some v else dict_get r k
  end.

(** [d[k] = v]: an existing key keeps its place (and its key object),
    a new one goes last. *)
Fixpoint dict_set (d : list (K * V)) (k : K) (v : V) : list (K * V) :=
  match d with
  | [] => [(k, v)]
  | (k', v') :: r =>
      if eqb k' k then (k', v) :: r else (k', v') :: dict_set r k v
  end.

(** [del d[k]] *)
Fixpoint dict_del (d : list (K * V)) (k : K) : list (K * V) :=
  match d with
  | [] => []
  | (k', v') :: r => if eqb k' k then r else (k', v') :: dict_del r k
  end.

(** [d.update(other)] for a mapping [other] *)
Definition dict_update (d other : list (K * V)) : list (K * V) :=
  foldl (fun acc kv => dict_set acc kv.1 kv.2) d other.

End dict.

(** ** [convert_to_serializable] (db.py, lines 81-143) *)

(** The placeholder of line 93. *)
Definition marker (o : obj) : pyval :=
  PStr ("<recursion: " +:+ type_name o +:+ ">").

(** Hashing the converted key when the comprehension of line 103 stores
    it: a converted key is a basic value, a list or a dict, and lists and
    dicts are unhashable. *)
Definition as_key (v : pyval) : outcome atom :=
  match v with
  | PAtom a => Ok a
  | PDict _ => Raise (TypeError "unhashable type: 'dict'")
  | _ => Raise (TypeError "unhashable type: 'list'")
  end.

(** The tagged mapping of lines 117-120, 125-128 and 134-137. *)
Definition tagged (tag : string) (state : pyval) : pyval :=
  PDict [(AStr "__custom_type__", PStr tag); (AStr "state", state)].

(** The tag of lines 118, 126 and 135: ["Table"] for an instance of
    [Table], ["Index"] for one of [Index], the class name otherwise. *)
Definition tag_of (c : pyclass) : string :=
  match ckind c with
  | KTable => "Table"
  | KIndex => "Index"
  | KPlain => cname c
  end.

Section walk.

(** The recursive call, with the [seen] set it receives and leaves. *)
Variable rec : addr -> gset addr -> outcome pyval * gset addr.

(** [[convert_to_serializable(item, seen) for item in obj]] *)
Fixpoint conv_list (items : list addr) (seen : gset addr)
  : outcome (list pyval) * gset addr :=
  match items with
  | [] => (Ok [], seen)
  | x :: r =>
      match rec x seen with
      | (Ok y, seen) =>
          match conv_list r seen with
          | (Ok ys, seen) => (Ok (y :: ys), seen)
          | other => other
          end
      | (Raise e, seen) => (Raise e, seen)
      | (OutOfFuel, seen) => (OutOfFuel, seen)
      end
  end.

(** [{convert_to_serializable(k, seen): convert_to_serializable(v, seen)
     for k, v in obj.items()}], the dict being built in [acc]. *)
Fixpoint conv_items (items : list (addr * addr)) (acc : list (atom * pyval))
    (seen : gset addr) : outcome (list (atom * pyval)) * gset addr :=
  match items with
  | [] => (Ok acc, seen)
  | (k, v) :: r =>
      match rec k seen with
      | (Ok k', seen) =>
          match rec v seen with
          | (Ok v', seen) =>
              match as_key k' with
              | Ok ka => conv_items r (dict_set key_eqb acc ka v') seen
              | Raise e => (Raise e, seen)
              | OutOfFuel => (OutOfFuel, seen)
              end
          | (Raise e, seen) => (Raise e, seen)
          | (OutOfFuel, seen) => (OutOfFuel, seen)
          end
      | (Raise e, seen) => (Raise e, seen)
      | (OutOfFuel, seen) => (OutOfFuel, seen)
      end
  end.

End walk.

(** The function itself.  [fuel] bounds the depth of the recursion; the
    theorems below show that the number of heap objects is always enough.
    The [seen] set is passed in and handed back, as the source mutates one
    shared set: [seen ∪ {[a]}] is [seen.add(obj_id)] and [seen ∖ {[a]}] is
    [seen.remove(obj_id)]. *)
Fixpoint convert_to_serializable (fuel : nat) (h : heap) (a : addr)
    (seen : gset addr) {struct fuel} : outcome pyval * gset addr :=
  match fuel with
  | O => (OutOfFuel, seen)
  | S n =>
      if decide (a ∈ seen) then (Ok (marker (deref h a)), seen)
      else
        let seen := seen ∪ {[a]} in
        match deref h a with
        | OAtom x => (Ok (PAtom x), seen ∖ {[a]})
        | ODict items =>
            match conv_items (convert_to_serializable n h) items [] seen with
            | (Ok d, seen) => (Ok (PDict d), seen ∖ {[a]})
            | (Raise e, seen) => (Raise e, seen)
            | (OutOfFuel, seen) => (OutOfFuel, seen)
            end
        | OList items | OTuple items | OSet items =>
            match conv_list (convert_to_serializable n h) items seen with
            | (Ok l, seen) => (Ok (PList l), seen ∖ {[a]})
            | (Raise e, seen) => (Raise e, seen)
            | (OutOfFuel, seen) => (OutOfFuel, seen)
            end
        | OInst c d =>
            match convert_to_serializable n h d seen with
            | (Ok state, seen) => (Ok (tagged (tag_of c) state), seen ∖ {[a]})
            | (Raise e, seen) => (Raise e, seen)
            | (OutOfFuel, seen) => (OutOfFuel, seen)
            end
        | OOpaque _ repr => (Ok (PStr repr), seen ∖ {[a]})
        end
  end.

(** The budget that always suffices: one more than the number of objects. *)
Definition enough (h : heap) : nat := S (size h).

(** [convert_to_serializable(obj)], with [seen=None]. *)
Definition serialize (h : heap) (a : addr) : outcome pyval :=
  (convert_to_serializable (enough h) h a ∅).1.

(** ** The collaborators that are not part of [db.py] *)

Abbreviation bytes := (list byte).

(** [msgpack.packb(v, use_bin_type=True)] and [msgpack.unpackb(b,
    raw=False)].  The library is an external dependency; what the
    database layer relies on is that a packed value is at least one byte
    long and unpacks to itself.  The second law is stated for the values
    every version of the library returns unchanged: scalars, lists, and
    maps with string keys. *)
Fixpoint wire (v : pyval) : bool :=
  match v with
  | PAtom _ => true
  | PList l => forallb wire l
  | PDict d =>
      forallb (fun kv => match kv.1 with AStr _ => true | _ => false end
                         && wire kv.2) d
  | _ => false
  end.

Class Msgpack := {
  packb : pyval -> outcome bytes;
  unpackb : bytes -> outcome pyval;
  packb_nonempty : forall v b, packb v = Ok b -> b <> [];
  unpackb_packb : forall v b, wire v = true -> packb v = Ok b -> unpackb b = Ok v
}.

(** The classes of [lstore.table] and [lstore.index], by what their
    constructors leave in the new instance's [__dict__]:
    [Table(name, num_columns, key_index)] as [create_table] calls it, and
    [Table()] and [Index()] as [rehydrate] calls them. *)
Class Classes := {
  Table_new : string -> Z -> Z -> outcome (list (atom * pyval));
  Table_default : outcome (list (atom * pyval));
  Index_default : outcome (list (atom * pyval))
}.

(** ** [rehydrate] (db.py, lines 145-168) *)

Fixpoint chars (s : string) : list pyval :=
  match s with
  | EmptyString => []
  | String c r => PStr (String c EmptyString) :: chars r
  end.

(** Iterating a value; instances and objects without [__dict__] are taken
    not to be iterable. *)
Definition py_iter (v : pyval) : option (list pyval) :=
  match v with
  | PList l | PTuple l | PSet l => Some l
  | PDict d => Some (PAtom <$> d.*1)
  | PAtom (AStr s) => Some (chars s)
  | _ => None
  end.

(** The key/value pairs [dict.update(arg)] stores: those of a mapping, or
    the elements of an iterable of two-element iterables.  Only basic
    values are taken as keys. *)
Definition update_pairs (arg : pyval) : outcome (list (atom * pyval)) :=
  match arg with
  | PDict d => Ok d
  | _ =>
      match py_iter arg with
      | None => Raise (TypeError "object is not iterable")
      | Some elems =>
          omapM (fun e =>
            match py_iter e with
            | Some [k; x] => ka ← as_key k; Ok (ka, x)
            | Some _ =>
                Raise (ValueError "dictionary update sequence element: 2 is required")
            | None =>
                Raise (TypeError "cannot convert dictionary update sequence element to a sequence")
            end) elems
      end
  end.

(** [v == s] for a string literal [s] *)
Definition is_str (v : pyval) (s : string) : bool :=
  match v with
  | PAtom (AStr t) => bool_decide (t = s)
  | _ => false
  end.

Definition class_default `{Classes} (c : clskind) : outcome (list (atom * pyval)) :=
  match c with
  | KTable => Table_default
  | KIndex => Index_default
  | KPlain => Ok []
  end.

(** [instance = C(); instance.__dict__.update(state); return instance] *)
Definition construct `{Classes} (c : pyclass) (state : outcome pyval)
    : outcome pyval :=
  inst ← class_default (ckind c);
  st ← state;
  kvs ← update_pairs st;
  Ok (PInst c (dict_update key_eqb inst kvs)).

(** Every value of a dict is rehydrated at most once; [rd] holds the
    rehydration of each value, of which the tagged branches use the one
    under ["state"] and the comprehension of line 165 all, in order. *)
Fixpoint rehydrate `{Classes} (obj : pyval) : outcome pyval :=
  match obj with
  | PDict d =>
      let rd := (fun kv => (kv.1, rehydrate kv.2)) <$> d in
      let state := default (Ok (PDict [])) (dict_get key_eqb rd (AStr "state")) in
      let plain := PDict <$> omapM (fun kr => v ← kr.2; Ok (kr.1, v)) rd in
      match dict_get key_eqb d (AStr "__custom_type__") with
      | Some typ =>
          if is_str typ "Table" then construct TableClass state
          else if is_str typ "Index" then construct IndexClass state
          else plain
      | None => plain
      end
  | PList l => PList <$> omapM rehydrate l
  | _ => Ok obj
  end.

(** ** Saving and loading one table

    [msgpack.packb(convert_to_serializable(table), use_bin_type=True)]
    (lines 214-215) and [rehydrate(msgpack.unpackb(data, raw=False))]
    (lines 198-200). *)

Definition save `{Msgpack} (h : heap) (a : addr) : outcome bytes :=
  v ← serialize h a; packb v.

Definition load `{Msgpack} `{Classes} (data : bytes) : outcome pyval :=
  raw ← unpackb data; rehydrate raw.

(** ** The file system

    A directory path names a directory, which lists its files in the
    order [os.listdir] reports them.  [os.path.join(path, filename)] is
    the entry [filename] of the directory [path].  That is what the join
    is for a name that is a file name; a table name with a separator in
    it makes the joined path a file of another directory, which this
    file system does not tell.  So what is proved of [close], and of any
    method that makes a path from a table name, is stated for table
    names that are file names ([file_name]); the names [open] takes from
    [os.listdir] always are. *)

Abbreviation directory := (list (string * bytes)).

Abbreviation fsys := (list (string * directory)).

Definition str_eqb (s t : string) : bool := bool_decide (s = t).

(** A table name [name] for which [os.path.join(path, f"{name}.tbl")]
    is the file [name.tbl] of the directory [path]: no character of it
    is the separator [/] (code 47) or the NUL character (code 0, which
    [open] refuses),
    and with its extension it is at most 255 bytes long, the longest
    file name. *)
Fixpoint plain_chars (s : string) : bool :=
  match s with
  | EmptyString => true
  | String c r =>
      let code := Ascii.nat_of_ascii c in
      negb (code =? 47)%nat && negb (code =? 0)%nat && plain_chars r
  end.

Definition file_name (name : string) : bool :=
  plain_chars name && (String.length name <=? 251)%nat.

(** [os.path.exists(path)] *)
Definition path_exists (fs : fsys) (path : string) : bool :=
  bool_decide (is_Some (dict_get str_eqb fs path)).

(** [os.makedirs(path)], for a path that does not exist. *)
Definition makedirs (fs : fsys) (path : string) : outcome fsys :=
  if str_eqb path "" then Raise (FileNotFoundError "No such file or directory: ''")
  else Ok (dict_set str_eqb fs path []).

(** [os.listdir(path)] *)
Definition listdir (fs : fsys) (path : string) : list string :=
  (default [] (dict_get str_eqb fs path)).*1.

(** [open(join(path, name), "rb").read()] *)
Definition read_file (fs : fsys) (path name : string) : outcome bytes :=
  match dict_get str_eqb fs path with
  | Some files =>
      match dict_get str_eqb files name with
      | Some data => Ok data
      | None => Raise (FileNotFoundError name)
      end
  | None => Raise (FileNotFoundError name)
  end.

(** [open(join(path, name), "wb")]: the file is created, or emptied. *)
Definition open_wb (fs : fsys) (path name : string) : outcome fsys :=
  match dict_get str_eqb fs path with
  | Some files => Ok (dict_set str_eqb fs path (dict_set str_eqb files name []))
  | None => Raise (FileNotFoundError name)
  end.

(** [f.write(data)] on the file opened last. *)
Definition write_file (fs : fsys) (path name : string) (data : bytes) : fsys :=
  match dict_get str_eqb fs path with
  | Some files =>
      let old := default [] (dict_get str_eqb files name) in
      dict_set str_eqb fs path (dict_set str_eqb files name (old ++ data))
  | None => fs
  end.

(** [os.remove(join(path, name))] *)
Definition remove (fs : fsys) (path name : string) : outcome fsys :=
  match dict_get str_eqb fs path with
  | Some files =>
      match dict_get str_eqb files name with
      | Some _ => Ok (dict_set str_eqb fs path (dict_del str_eqb files name))
      | None => Raise (FileNotFoundError name)
      end
  | None => Raise (FileNotFoundError name)
  end.

(** [filename.endswith(suffix)] and [filename[:-4]] *)
Fixpoint endswith (s suffix : string) : bool :=
  str_eqb s suffix ||
  match s with
  | EmptyString => false
  | String _ r => endswith r suffix
  end.

Definition drop_last4 (s : string) : string :=
  String.substring 0 (String.length s - 4) s.

(** [f"{table_name}.tbl"] *)
Definition tbl_file (table_name : string) : string := table_name +:+ ".tbl".

(** ** The buffer pool *)

(** Modelled from the spec: the class [Bufferpool] of [lstore/bufferpool.py],
    which is not among the sources.  A frame is
    {page identifier, page bytes, pin count, dirty flag, recency marker};
    the pool is constructed with a fixed frame capacity and no resident
    frame; [flush_all] writes every dirty resident frame back and clears
    the dirty flags, evicting nothing. *)
Record frame := {
  page_id : string;
  page_bytes : bytes;
  pin_count : Z;
  dirty : bool;
  recency : Z
}.

Record Bufferpool := { capacity : Z; frames : list frame }.

Definition Bufferpool_new (size : Z) : Bufferpool :=
  {| capacity := size; frames := [] |}.

Definition flush_all (bp : Bufferpool) : Bufferpool :=
  {| capacity := capacity bp;
     frames := (fun f => {| page_id := page_id f; page_bytes := page_bytes f;
                            pin_count := pin_count f; dirty := false;
                            recency := recency f |}) <$> frames bp |}.

(** ** Allocation of a fresh value in the heap *)

Definition thread {A B S} (f : A -> S -> B * S) : list A -> S -> list B * S :=
  fix go l s :=
    match l with
    | [] => ([], s)
    | x :: r =>
        let '(y, s) := f x s in
        let '(ys, s) := go r s in
        (y :: ys, s)
    end.

Definition new_object (o : obj) (h : heap) : addr * heap :=
  let a := fresh (dom h) in (a, <[a := o]> h).

Fixpoint alloc (v : pyval) (h : heap) : addr * heap :=
  let items d h :=
    thread (fun kv h => let '(k, h) := new_object (OAtom kv.1) h in
                        let '(x, h) := alloc kv.2 h in
                        ((k, x), h)) d h in
  match v with
  | PAtom a => new_object (OAtom a) h
  | PList l => let '(xs, h) := thread alloc l h in new_object (OList xs) h
  | PTuple l => let '(xs, h) := thread alloc l h in new_object (OTuple xs) h
  | PSet l => let '(xs, h) := thread alloc l h in new_object (OSet xs) h
  | PDict d => let '(kvs, h) := items d h in new_object (ODict kvs) h
  | PInst c d =>
      let '(kvs, h) := items d h in
      let '(dict, h) := new_object (ODict kvs) h in
      new_object (OInst c dict) h
  | POpaque t r => new_object (OOpaque t r) h
  end.

(** ** The [Database] class (db.py, lines 174-236) *)

(** [self.tables] maps a name to a table object, [self.db_path] is [None]
    or a string. *)
Record Database := {
  tables : list (string * addr);
  db_path : option string;
  bufferpool : Bufferpool
}.

(** What a method can read and change: the objects, the database object
    itself, the files, and the lines it prints. *)
Record world := {
  objects : heap;
  db : Database;
  disk : fsys;
  console : list string
}.

Definition with_tables (t : list (string * addr)) (w : world) : world :=
  {| objects := objects w;
     db := {| tables := t; db_path := db_path (db w);
              bufferpool := bufferpool (db w) |};
     disk := disk w; console := console w |}.

Definition with_path (p : string) (w : world) : world :=
  {| objects := objects w;
     db := {| tables := tables (db w); db_path := Some p;
              bufferpool := bufferpool (db w) |};
     disk := disk w; console := console w |}.

Definition with_objects (h : heap) (w : world) : world :=
  {| objects := h; db := db w; disk := disk w; console := console w |}.

Definition with_disk (fs : fsys) (w : world) : world :=
  {| objects := objects w; db := db w; disk := fs; console := console w |}.

Definition print (msg : string) (w : world) : world :=
  {| objects := objects w; db := db w; disk := disk w;
     console := console w ++ [msg] |}.

(** A [for] loop whose body may raise. *)
Definition for_each {A} (body : A -> world -> outcome unit * world)
    : list A -> world -> outcome unit * world :=
  fix go l w :=
    match l with
    | [] => (Ok (), w)
    | x :: r =>
        match body x w with
        | (Ok _, w) => go r w
        | other => other
        end
    end.

(** [Database(bufferpool_size)] *)
Definition Database_init (bufferpool_size : Z) : Database :=
  {| tables := []; db_path := None;
     bufferpool := Bufferpool_new bufferpool_size |}.

(** [f"Warning: {filename} is empty. Skipping."] *)
Definition empty_warning (filename : string) : string :=
  "Warning: " +:+ filename +:+ " is empty. Skipping.".

(** [ValueError("Database path is not set.")] *)
Definition path_not_set : exn := ValueError "Database path is not set.".

Section Database.

Context `{Msgpack} `{Classes}.

(** The body of the loop of [open], lines 190-201. *)
Definition load_table (path filename : string) (w : world)
    : outcome unit * world :=
  if endswith filename ".tbl" then
    let table_name := drop_last4 filename in
    match read_file (disk w) path filename with
    | Ok [] =>
        (Ok (), print (empty_warning filename) w)
    | Ok data =>
        match load data with
        | Ok table =>
            let '(a, h) := alloc table (objects w) in
            (Ok (), with_tables (dict_set str_eqb (tables (db w)) table_name a)
                      (with_objects h w))
        | Raise e => (Raise e, w)
        | OutOfFuel => (OutOfFuel, w)
        end
    | Raise e => (Raise e, w)
    | OutOfFuel => (OutOfFuel, w)
    end
  else (Ok (), w).

(** [Database.open(path)] *)
Definition Database_open (path : string) (w : world) : outcome unit * world :=
  let w := with_path path w in
  if negb (path_exists (disk w) path) then
    match makedirs (disk w) path with
    | Ok fs => (Ok (), print "Database directory created." (with_disk fs w))
    | Raise e => (Raise e, w)
    | OutOfFuel => (OutOfFuel, w)
    end
  else
    let w := with_tables [] w in
    match for_each (load_table path) (listdir (disk w) path) w with
    | (Ok _, w) => (Ok (), print "Database loaded from disk." w)
    | other => other
    end.

(** The body of the loop of [close], lines 211-216: the file is opened
    for writing, which empties it, before the table is converted. *)
Definition save_table (path : string) (entry : string * addr) (w : world)
    : outcome unit * world :=
  let '(table_name, table) := entry in
  match open_wb (disk w) path (tbl_file table_name) with
  | Ok fs =>
      let w := with_disk fs w in
      match save (objects w) table with
      | Ok packed =>
          (Ok (), with_disk (write_file fs path (tbl_file table_name) packed) w)
      | Raise e => (Raise e, w)
      | OutOfFuel => (OutOfFuel, w)
      end
  | Raise e => (Raise e, w)
  | OutOfFuel => (OutOfFuel, w)
  end.

(** [if not self.db_path] *)
Definition path_unset (p : option string) : bool :=
  match p with
  | None => true
  | Some s => str_eqb s ""
  end.

(** [Database.close()] *)
Definition Database_close (w : world) : outcome unit * world :=
  match db_path (db w) with
  | Some path =>
      if str_eqb path "" then (Raise path_not_set, w)
      else for_each (save_table path) (tables (db w)) w
  | None => (Raise path_not_set, w)
  end.

(** [Database.create_table(name, num_columns, key_index)] *)
Definition Database_create_table (name : string) (num_columns key_index : Z)
    (w : world) : outcome addr * world :=
  match Table_new name num_columns key_index with
  | Ok d =>
      let '(table, h) := alloc (PInst TableClass d) (objects w) in
      (Ok table, with_tables (dict_set str_eqb (tables (db w)) name table)
                   (with_objects h w))
  | Raise e => (Raise e, w)
  | OutOfFuel => (OutOfFuel, w)
  end.

(** [Database.drop_table(name)]; [os.path.join(None, ...)] is a
    [TypeError]. *)
Definition Database_drop_table (name : string) (w : world)
    : outcome unit * world :=
  match dict_get str_eqb (tables (db w)) name with
  | Some _ =>
      let w := with_tables (dict_del str_eqb (tables (db w)) name) w in
      match db_path (db w) with
      | Some path =>
          match remove (disk w) path (tbl_file name) with
          | Ok fs => (Ok (), with_disk fs w)
          | Raise e => (Raise e, w)
          | OutOfFuel => (OutOfFuel, w)
          end
      | None =>
          (Raise (TypeError "expected str, bytes or os.PathLike object, not NoneType"), w)
      end
  | None => (Ok (), w)
  end.

(** [Database.get_table(name)]: [self.tables.get(name, None)] *)
Definition Database_get_table (name : string) (w : world)
    : outcome (option addr) * world :=
  (Ok (dict_get str_eqb (tables (db w)) name), w).

End Database.

(** ** The [default] hook (db.py, lines 238-250)

    The function a caller can hand to [msgpack.packb] for objects the
    library cannot pack.  Its two branches, for a [Table] and for any
    other object with a [__dict__], do the same. *)

Module Hook.

(** [str(type(obj))]: the name between [<class '] and ['>].  This is
    what a builtin type prints; a type defined in a module prints with
    the module's name in front, which the heap does not record. *)
Definition type_repr (o : obj) : string :=
  "<class '" +:+ type_name o +:+ "'>".

(** The key that ['db'] equals. *)
Definition is_db (h : heap) (k : addr) : bool :=
  match deref h k with
  | OAtom a => key_eqb a (AStr "db")
  | _ => false
  end.

(** [state.pop('db', None)] *)
Fixpoint pop_db (h : heap) (items : list (addr * addr)) : list (addr * addr) :=
  match items with
  | [] => []
  | (k, v) :: r => if is_db h k then r else (k, v) :: pop_db h r
  end.

(** [default(obj)].  [obj.__dict__.copy()] is a new dict with the same
    key and value objects.  The [__dict__] of an instance is always a
    dict in Python; a heap in which it is not makes the model raise. *)
Definition default (h : heap) (a : addr) : outcome addr * heap :=
  match deref h a with
  | OInst _ d =>
      match deref h d with
      | ODict items =>
          let '(state, h) := new_object (ODict (pop_db h items)) h in
          (Ok state, h)
      | _ => (Raise (TypeError "__dict__ is not a dict"), h)
      end
  | o => (Raise (TypeError ("Object of type " +:+ type_repr o
                            +:+ " is not serializable")), h)
  end.

End Hook.

(** ** The msgpack byte format

    The encoding that [packb] emits for the values the serializer
    produces and [unpackb] reads back: nil, booleans, integers of up to
    64 bits, 64-bit floats, strings, arrays and maps, each in the
    shortest form.  Map keys must be strings when unpacking
    ([strict_map_key]). *)

Module Wire.

Definition byte_of_Z (z : Z) : byte :=
  default x00 (Byte.of_N (Z.to_N (z mod 256))).

Definition Z_of_byte (b : byte) : Z := Z.of_N (Byte.to_N b).

(** [n] bytes, most significant first. *)
Fixpoint be (n : nat) (z : Z) : bytes :=
  match n with
  | O => []
  | S m => be m (z / 256) ++ [byte_of_Z z]
  end.

Definition unbe (bs : bytes) : Z :=
  foldl (fun acc b => acc * 256 + Z_of_byte b) 0 bs.

(** The head of an encoded value: a scalar, or the kind and length of
    what follows. *)
Inductive token :=
| TNil
| TBool (b : bool)
| TInt (z : Z)
| TFloat (bits : Z)
| TStr (len : Z)
| TArr (len : Z)
| TMap (len : Z).

Definition tok_ok (t : token) : Prop :=
  match t with
  | TStr n | TArr n | TMap n => 0 <= n
  | _ => True
  end.

Definition emit (t : token) : outcome bytes :=
  match t with
  | TNil => Ok [byte_of_Z 192]
  | TBool false => Ok [byte_of_Z 194]
  | TBool true => Ok [byte_of_Z 195]
  | TFloat bits =>
      if decide (0 <= bits < 2 ^ 64) then Ok (byte_of_Z 203 :: be 8 bits)
      else Raise (OverflowError "float out of range")
  | TInt z =>
      if decide (0 <= z) then
        if decide (z < 128) then Ok [byte_of_Z z]
        else if decide (z < 2 ^ 8) then Ok (byte_of_Z 204 :: be 1 z)
        else if decide (z < 2 ^ 16) then Ok (byte_of_Z 205 :: be 2 z)
        else if decide (z < 2 ^ 32) then Ok (byte_of_Z 206 :: be 4 z)
        else if decide (z < 2 ^ 64) then Ok (byte_of_Z 207 :: be 8 z)
        else Raise (OverflowError "Integer value out of range")
      else
        if decide (- 32 <= z) then Ok [byte_of_Z (256 + z)]
        else if decide (- 2 ^ 7 <= z) then Ok (byte_of_Z 208 :: be 1 (2 ^ 8 + z))
        else if decide (- 2 ^ 15 <= z) then Ok (byte_of_Z 209 :: be 2 (2 ^ 16 + z))
        else if decide (- 2 ^ 31 <= z) then Ok (byte_of_Z 210 :: be 4 (2 ^ 32 + z))
        else if decide (- 2 ^ 63 <= z) then Ok (byte_of_Z 211 :: be 8 (2 ^ 64 + z))
        else Raise (OverflowError "Integer value out of range")
  | TStr n =>
      if decide (n < 32) then Ok [byte_of_Z (160 + n)]
      else if decide (n < 2 ^ 8) then Ok (byte_of_Z 217 :: be 1 n)
      else if decide (n < 2 ^ 16) then Ok (byte_of_Z 218 :: be 2 n)
      else if decide (n < 2 ^ 32) then Ok (byte_of_Z 219 :: be 4 n)
      else Raise (ValueError "str is too large")
  | TArr n =>
      if decide (n < 16) then Ok [byte_of_Z (144 + n)]
      else if decide (n < 2 ^ 16) then Ok (byte_of_Z 220 :: be 2 n)
      else if decide (n < 2 ^ 32) then Ok (byte_of_Z 221 :: be 4 n)
      else Raise (ValueError "list is too large")
  | TMap n =>
      if decide (n < 16) then Ok [byte_of_Z (128 + n)]
      else if decide (n < 2 ^ 16) then Ok (byte_of_Z 222 :: be 2 n)
      else if decide (n < 2 ^ 32) then Ok (byte_of_Z 223 :: be 4 n)
      else Raise (ValueError "dict is too large")
  end.

Definition truncated {A} : outcome A :=
  Raise (ValueError "Unpack failed: incomplete input").

(** The next [n] bytes as a number. *)
Definition read_be (n : nat) (bs : bytes) : outcome (Z * bytes) :=
  if decide (length bs < n)%nat then truncated
  else Ok (unbe (take n bs), drop n bs).

Definition read_token (bs : bytes) : outcome (token * bytes) :=
  match bs with
  | [] => truncated
  | b :: rest =>
      let t := Z_of_byte b in
      let num (n : nat) (mk : Z -> token) : outcome (token * bytes) :=
        '(z, rest) ← read_be n rest; Ok (mk z, rest) in
      if decide (t < 128) then Ok (TInt t, rest)
      else if decide (t < 144) then Ok (TMap (t - 128), rest)
      else if decide (t < 160) then Ok (TArr (t - 144), rest)
      else if decide (t < 192) then Ok (TStr (t - 160), rest)
      else if decide (t = 192) then Ok (TNil, rest)
      else if decide (t = 194) then Ok (TBool false, rest)
      else if decide (t = 195) then Ok (TBool true, rest)
      else if decide (t = 203) then num 8%nat TFloat
      else if decide (t = 204) then num 1%nat TInt
      else if decide (t = 205) then num 2%nat TInt
      else if decide (t = 206) then num 4%nat TInt
      else if decide (t = 207) then num 8%nat TInt
      else if decide (t = 208) then num 1%nat (fun z => TInt (z - 2 ^ 8))
      else if decide (t = 209) then num 2%nat (fun z => TInt (z - 2 ^ 16))
      else if decide (t = 210) then num 4%nat (fun z => TInt (z - 2 ^ 32))
      else if decide (t = 211) then num 8%nat (fun z => TInt (z - 2 ^ 64))
      else if decide (t = 217) then num 1%nat TStr
      else if decide (t = 218) then num 2%nat TStr
      else if decide (t = 219) then num 4%nat TStr
      else if decide (t = 220) then num 2%nat TArr
      else if decide (t = 221) then num 4%nat TArr
      else if decide (t = 222) then num 2%nat TMap
      else if decide (t = 223) then num 4%nat TMap
      else if decide (224 <= t) then Ok (TInt (t - 256), rest)
      else Raise (ValueError "Unpack failed: unsupported type")
  end.

Definition pack_atom (a : atom) : outcome bytes :=
  match a with
  | ANone => emit TNil
  | ABool b => emit (TBool b)
  | AInt z => emit (TInt z)
  | AFloat bits => emit (TFloat bits)
  | AStr s =>
      head ← emit (TStr (Z.of_nat (String.length s)));
      Ok (head ++ String.list_byte_of_string s)
  end.

(** [packb]: a tuple is written as an array; sets and instances are not
    serializable, and neither, here, is an object without [__dict__] (the
    serializer passes none on). *)
Fixpoint pack (v : pyval) : outcome bytes :=
  let seq (l : list pyval) : outcome bytes :=
    head ← emit (TArr (Z.of_nat (length l)));
    body ← omapM pack l;
    Ok (head ++ concat body) in
  match v with
  | PAtom a => pack_atom a
  | PList l | PTuple l => seq l
  | PDict d =>
      head ← emit (TMap (Z.of_nat (length d)));
      body ← omapM (fun kv => k ← pack_atom kv.1; x ← pack kv.2; Ok (k ++ x)) d;
      Ok (head ++ concat body)
  | PSet _ => Raise (TypeError "can not serialize 'set' object")
  | PInst c _ => Raise (TypeError ("can not serialize '" +:+ cname c +:+ "' object"))
  | POpaque t _ => Raise (TypeError ("can not serialize '" +:+ t +:+ "' object"))
  end.

Definition take_bytes (n : nat) (bs : bytes) : outcome (bytes * bytes) :=
  if decide (length bs < n)%nat then truncated
  else Ok (take n bs, drop n bs).

(** [n] values read one after the other. *)
Definition parse_seq {A} (p : bytes -> outcome (A * bytes))
    : nat -> bytes -> outcome (list A * bytes) :=
  fix go n bs :=
    match n with
    | O => Ok ([], bs)
    | S m =>
        '(x, bs) ← p bs;
        '(xs, bs) ← go m bs;
        Ok (x :: xs, bs)
    end.

Fixpoint parse (fuel : nat) (bs : bytes) : outcome (pyval * bytes) :=
  match fuel with
  | O => OutOfFuel
  | S f =>
      '(t, bs) ← read_token bs;
      match t with
      | TNil => Ok (PAtom ANone, bs)
      | TBool b => Ok (PAtom (ABool b), bs)
      | TInt z => Ok (PAtom (AInt z), bs)
      | TFloat bits => Ok (PAtom (AFloat bits), bs)
      | TStr n =>
          '(body, bs) ← take_bytes (Z.to_nat n) bs;
          Ok (PStr (String.string_of_list_byte body), bs)
      | TArr n =>
          '(l, bs) ← parse_seq (parse f) (Z.to_nat n) bs;
          Ok (PList l, bs)
      | TMap n =>
          '(d, bs) ← parse_seq (fun bs =>
              '(k, bs) ← parse f bs;
              match k with
              | PAtom (AStr s) => '(x, bs) ← parse f bs; Ok ((AStr s, x), bs)
              | _ => Raise (ValueError "key is not allowed for map key when strict_map_key=True")
              end) (Z.to_nat n) bs;
          Ok (PDict d, bs)
      end
  end.

(** [unpackb]: one value, and nothing after it.  The nesting the
    unpacker accepts is limited; the limit here is the input's length.
    The decoder is exact on the bytes that [pack] emits.  On other
    bytes it is not the library's: the encodings that [packb] never
    emits for the serializer's output (bin, ext, 32-bit floats) are
    rejected rather than decoded, the bytes of a string are taken as
    they are and not checked to be UTF-8, and a map that repeats a key
    keeps both entries.  The general properties are stated for any
    [Msgpack] that has the two laws; this decoder serves the examples,
    which read back what [pack] wrote or a file of one byte. *)
Definition unpack (bs : bytes) : outcome pyval :=
  match parse (S (length bs)) bs with
  | Ok (v, []) => Ok v
  | Ok (v, _ :: _) => Raise (ValueError "unpack(b) received extra data.")
  | Raise e => Raise e
  | OutOfFuel => Raise (ValueError "Unpack failed: stack overflow")
  end.

End Wire.

(** ** The table and index classes *)

(** Modelled from the spec: the constructors of [Table] (lstore/table.py)
    and [Index] (lstore/index.py), which are not among the sources.  Table
    metadata is {name, number of columns, key column ordinal, next-RID
    counter}; a table owns its primary-key index and its base and tail
    pages, and a new table is empty; an index maps key values to RIDs.
    Creating a table fails with [InvalidKeyIndex] if the key index is
    outside [0, num_columns); [create_table] has no check of its own
    (lines 221-225), so it is the constructor that fails.  Loading
    constructs an empty instance of the tagged kind: [Table()] and
    [Index()] return one. *)
Definition Index_fields : list (atom * pyval) :=
  [(AStr "entries", PDict [])].

Definition Table_fields (name : atom) (num_columns key : Z)
    : list (atom * pyval) :=
  [(AStr "name", PAtom name);
   (AStr "num_columns", PAtom (AInt num_columns));
   (AStr "key", PAtom (AInt key));
   (AStr "next_rid", PAtom (AInt 0));
   (AStr "index", PInst IndexClass Index_fields);
   (AStr "base_pages", PList []);
   (AStr "tail_pages", PList [])].

#[global] Instance lstore_classes : Classes := {|
  Table_new name num_columns key_index :=
    if (0 <=? key_index) && (key_index <? num_columns)
    then Ok (Table_fields (AStr name) num_columns key_index)
    else Raise InvalidKeyIndex;
  Table_default := Ok (Table_fields ANone 0 0);
  Index_default := Ok Index_fields
|}.

(** * Part II: the notions the properties are stated with *)

(** ** Size of a value and of a heap *)

(** Nesting depth of a value. *)
Fixpoint depth (v : pyval) : nat :=
  match v with
  | PAtom _ | POpaque _ _ => O
  | PList l | PTuple l | PSet l => S (foldr (fun x m => depth x `max` m)%nat O l)
  | PDict d | PInst _ d => S (foldr (fun kv m => depth kv.2 `max` m)%nat O d)
  end.

(** Number of nodes of a value, a dict entry counting its key. *)
Fixpoint nodes (v : pyval) : nat :=
  match v with
  | PAtom _ | POpaque _ _ => 1%nat
  | PList l | PTuple l | PSet l => S (foldr (fun x n => nodes x + n)%nat O l)
  | PDict d | PInst _ d => S (foldr (fun kv n => S (nodes kv.2) + n)%nat O d)
  end.

(** How many values an object contributes to the output at most: its
    items, a dict's keys and values, the four scalars and mappings of a
    tagged instance. *)
Definition arity (o : obj) : nat :=
  match o with
  | OList l | OTuple l | OSet l => length l
  | ODict items => (2 * length items)%nat
  | OInst _ _ => 4%nat
  | _ => O
  end.

Definition width (h : heap) : nat := max_list (arity <$> (map_to_list h).*2).

(** The size a walk over [n] objects of width [w] can reach. *)
Fixpoint size_bound (w n : nat) : nat :=
  match n with
  | O => 1%nat
  | S m => (1 + w * size_bound w m)%nat
  end.

Definition within (w n : nat) (v : pyval) : Prop :=
  (depth v <= n)%nat /\ (nodes v <= size_bound w n)%nat.

Definition settled_with {A} (P : A -> Prop) (seen : gset addr)
    (res : outcome A * gset addr) : Prop :=
  match res with
  | (Ok v, s) => s = seen /\ P v
  | (Raise _, _) => True
  | (OutOfFuel, _) => False
  end.

(** A dict key that converts to a hashable value: a basic value, or an
    object without [__dict__] (which becomes its string). *)
Definition key_object (h : heap) (k : addr) : bool :=
  match deref h k with
  | OAtom _ | OOpaque _ _ => true
  | _ => false
  end.

Definition hashable_keys (h : heap) : bool :=
  forallb (fun o => match o with
                    | ODict items => forallb (fun kv => key_object h kv.1) items
                    | _ => true
                    end) (map_to_list h).*2.

(** ** The value of an acyclic object graph

    [reify] unfolds the graph below [a] into a tree.  It is defined when no
    object lies on its own access path and every dict key is a basic
    value; a shared object is unfolded once per reference. *)

Fixpoint reify (fuel : nat) (h : heap) (seen : gset addr) (a : addr)
    {struct fuel} : option pyval :=
  match fuel with
  | O => None
  | S n =>
      if decide (a ∈ seen) then None
      else
        let below := reify n h (seen ∪ {[a]}) in
        match deref h a with
        | OAtom x => Some (PAtom x)
        | OList items => PList <$> mapM below items
        | OTuple items => PTuple <$> mapM below items
        | OSet items => PSet <$> mapM below items
        | ODict items =>
            PDict <$> mapM (fun kv =>
              k ← below kv.1;
              match k with
              | PAtom ka => v ← below kv.2; Some (ka, v)
              | _ => None
              end) items
        | OInst c d =>
            st ← below d;
            match st with
            | PDict kvs => Some (PInst c kvs)
            | _ => None
            end
        | OOpaque t r => Some (POpaque t r)
        end
  end.

Definition value_of (h : heap) (a : addr) : option pyval :=
  reify (enough h) h ∅ a.

(** One item of a dict as [alloc] stores it: the key object, then the
    value. *)
Definition alloc_item (kv : atom * pyval) (h : heap) : (addr * addr) * heap :=
  let '(k, h) := new_object (OAtom kv.1) h in
  let '(x, h) := alloc kv.2 h in
  ((k, x), h).

(** What [alloc] has put in the heap reads back as the value, in every
    heap that extends it. *)
Definition reads_back (v : pyval) : Prop :=
  forall h a h1, alloc v h = (a, h1) ->
  forall h2 seen fuel,
    h1 ⊆ h2 -> (forall p, p ∈ seen -> p ∈ dom h1 -> p ∈ dom h) ->
    (size (dom h2 ∖ seen) < fuel)%nat ->
    reify fuel h2 seen a = Some v.

(** No two keys of a dict are equal (Python's [==]): each key differs
    from the ones before it. *)
Fixpoint keys_distinct (before : list atom) (ks : list atom) : bool :=
  match ks with
  | [] => true
  | k :: r =>
      forallb (fun k' => negb (key_eqb k' k)) before
      && keys_distinct (before ++ [k]) r
  end.

Fixpoint keys_ok (v : pyval) : bool :=
  match v with
  | PAtom _ | POpaque _ _ => true
  | PList l | PTuple l | PSet l => forallb keys_ok l
  | PDict d | PInst _ d =>
      keys_distinct [] d.*1 && forallb (fun kv => keys_ok kv.2) d
  end.

(** What the serializer makes of a tree. *)
Fixpoint ser (v : pyval) : pyval :=
  match v with
  | PAtom a => PAtom a
  | PList l | PTuple l | PSet l => PList (ser <$> l)
  | PDict d => PDict (prod_map id ser <$> d)
  | PInst c d => tagged (tag_of c) (PDict (prod_map id ser <$> d))
  | POpaque _ r => PStr r
  end.

(** ** The part of a table's state that a save and a load preserve *)

Section durable.

Context `{Classes}.

Definition str_key (k : atom) : bool :=
  match k with
  | AStr s => negb (bool_decide (s = "__custom_type__"))
  | _ => false
  end.

Definition plain_keys (ks : list atom) : bool :=
  forallb str_key ks && keys_distinct [] ks.

(** Scalars, lists, dicts whose keys are strings other than the tag
    key, and instances of exactly [Table] and [Index] whose attributes
    start with the ones the argument-less constructor creates. *)
Fixpoint durable (v : pyval) : bool :=
  match v with
  | PAtom _ => true
  | PList l => forallb durable l
  | PDict d => plain_keys d.*1 && forallb (fun kv => durable kv.2) d
  | PInst c d =>
      (bool_decide (c = TableClass) || bool_decide (c = IndexClass))
      && match class_default (ckind c) with
         | Ok init => bool_decide (init.*1 `prefix_of` d.*1)
         | _ => false
         end
      && plain_keys d.*1 && forallb (fun kv => durable kv.2) d
  | _ => false
  end.

End durable.

(** ** Notions for the further properties *)

(** Plain data: scalars, lists and dicts, and nothing else. *)
Fixpoint plain_data (v : pyval) : bool :=
  match v with
  | PAtom _ => true
  | PList l => forallb plain_data l
  | PDict d => forallb (fun kv => plain_data kv.2) d
  | _ => false
  end.

(** The exceptions of the dict comprehension of line 103. *)
Definition unhashable (e : exn) : Prop :=
  e = TypeError "unhashable type: 'list'"
  \/ e = TypeError "unhashable type: 'dict'".

(** No dict met by [rehydrate] has the key ["__custom_type__"]: the
    dicts of the value that are reached through lists and dict values. *)
Fixpoint untagged (v : pyval) : bool :=
  match v with
  | PDict d =>
      match dict_get key_eqb d (AStr "__custom_type__") with
      | Some _ => false
      | None => forallb (fun kv => untagged kv.2) d
      end
  | PList l => forallb untagged l
  | _ => true
  end.

(** A value that can be saved and loaded: every dict and every
    instance's [__dict__] has string keys other than the tag key, no two
    equal. *)
Fixpoint storable (v : pyval) : bool :=
  match v with
  | PAtom _ | POpaque _ _ => true
  | PList l | PTuple l | PSet l => forallb storable l
  | PDict d | PInst _ d =>
      plain_keys d.*1 && forallb (fun kv => storable kv.2) d
  end.

Section reloaded.

(** What [Table()] and [Index()] leave in a new instance. *)
Variables table_init index_init : list (atom * pyval).

(** What a save and a load make of a value: a tuple or a set is a list,
    an object without [__dict__] its string; an instance tagged
    ["Table"] or ["Index"] is an instance of that class, a fresh one
    updated with the saved attributes; any other instance is the tagged
    mapping. *)
Fixpoint reloaded (v : pyval) : pyval :=
  match v with
  | PAtom a => PAtom a
  | PList l | PTuple l | PSet l => PList (reloaded <$> l)
  | PDict d => PDict (prod_map id reloaded <$> d)
  | PInst c d =>
      let state := prod_map id reloaded <$> d in
      if bool_decide (tag_of c = "Table")
      then PInst TableClass (dict_update key_eqb table_init state)
      else if bool_decide (tag_of c = "Index")
           then PInst IndexClass (dict_update key_eqb index_init state)
           else tagged (tag_of c) (PDict state)
  | POpaque _ r => PStr r
  end.

End reloaded.

(** * Part III: lemmas *)

(** ** Lists, dicts and strings *)

Lemma forallb_true_Forall {A} (f : A -> bool) (l : list A) :
  forallb f l = true -> Forall (fun x => f x = true) l.
Proof.
  induction l as [|x l IH]; simpl; [constructor|].
  intros [??]%andb_prop. constructor; auto.
Qed.

Lemma Forall_Forall2_combine {A B} (P : A -> Prop) (R Q : A -> B -> Prop)
    (l : list A) (k : list B) :
  Forall P l -> Forall2 R l k -> (forall x y, P x -> R x y -> Q x y) ->
  Forall2 Q l k.
Proof.
  intros HP HR HQ. induction HR as [|x y l k Hxy _ IH]; [constructor|].
  apply Forall_cons in HP as [Hx Hl]. constructor; auto.
Qed.

Lemma Forall2_same {A} (P : A -> A -> Prop) (l : list A) :
  Forall2 P l l -> Forall (fun x => P x x) l.
Proof.
  induction l as [|x l IH]; [constructor|].
  intros [Hx Hl]%Forall2_cons. constructor; auto.
Qed.

(** Induction over trees, with the hypothesis for every element of a
    container. *)
Lemma pyval_ind' (P : pyval -> Prop) :
  (forall a, P (PAtom a)) ->
  (forall l, Forall P l -> P (PList l)) ->
  (forall l, Forall P l -> P (PTuple l)) ->
  (forall l, Forall P l -> P (PSet l)) ->
  (forall d, Forall (fun kv => P kv.2) d -> P (PDict d)) ->
  (forall c d, Forall (fun kv => P kv.2) d -> P (PInst c d)) ->
  (forall t r, P (POpaque t r)) ->
  forall v, P v.
Proof.
  intros Ha Hl Ht Hs Hd Hi Ho.
  fix IH 1. intros [a|l|l|l|d|c d|t r].
  - apply Ha.
  - apply Hl. induction l; constructor; auto.
  - apply Ht. induction l; constructor; auto.
  - apply Hs. induction l; constructor; auto.
  - apply Hd. induction d as [|[k v] d IHd]; constructor; auto.
  - apply Hi. induction d as [|[k v] d IHd]; constructor; auto.
  - apply Ho.
Qed.

Lemma omapM_fmap {A B C} (f : B -> outcome C) (g : A -> B) (l : list A) :
  omapM f (g <$> l) = omapM (fun x => f (g x)) l.
Proof.
  induction l as [|x l IH]; csimpl; [done|].
  destruct (f (g x)); try done. by rewrite IH.
Qed.

Lemma omapM_Ok {A B} (f : A -> outcome B) (l : list A) (k : list B) :
  Forall2 (fun x y => f x = Ok y) l k -> omapM f l = Ok k.
Proof. induction 1 as [|x y l k Hx _ IH]; simpl; [done|]. by rewrite Hx, IH. Qed.

Lemma omapM_Ok_inv {A B} (f : A -> outcome B) (l : list A) (k : list B) :
  omapM f l = Ok k -> Forall2 (fun x y => f x = Ok y) l k.
Proof.
  revert k. induction l as [|x l IH]; intros k; simpl.
  - intros [= <-]. constructor.
  - destruct (f x) as [y| |] eqn:Hx; try done.
    destruct (omapM f l) as [ys| |]; try done.
    intros [= <-]. constructor; auto.
Qed.

Lemma dict_get_fmap {K A B} (eqb : K -> K -> bool) (f : A -> B)
    (d : list (K * A)) (k : K) :
  dict_get eqb ((fun kv => (kv.1, f kv.2)) <$> d) k = f <$> dict_get eqb d k.
Proof.
  induction d as [|[k' v] d IH]; csimpl; [done|]. by destruct (eqb k' k).
Qed.

Lemma dict_set_fresh {V} (acc : list (atom * V)) k v :
  forallb (fun k' => negb (key_eqb k' k)) acc.*1 = true ->
  dict_set key_eqb acc k v = acc ++ [(k, v)].
Proof.
  induction acc as [|[k' v'] r IH]; simpl; [done|].
  intros [Hk Hr]%andb_prop. apply negb_true_iff in Hk. rewrite Hk.
  by rewrite IH.
Qed.

Lemma dict_set_values {V} (P : V -> Prop) (d : list (atom * V)) k v :
  Forall (fun kv => P kv.2) d -> P v ->
  Forall (fun kv => P kv.2) (dict_set key_eqb d k v)
  /\ (length (dict_set key_eqb d k v) <= S (length d))%nat.
Proof.
  intros Hd Hv. induction Hd as [|[k' v'] d Hx Hd [IH1 IH2]]; simpl.
  - split; [by repeat constructor|lia].
  - destruct (key_eqb k' k); simpl; split; try lia; constructor; auto.
Qed.

Lemma str_eqb_refl (s : string) : str_eqb s s = true.
Proof. by apply bool_decide_eq_true_2. Qed.

Lemma str_eqb_ne (s t : string) : s <> t -> str_eqb s t = false.
Proof. by apply bool_decide_eq_false_2. Qed.

Lemma str_eqb_eq (s t : string) : str_eqb s t = true -> s = t.
Proof. by apply bool_decide_eq_true_1. Qed.

Section str_dict.

Context {V : Type}.

Implicit Types (d : list (string * V)) (k : string) (v : V).

Lemma dict_get_set_eq d k v : dict_get str_eqb (dict_set str_eqb d k v) k = Some v.
Proof.
  induction d as [|[k' v'] d IH]; simpl.
  - by rewrite str_eqb_refl.
  - destruct (str_eqb k' k) eqn:E; simpl; rewrite E; done.
Qed.

Lemma dict_get_set_ne d k k' v :
  k <> k' -> dict_get str_eqb (dict_set str_eqb d k v) k' = dict_get str_eqb d k'.
Proof.
  intros Hne. induction d as [|[k0 v0] d IH]; simpl.
  - by rewrite str_eqb_ne.
  - destruct (str_eqb k0 k) eqn:E; simpl; [|by rewrite IH].
    apply str_eqb_eq in E. subst k0. by rewrite !str_eqb_ne.
Qed.

Lemma dict_get_del_ne d k k' :
  k <> k' -> dict_get str_eqb (dict_del str_eqb d k) k' = dict_get str_eqb d k'.
Proof.
  intros Hne. induction d as [|[k0 v0] d IH]; simpl; [done|].
  destruct (str_eqb k0 k) eqn:E; simpl; [|by rewrite IH].
  apply str_eqb_eq in E. subst k0. by rewrite str_eqb_ne.
Qed.

Lemma dict_get_None d k : k ∉ d.*1 -> dict_get str_eqb d k = None.
Proof.
  induction d as [|[k0 v0] d IH]; simpl; [done|].
  intros Hk. apply not_elem_of_cons in Hk as [Hne Hk].
  rewrite str_eqb_ne by done. auto.
Qed.

(** A dict lists a key once. *)
Lemma dict_get_del_eq d k :
  NoDup d.*1 -> dict_get str_eqb (dict_del str_eqb d k) k = None.
Proof.
  induction d as [|[k0 v0] d IH]; simpl; [done|].
  intros [Hk Hd]%NoDup_cons. destruct (str_eqb k0 k) eqn:E; simpl.
  - apply str_eqb_eq in E. subst k0. by apply dict_get_None.
  - rewrite E. auto.
Qed.

Lemma dict_del_absent d k : dict_get str_eqb d k = None -> dict_del str_eqb d k = d.
Proof.
  induction d as [|[k0 v0] d IH]; simpl; [done|].
  destruct (str_eqb k0 k); [done|]. intros Hk. by rewrite IH.
Qed.

Lemma dict_set_keys d k v f :
  f ∈ (dict_set str_eqb d k v).*1 <-> f ∈ d.*1 \/ f = k.
Proof.
  induction d as [|[k0 v0] d IH]; csimpl.
  - rewrite list_elem_of_singleton. split; [by right|]. by intros [?%elem_of_nil|].
  - destruct (str_eqb k0 k) eqn:E; csimpl.
    + apply str_eqb_eq in E. subst k0. rewrite !elem_of_cons. tauto.
    + rewrite !elem_of_cons, IH. tauto.
Qed.

Lemma dict_set_NoDup d k v : NoDup d.*1 -> NoDup (dict_set str_eqb d k v).*1.
Proof.
  induction d as [|[k0 v0] d IH]; csimpl.
  - intros _. apply NoDup_singleton.
  - intros [Hk Hd]%NoDup_cons. destruct (str_eqb k0 k) eqn:E; csimpl.
    + by apply NoDup_cons.
    + apply NoDup_cons. split; [|auto]. rewrite dict_set_keys.
      intros [|<-]; [done|]. by rewrite str_eqb_refl in E.
Qed.

Lemma dict_get_elem d k v : dict_get str_eqb d k = Some v -> (k, v) ∈ d.
Proof.
  induction d as [|[k0 v0] d IH]; simpl; [done|].
  destruct (str_eqb k0 k) eqn:E.
  - apply str_eqb_eq in E. intros [= ->]. subst. by left.
  - intros Hg. right. auto.
Qed.

Lemma dict_get_is_Some d k : k ∈ d.*1 -> is_Some (dict_get str_eqb d k).
Proof.
  induction d as [|[k0 v0] d IH]; csimpl; [by intros ?%elem_of_nil|].
  intros [->|Hin]%elem_of_cons.
  - by rewrite str_eqb_refl.
  - destruct (str_eqb k0 k); [done|auto].
Qed.

End str_dict.

Lemma string_length_app (s t : string) :
  String.length (s +:+ t) = (String.length s + String.length t)%nat.
Proof. induction s as [|c s IH]; simpl; [done|]. by rewrite IH. Qed.

(** [f"{name}.tbl"[:-4] == name], and the file name ends in [.tbl]. *)
Lemma drop_last4_tbl_file (name : string) : drop_last4 (tbl_file name) = name.
Proof.
  unfold drop_last4, tbl_file. induction name as [|c s IH]; [done|].
  change (String c s +:+ ".tbl") with (String c (s +:+ ".tbl")).
  cbn [String.length].
  pose proof (string_length_app s ".tbl") as Hlen. simpl in Hlen.
  replace (S (String.length (s +:+ ".tbl")) - 4)%nat
    with (S (String.length (s +:+ ".tbl") - 4)) by lia.
  simpl. by rewrite IH.
Qed.

Lemma endswith_tbl_file (name : string) : endswith (tbl_file name) ".tbl" = true.
Proof.
  unfold tbl_file. induction name as [|c s IH]; [done|].
  change (String c s +:+ ".tbl") with (String c (s +:+ ".tbl")).
  cbn [endswith]. rewrite IH. by rewrite orb_true_r.
Qed.

Lemma tbl_file_inj (n1 n2 : string) : tbl_file n1 = tbl_file n2 -> n1 = n2.
Proof.
  intros Heq. by rewrite <- (drop_last4_tbl_file n1), Heq, drop_last4_tbl_file.
Qed.

Lemma endswith_app (s suffix : string) :
  endswith s suffix = true -> exists p, s = p +:+ suffix.
Proof.
  induction s as [|c s IH]; cbn [endswith].
  - intros [Heq%str_eqb_eq|]%orb_prop; [|done]. exists "". by subst.
  - intros [Heq%str_eqb_eq|Hr]%orb_prop.
    + exists "". by subst.
    + destruct (IH Hr) as [p ->]. by exists (String c p).
Qed.

Lemma endswith_tbl (f : string) :
  endswith f ".tbl" = true -> f = tbl_file (drop_last4 f).
Proof.
  intros [p ->]%endswith_app. fold (tbl_file p). by rewrite drop_last4_tbl_file.
Qed.

(** ** The walk always comes back, with [seen] as it found it, and
    with a result of bounded size *)

Lemma unseen_lt (h : heap) (seen : gset addr) (a : addr) :
  a ∈ dom h -> a ∉ seen ->
  (size (dom h ∖ (seen ∪ {[a]})) < size (dom h ∖ seen))%nat.
Proof.
  intros Hd Hs. apply subset_size. split; [set_solver|].
  intros Hsub. assert (a ∈ dom h ∖ (seen ∪ {[a]})) by (apply Hsub; set_solver).
  set_solver.
Qed.

Lemma size_bound_pos w n : (1 <= size_bound w n)%nat.
Proof. destruct n; simpl; lia. Qed.

Lemma size_bound_mono w m n : (m <= n)%nat -> (size_bound w m <= size_bound w n)%nat.
Proof.
  assert (Hstep : forall k, (size_bound w k <= size_bound w (S k))%nat).
  { induction k as [|k IH]; [simpl; lia|].
    change (1 + w * size_bound w k <= 1 + w * size_bound w (S k))%nat.
    apply Nat.add_le_mono_l, Nat.mul_le_mono_l, IH. }
  intros Hmn. induction Hmn as [|n _ IH]; [done|].
  etrans; [apply IH|apply Hstep].
Qed.

Lemma within_mono w m n v : (m <= n)%nat -> within w m v -> within w n v.
Proof.
  intros Hmn [Hd Hn]. pose proof (size_bound_mono w m n Hmn).
  split; lia.
Qed.

Lemma arity_width (h : heap) (a : addr) (o : obj) :
  h !! a = Some o -> (arity o <= width h)%nat.
Proof.
  intros Ha. apply max_list_elem_of_le. apply list_elem_of_fmap.
  exists o. split; [done|]. apply list_elem_of_fmap. exists (a, o).
  split; [done|]. by apply elem_of_map_to_list.
Qed.

Lemma within_list w n (l : list pyval) :
  Forall (within w n) l ->
  (foldr (fun x m => depth x `max` m) 0 l <= n)%nat
  /\ (foldr (fun x m => nodes x + m) 0 l <= length l * size_bound w n)%nat.
Proof.
  induction 1 as [|x l [Hd Hn] _ [IHd IHn]]; simpl; split; lia.
Qed.

Lemma within_dict w n (d : list (atom * pyval)) :
  Forall (fun kv => within w n kv.2) d ->
  (foldr (fun kv m => depth kv.2 `max` m) 0 d <= n)%nat
  /\ (foldr (fun kv m => S (nodes kv.2) + m) 0 d
      <= length d * (2 * size_bound w n))%nat.
Proof.
  pose proof (size_bound_pos w n).
  induction 1 as [|x l [Hd Hn] _ [IHd IHn]]; cbn [foldr length]; split; lia.
Qed.

Lemma conv_list_within (P : pyval -> Prop) rec items seen :
  (forall x, settled_with P seen (rec x seen)) ->
  settled_with (fun l => Forall P l /\ length l = length items) seen
    (conv_list rec items seen).
Proof.
  intros Hrec. induction items as [|x r IH]; simpl; [done|].
  specialize (Hrec x). destruct (rec x seen) as [[y| |] s]; simpl in *;
    try done.
  destruct Hrec as [-> Hy].
  destruct (conv_list rec r seen) as [[ys| |] s]; simpl in *; try done.
  destruct IH as [-> [Hys Hlen]]. repeat split; [by constructor|].
  simpl. by rewrite Hlen.
Qed.

Lemma conv_items_within (P : pyval -> Prop) rec items acc seen :
  (forall x, settled_with P seen (rec x seen)) ->
  Forall (fun kv => P kv.2) acc ->
  settled_with (fun d => Forall (fun kv => P kv.2) d
                         /\ (length d <= length acc + length items)%nat) seen
    (conv_items rec items acc seen).
Proof.
  intros Hrec. revert acc. induction items as [|[k v] r IH]; intros acc Hacc;
    simpl.
  - repeat split; [done|lia].
  - pose proof (Hrec k) as Hk.
    destruct (rec k seen) as [[k'| |] s]; simpl in *; try done.
    destruct Hk as [-> _]. pose proof (Hrec v) as Hv.
    destruct (rec v seen) as [[v'| |] s]; simpl in *; try done.
    destruct Hv as [-> Hv]. destruct k' as [ka| | | | | |]; simpl; try done.
    destruct (dict_set_values P acc ka v' Hacc Hv) as [Hacc' Hlen].
    specialize (IH _ Hacc').
    destruct (conv_items rec r _ seen) as [[d| |] s]; simpl in *; try done.
    destruct IH as [-> [Hd Hl]]. repeat split; [done|lia].
Qed.

Lemma convert_within (h : heap) (fuel : nat) :
  forall a seen, (size (dom h ∖ seen) < fuel)%nat ->
    settled_with (within (width h) (size (dom h ∖ seen))) seen
      (convert_to_serializable fuel h a seen).
Proof.
  induction fuel as [|n IH]; intros a seen Hfuel; [lia|].
  pose proof (size_bound_pos (width h) (size (dom h ∖ seen))) as Hpos.
  assert (Hleaf : forall v, depth v = O -> nodes v = 1%nat ->
            within (width h) (size (dom h ∖ seen)) v).
  { intros v Hd Hn. split; lia. }
  simpl. destruct (decide (a ∈ seen)) as [Hin|Hnot]; [by split; [|apply Hleaf]|].
  assert (Hback : (seen ∪ {[a]}) ∖ {[a]} = seen) by set_solver.
  destruct (h !! a) as [o|] eqn:Ha.
  2: { unfold deref. rewrite Ha. simpl. by split; [|apply Hleaf]. }
  assert (Hd : a ∈ dom h) by (apply elem_of_dom; eauto).
  pose proof (unseen_lt h seen a Hd Hnot) as Hlt.
  pose proof (arity_width h a o Ha) as Hw.
  destruct (size (dom h ∖ seen)) as [|m] eqn:Hm; [lia|].
  assert (Hrec : forall x,
    settled_with (within (width h) m) (seen ∪ {[a]})
      (convert_to_serializable n h x (seen ∪ {[a]}))).
  { intros x. specialize (IH x (seen ∪ {[a]})).
    destruct (convert_to_serializable n h x _) as [[v| |] s]; simpl in *;
      try done; try (apply IH; lia).
    destruct IH as [-> Hv]; [lia|]. split; [done|].
    eapply within_mono; [|done]. lia. }
  unfold deref. rewrite Ha. simpl.
  destruct o as [x|items|items|items|items|c d|t r]; simpl in *;
    try (by split; [|apply Hleaf]).
  1-3: pose proof (conv_list_within _ _ items _ Hrec) as Hl;
       destruct (conv_list _ items _) as [[l| |] s]; simpl in *; try done;
       destruct Hl as [-> [Hl Hlen]]; split; [done|];
       apply (within_list _ _ l) in Hl as [Hld Hln];
       split; simpl; [lia|]; rewrite Hlen in Hln;
       pose proof (Nat.mul_le_mono_r _ _ (size_bound (width h) m) Hw); lia.
  - pose proof (conv_items_within _ _ items [] _ Hrec (Forall_nil_2 _)) as Hl.
    destruct (conv_items _ items _ _) as [[l| |] s]; simpl in *; try done.
    destruct Hl as [-> [Hl Hlen]]. split; [done|].
    apply (within_dict _ _ l) in Hl as [Hld Hln].
    split; simpl; [lia|].
    pose proof (Nat.mul_le_mono_r _ _ (size_bound (width h) m) Hw).
    pose proof (Nat.mul_le_mono_r _ _ (2 * size_bound (width h) m) Hlen).
    simpl in *. lia.
  - specialize (Hrec d).
    destruct (convert_to_serializable n h d _) as [[st| |] s]; simpl in *;
      try done.
    destruct Hrec as [-> [Hsd Hsn]]. split; [done|].
    pose proof (size_bound_pos (width h) m).
    pose proof (Nat.mul_le_mono_r _ _ (size_bound (width h) m) Hw).
    split; simpl; [lia|]. lia.
Qed.

Lemma hashable_keys_lookup (h : heap) (a : addr) (items : list (addr * addr)) :
  hashable_keys h = true -> h !! a = Some (ODict items) ->
  Forall (fun kv => key_object h kv.1 = true) items.
Proof.
  intros Hh Ha. unfold hashable_keys in Hh.
  apply forallb_true_Forall in Hh. rewrite Forall_forall in Hh.
  apply forallb_true_Forall. apply (Hh (ODict items)).
  apply list_elem_of_fmap. exists (a, ODict items). split; [done|].
  by apply elem_of_map_to_list.
Qed.

Lemma key_convert (h : heap) (k : addr) (n : nat) (seen : gset addr) :
  key_object h k = true ->
  exists ka, convert_to_serializable (S n) h k seen = (Ok (PAtom ka), seen).
Proof.
  unfold key_object. intros Hk. simpl.
  destruct (decide (k ∈ seen)) as [Hin|Hnot]; [by eexists|].
  assert (Hback : (seen ∪ {[k]}) ∖ {[k]} = seen) by set_solver.
  destruct (deref h k); try done; rewrite Hback; by eexists.
Qed.

Lemma conv_list_returns rec items seen :
  (forall x, exists v, rec x seen = (Ok v, seen)) ->
  exists l, conv_list rec items seen = (Ok l, seen).
Proof.
  intros Hrec. induction items as [|x r [l IH]]; simpl; [by eexists|].
  destruct (Hrec x) as [y ->]. rewrite IH. by eexists.
Qed.

Lemma conv_items_returns rec items seen :
  (forall x, exists v, rec x seen = (Ok v, seen)) ->
  Forall (fun kv => exists ka, rec kv.1 seen = (Ok (PAtom ka), seen)) items ->
  forall acc, exists d, conv_items rec items acc seen = (Ok d, seen).
Proof.
  intros Hrec. induction 1 as [|[k v] r [ka Hk] _ IH]; intros acc; simpl.
  - by eexists.
  - simpl in Hk. rewrite Hk. destruct (Hrec v) as [v' ->]. simpl. apply IH.
Qed.

Lemma convert_returns (h : heap) (fuel : nat) :
  hashable_keys h = true ->
  forall a seen, (size (dom h ∖ seen) < fuel)%nat ->
    exists v, convert_to_serializable fuel h a seen = (Ok v, seen).
Proof.
  intros Hh. induction fuel as [|n IH]; intros a seen Hfuel; [lia|].
  simpl. destruct (decide (a ∈ seen)) as [Hin|Hnot]; [by eexists|].
  assert (Hback : (seen ∪ {[a]}) ∖ {[a]} = seen) by set_solver.
  destruct (h !! a) as [o|] eqn:Ha.
  2: { unfold deref. rewrite Ha. simpl. rewrite Hback. by eexists. }
  assert (Hd : a ∈ dom h) by (apply elem_of_dom; eauto).
  pose proof (unseen_lt h seen a Hd Hnot) as Hlt.
  assert (Hrec : forall x, exists v,
    convert_to_serializable n h x (seen ∪ {[a]}) = (Ok v, seen ∪ {[a]})).
  { intros x. apply IH. lia. }
  unfold deref. rewrite Ha. simpl.
  destruct o as [x|items|items|items|items|c d|t r]; rewrite ?Hback;
    try by eexists.
  1-3: destruct (conv_list_returns _ items _ Hrec) as [l ->];
       rewrite Hback; by eexists.
  - pose proof (hashable_keys_lookup h a items Hh Ha) as Hkeys.
    destruct (conv_items_returns _ items _ Hrec) with (acc := @nil (atom * pyval))
      as [l ->]; [|rewrite Hback; by eexists].
    destruct n as [|n']; [lia|].
    eapply Forall_impl; [exact Hkeys|]. intros [k v] Hk. by apply key_convert.
  - destruct (Hrec d) as [st ->]. rewrite Hback. by eexists.
Qed.

(** [convert_to_serializable(obj)] returns or raises for every object of
    every heap. *)
Corollary serialize_terminates (h : heap) (a : addr) :
  serialize h a <> OutOfFuel.
Proof.
  unfold serialize, enough.
  assert (Hfuel : (size (dom h ∖ ∅) < S (size h))%nat).
  { rewrite difference_empty_L, size_dom. lia. }
  pose proof (convert_within h _ a ∅ Hfuel) as Hw.
  by destruct (convert_to_serializable _ h a ∅) as [[v| |] s].
Qed.

(** ** On an acyclic graph the walk computes [ser] *)

Lemma conv_list_ser rec seen items vs :
  Forall2 (fun x v => rec x seen = (Ok (ser v), seen)) items vs ->
  conv_list rec items seen = (Ok (ser <$> vs), seen).
Proof.
  induction 1 as [|x v r vs Hx _ IH]; simpl; [done|].
  by rewrite Hx, IH.
Qed.

Lemma conv_items_ser rec seen items (kvs acc : list (atom * pyval)) :
  Forall2 (fun (it : addr * addr) (kv : atom * pyval) =>
             rec it.1 seen = (Ok (PAtom kv.1), seen)
             /\ rec it.2 seen = (Ok (ser kv.2), seen)) items kvs ->
  keys_distinct acc.*1 kvs.*1 = true ->
  conv_items rec items acc seen
  = (Ok (acc ++ (prod_map id ser <$> kvs)), seen).
Proof.
  intros HF. revert acc.
  induction HF as [|[k v] [ka va] r kvs [Hk Hv] _ IH]; intros acc Hd; simpl.
  - by rewrite app_nil_r.
  - simpl in *. rewrite Hk, Hv. simpl.
    apply andb_prop in Hd as [Hfresh Hrest].
    rewrite (dict_set_fresh _ _ _ Hfresh).
    rewrite IH; [by rewrite <- app_assoc|].
    by rewrite fmap_app.
Qed.

Lemma convert_ser (h : heap) (budget : nat) :
  forall a seen v, reify budget h seen a = Some v -> keys_ok v = true ->
    forall fuel, (budget <= fuel)%nat ->
      convert_to_serializable fuel h a seen = (Ok (ser v), seen).
Proof.
  induction budget as [|n IH]; intros a seen v Hv Hk fuel Hfuel; [done|].
  destruct fuel as [|m]; [lia|]. assert (n <= m)%nat by lia.
  simpl in Hv |- *. destruct (decide (a ∈ seen)) as [|Hnot]; [done|].
  assert (Hback : (seen ∪ {[a]}) ∖ {[a]} = seen) by set_solver.
  destruct (deref h a) as [x|items|items|items|items|c d|t r];
    simplify_option_eq; simpl in *.
  - by rewrite Hback.
  - rewrite (conv_list_ser _ _ _ H0), Hback; [done|].
    apply mapM_Some_1 in Heqo. clear -Heqo Hk IH H.
    induction Heqo; constructor; simpl in Hk; apply andb_prop in Hk as [??];
      eauto.
  - rewrite (conv_list_ser _ _ _ H0), Hback; [done|].
    apply mapM_Some_1 in Heqo. clear -Heqo Hk IH H.
    induction Heqo; constructor; simpl in Hk; apply andb_prop in Hk as [??];
      eauto.
  - rewrite (conv_list_ser _ _ _ H0), Hback; [done|].
    apply mapM_Some_1 in Heqo. clear -Heqo Hk IH H.
    induction Heqo; constructor; simpl in Hk; apply andb_prop in Hk as [??];
      eauto.
  - apply andb_prop in Hk as [Hd Hvals].
    rewrite (conv_items_ser _ _ _ H0 []), Hback; [done| |done].
    apply mapM_Some_1 in Heqo. clear -Heqo Hvals IH H.
    induction Heqo as [|[k v] [ka va] r kvs Hkv _ IHF]; constructor;
      simpl in Hvals; apply andb_prop in Hvals as [??]; eauto.
    simpl in *. destruct (reify n h _ k) as [[]|] eqn:Hrk; simplify_option_eq.
    split; [apply (IH _ _ (PAtom ka)); auto|apply IH; auto].
  - match goal with
    | Hst : reify n h _ d = Some ?st |- _ => destruct st; simplify_eq
    end.
    erewrite IH; eauto. by rewrite Hback.
  - by rewrite Hback.
Qed.

Lemma serialize_ser (h : heap) (a : addr) (v : pyval) :
  value_of h a = Some v -> keys_ok v = true -> serialize h a = Ok (ser v).
Proof.
  intros Hv Hk. unfold serialize.
  by rewrite (convert_ser h (enough h) a ∅ v Hv Hk (enough h)).
Qed.

(** ** [rehydrate] undoes [ser] on durable values *)

Section rehydrate.

Context `{Classes}.

(** The function as the source reads: the tag test of lines 150-162,
    then the comprehension of line 165. *)
Lemma rehydrate_dict (d : list (atom * pyval)) :
  rehydrate (PDict d) =
    let state := default (PDict []) (dict_get key_eqb d (AStr "state")) in
    let plain :=
      PDict <$> omapM (fun kv => v ← rehydrate kv.2; Ok (kv.1, v)) d in
    match dict_get key_eqb d (AStr "__custom_type__") with
    | Some typ =>
        if is_str typ "Table" then construct TableClass (rehydrate state)
        else if is_str typ "Index" then construct IndexClass (rehydrate state)
        else plain
    | None => plain
    end.
Proof.
  simpl. rewrite dict_get_fmap, omapM_fmap.
  by destruct (dict_get key_eqb d (AStr "state")).
Qed.

Lemma rehydrate_list (l : list pyval) :
  rehydrate (PList l) = PList <$> omapM rehydrate l.
Proof. done. Qed.

(** On a mapping that the serializer tagged. *)
Lemma rehydrate_tagged (tag : string) (state : pyval) :
  rehydrate (tagged tag state) =
    if bool_decide (tag = "Table") then construct TableClass (rehydrate state)
    else if bool_decide (tag = "Index")
         then construct IndexClass (rehydrate state)
         else st ← rehydrate state; Ok (tagged tag st).
Proof.
  unfold tagged. rewrite rehydrate_dict. cbv zeta.
  simpl (dict_get _ _ _). simpl (default _ _). cbv beta iota.
  unfold is_str, PStr.
  destruct (bool_decide (tag = "Table")); [done|].
  destruct (bool_decide (tag = "Index")); [done|].
  simpl. by destruct (rehydrate state).
Qed.

Lemma is_str_eq (v : pyval) (s : string) : is_str v s = true -> v = PStr s.
Proof.
  destruct v as [[| | | |t]| | | | | |]; simpl; try done.
  by intros ->%bool_decide_eq_true_1.
Qed.

Lemma construct_inst (c : pyclass) (state : outcome pyval) (r : pyval) :
  construct c state = Ok r -> exists kvs, r = PInst c kvs.
Proof.
  unfold construct. destruct (class_default (ckind c)); simpl; try done.
  destruct state as [st| |]; simpl; try done.
  destruct (update_pairs st); simpl; try done.
  intros [= <-]. by eexists.
Qed.

Lemma fmap_PDict_Ok (m : outcome (list (atom * pyval))) (r : pyval) :
  PDict <$> m = Ok r -> exists d, r = PDict d.
Proof. destruct m; simpl; try done. intros [= <-]. by eexists. Qed.

Lemma fst_ser (d : list (atom * pyval)) : (prod_map id ser <$> d).*1 = d.*1.
Proof. induction d as [|[k v] d IH]; csimpl; [done|]. by rewrite IH. Qed.

Lemma dict_get_tag_None {V} (d : list (atom * V)) :
  forallb str_key d.*1 = true ->
  dict_get key_eqb d (AStr "__custom_type__") = None.
Proof.
  induction d as [|[k v] d IH]; csimpl; [done|].
  intros [Hk Hd]%andb_prop. destruct k as [| | | |s]; try done. simpl in *.
  apply negb_true_iff in Hk. rewrite Hk. auto.
Qed.

Lemma dict_set_hit {V} (done r : list (atom * V)) (s : string) (w v : V) :
  forallb (fun k' => negb (key_eqb k' (AStr s))) done.*1 = true ->
  dict_set key_eqb (done ++ (AStr s, w) :: r) (AStr s) v
  = done ++ (AStr s, v) :: r.
Proof.
  induction done as [|[k' v'] done IH]; csimpl.
  - intros _. by rewrite bool_decide_eq_true_2.
  - intros [Hk Hr]%andb_prop. apply negb_true_iff in Hk. rewrite Hk.
    by rewrite IH.
Qed.

(** Updating the fresh instance's [__dict__] with a state that starts
    with the same attributes yields that state. *)
Lemma dict_update_prefix {V} (d done init : list (atom * V)) :
  init.*1 `prefix_of` d.*1 ->
  forallb str_key d.*1 = true ->
  keys_distinct done.*1 d.*1 = true ->
  dict_update key_eqb (done ++ init) d = done ++ d.
Proof.
  unfold dict_update. revert done init.
  induction d as [|[k v] d IH]; intros done init Hpre Hstr Hdist; csimpl.
  - apply prefix_nil_inv in Hpre. apply fmap_nil_inv in Hpre. by subst.
  - simpl in Hstr, Hdist. apply andb_prop in Hstr as [Hk Hstr].
    apply andb_prop in Hdist as [Hfresh Hdist].
    destruct k as [| | | |s]; try done.
    replace (done ++ (AStr s, v) :: d) with ((done ++ [(AStr s, v)]) ++ d)
      by by rewrite <- app_assoc.
    destruct init as [|[k0 w] init]; csimpl in *.
    + rewrite app_nil_r, (dict_set_fresh _ _ _ Hfresh).
      rewrite <- (app_nil_r (done ++ [(AStr s, v)])) at 1.
      apply IH; [apply prefix_nil|done|by rewrite fmap_app].
    + apply prefix_cons_inv_1 in Hpre as Hk0.
      apply prefix_cons_inv_2 in Hpre. subst k0.
      rewrite (dict_set_hit _ _ _ _ _ Hfresh).
      replace (done ++ (AStr s, v) :: init)
        with ((done ++ [(AStr s, v)]) ++ init) by by rewrite <- app_assoc.
      apply IH; [done|done|by rewrite fmap_app].
Qed.

Lemma durable_keys_ok (v : pyval) : durable v = true -> keys_ok v = true.
Proof.
  induction v as [a|l IH|l IH|l IH|d IH|c d IH|t r] using pyval_ind';
    simpl; try done.
  - induction IH as [|x l Hx _ IHl]; simpl; [done|].
    intros [??]%andb_prop. apply andb_true_intro; auto.
  - intros [[_ Hk]%andb_prop Hv]%andb_prop. apply andb_true_intro.
    split; [done|]. clear Hk.
    induction IH as [|x l Hx _ IHl]; simpl in *; [done|].
    apply andb_prop in Hv as [??]. apply andb_true_intro; auto.
  - intros [[_ [_ Hk]%andb_prop]%andb_prop Hv]%andb_prop.
    apply andb_true_intro. split; [done|]. clear Hk.
    induction IH as [|x l Hx _ IHl]; simpl in *; [done|].
    apply andb_prop in Hv as [??]. apply andb_true_intro; auto.
Qed.

Lemma wire_ser_items (d : list (atom * pyval)) :
  Forall (fun kv => durable kv.2 = true -> wire (ser kv.2) = true) d ->
  forallb str_key d.*1 = true ->
  forallb (fun kv => durable kv.2) d = true ->
  wire (PDict (prod_map id ser <$> d)) = true.
Proof.
  induction 1 as [|[k v] d Hx _ IHd]; csimpl; [done|].
  intros [Hk Hs]%andb_prop [Hv Hd]%andb_prop.
  destruct k; try done. simpl in *. rewrite Hx by done. simpl. auto.
Qed.

Lemma durable_wire (v : pyval) : durable v = true -> wire (ser v) = true.
Proof.
  induction v as [a|l IH|l IH|l IH|d IH|c d IH|t r] using pyval_ind';
    simpl; try done.
  - induction IH as [|x l Hx _ IHl]; csimpl; [done|].
    intros [??]%andb_prop. apply andb_true_intro; auto.
  - intros [[Hs _]%andb_prop Hv]%andb_prop.
    by apply (wire_ser_items d).
  - intros [[_ [Hs _]%andb_prop]%andb_prop Hv]%andb_prop.
    pose proof (wire_ser_items d IH Hs Hv) as Hw. simpl in Hw.
    by rewrite Hw.
Qed.

Lemma rehydrate_items (d : list (atom * pyval)) :
  Forall (fun kv => durable kv.2 = true -> rehydrate (ser kv.2) = Ok kv.2) d ->
  forallb (fun kv => durable kv.2) d = true ->
  omapM (fun kv => v ← rehydrate kv.2; Ok (kv.1, v)) (prod_map id ser <$> d)
  = Ok d.
Proof.
  induction 1 as [|[k v] d Hx _ IHd]; csimpl; [done|].
  intros [Hv Hd]%andb_prop. simpl in *. rewrite Hx by done. simpl.
  by rewrite IHd.
Qed.

Lemma rehydrate_ser_dict (d : list (atom * pyval)) :
  Forall (fun kv => durable kv.2 = true -> rehydrate (ser kv.2) = Ok kv.2) d ->
  forallb str_key d.*1 = true ->
  forallb (fun kv => durable kv.2) d = true ->
  rehydrate (PDict (prod_map id ser <$> d)) = Ok (PDict d).
Proof.
  intros IH Hs Hv. rewrite rehydrate_dict. cbv zeta.
  rewrite dict_get_tag_None by by rewrite fst_ser.
  by rewrite rehydrate_items.
Qed.

Lemma rehydrate_ser (v : pyval) :
  durable v = true -> rehydrate (ser v) = Ok v.
Proof.
  induction v as [a|l IH|l IH|l IH|d IH|c d IH|t r] using pyval_ind';
    try done.
  - intros Hl. simpl in Hl. change (ser (PList l)) with (PList (ser <$> l)).
    rewrite rehydrate_list, omapM_fmap, (omapM_Ok _ l l); [done|].
    induction IH as [|x l Hx _ IHl]; simpl in *; [done|].
    apply andb_prop in Hl as [??]. constructor; auto.
  - intros [[Hs _]%andb_prop Hv]%andb_prop. by apply rehydrate_ser_dict.
  - intros [[[Hc Hpre]%andb_prop [Hs Hdist]%andb_prop]%andb_prop Hv]%andb_prop.
    pose proof (rehydrate_ser_dict d IH Hs Hv) as Hstate.
    change (ser (PInst c d))
      with (tagged (tag_of c) (PDict (prod_map id ser <$> d))).
    destruct (class_default (ckind c)) as [init| |] eqn:Hinit; try done.
    apply bool_decide_eq_true_1 in Hpre.
    assert (Hupd : dict_update key_eqb init d = d)
      by (apply (dict_update_prefix d [] init); done).
    apply orb_prop in Hc as [Hc|Hc]; apply bool_decide_eq_true_1 in Hc;
      subst c; unfold tag_of; simpl (match _ with KTable => _ | _ => _ end);
      rewrite rehydrate_tagged; simpl (bool_decide _);
      unfold construct; simpl (class_default _) in Hinit |- *;
      rewrite Hinit, Hstate; simpl; by rewrite Hupd.
Qed.

End rehydrate.

(** ** Unpacking undoes packing *)

Module WireFacts.

Import Wire.

Lemma Z_of_byte_of_Z (z : Z) : Z_of_byte (byte_of_Z z) = z mod 256.
Proof.
  unfold Z_of_byte, byte_of_Z.
  assert (0 <= z mod 256 < 256) by (apply Z.mod_pos_bound; lia).
  destruct (Byte.of_N (Z.to_N (z mod 256))) as [y|] eqn:E; simpl.
  - apply Byte.to_of_N in E. rewrite E. lia.
  - apply Byte.of_N_None_iff in E. lia.
Qed.

Lemma Z_of_byte_range (b : byte) : 0 <= Z_of_byte b < 256.
Proof.
  unfold Z_of_byte. pose proof (Byte.to_N_bounded b). lia.
Qed.

Lemma byte_of_Z_of_byte (b : byte) : byte_of_Z (Z_of_byte b) = b.
Proof.
  unfold Z_of_byte, byte_of_Z. pose proof (Byte.to_N_bounded b).
  rewrite Z.mod_small by lia. rewrite N2Z.id, Byte.of_to_N. done.
Qed.

Lemma length_be (n : nat) (z : Z) : length (be n z) = n.
Proof.
  revert z. induction n as [|n IH]; intros z; simpl; [done|].
  rewrite length_app, IH. simpl. lia.
Qed.

Lemma unbe_snoc (bs : bytes) (b : byte) :
  unbe (bs ++ [b]) = unbe bs * 256 + Z_of_byte b.
Proof. unfold unbe. by rewrite foldl_app. Qed.

Lemma unbe_be (n : nat) (z : Z) : unbe (be n z) = z mod 256 ^ Z.of_nat n.
Proof.
  revert z. induction n as [|n IH]; intros z.
  - simpl. by rewrite Z.mod_1_r.
  - cbn [be]. rewrite unbe_snoc, IH, Z_of_byte_of_Z.
    rewrite Nat2Z.inj_succ, Z.pow_succ_r by lia.
    rewrite (Z.rem_mul_r z 256) by lia. lia.
Qed.

Lemma read_be_be (n : nat) (z : Z) (rest : bytes) :
  0 <= z < 256 ^ Z.of_nat n ->
  read_be n (be n z ++ rest) = Ok (z, rest).
Proof.
  intros Hz. unfold read_be. rewrite length_app, length_be.
  case_decide; [lia|].
  rewrite take_app_length', drop_app_length' by (by rewrite length_be).
  by rewrite unbe_be, Z.mod_small.
Qed.

Lemma read_token_cons (c : Z) (payload rest : bytes) :
  read_token ((byte_of_Z c :: payload) ++ rest)
  = read_token (byte_of_Z c :: (payload ++ rest)).
Proof. done. Qed.

#[local] Arguments be : simpl never.

Lemma read_emit (t : token) (b rest : bytes) :
  tok_ok t -> emit t = Ok b -> read_token (b ++ rest) = Ok (t, rest).
Proof.
  intros Hok He.
  destruct t as [|[]|z|bits|n|n|n]; cbn [emit tok_ok] in He, Hok;
    repeat case_decide; try discriminate; injection He as <-;
    rewrite read_token_cons;
    cbn [read_token]; rewrite Z_of_byte_of_Z; cbv zeta;
    rewrite (Z.mod_small _ 256) by lia;
    repeat (case_decide; try lia);
    try done.
  all: try rewrite read_be_be by
    (match goal with
     | |- context [256 ^ Z.of_nat ?k] =>
         let v := eval vm_compute in (256 ^ Z.of_nat k) in
         change (256 ^ Z.of_nat k) with v
     end; lia).
  all: cbn [mbind outcome_bind app]; repeat f_equal; lia.
Qed.

Lemma emit_nonempty (t : token) (b : bytes) : emit t = Ok b -> b <> [].
Proof.
  destruct t as [|[]|z|bits|n|n|n]; cbn [emit]; repeat case_decide;
    intros; simplify_eq; done.
Qed.

Lemma length_list_byte_of_string (s : string) :
  length (String.list_byte_of_string s) = String.length s.
Proof.
  unfold String.list_byte_of_string.
  induction s as [|c s IH]; simpl; [done|]. by rewrite IH.
Qed.

Lemma take_bytes_app (body rest : bytes) :
  take_bytes (length body) (body ++ rest) = Ok (body, rest).
Proof.
  unfold take_bytes. rewrite length_app. case_decide; [lia|].
  by rewrite take_app_length, drop_app_length.
Qed.

Lemma emit_app (t : token) (head tail rest : bytes) (f : nat) :
  tok_ok t -> emit t = Ok head ->
  read_token ((head ++ tail) ++ rest) = Ok (t, tail ++ rest).
Proof. intros. rewrite <- app_assoc. by apply read_emit. Qed.

Lemma parse_atom (a : atom) (b rest : bytes) (f : nat) :
  pack_atom a = Ok b -> parse (S f) (b ++ rest) = Ok (PAtom a, rest).
Proof.
  destruct a as [|x|z|bits|s]; cbn [pack_atom parse]; intros Hb.
  - by rewrite (read_emit TNil _ _ I Hb).
  - by rewrite (read_emit (TBool x) _ _ I Hb).
  - by rewrite (read_emit (TInt z) _ _ I Hb).
  - by rewrite (read_emit (TFloat bits) _ _ I Hb).
  - 
destruct (emit _) as [head| |] eqn:Hh; cbn in Hb; simplify_eq.
    rewrite <- app_assoc, (read_emit (TStr _) _ _ (Nat2Z.is_nonneg _) Hh).
    cbn [mbind outcome_bind]. rewrite Nat2Z.id, <- length_list_byte_of_string.
    rewrite take_bytes_app. cbn [mbind outcome_bind].
    by rewrite String.string_of_list_byte_of_string.
Qed.

Lemma parse_seq_concat {A} (p : bytes -> outcome (A * bytes))
    (xs : list A) (bodies : list bytes) (rest : bytes) :
  Forall2 (fun x bx => forall rest, p (bx ++ rest) = Ok (x, rest)) xs bodies ->
  parse_seq p (length xs) (concat bodies ++ rest) = Ok (xs, rest).
Proof.
  induction 1 as [|x bx xs bodies Hx _ IH]; simpl; [done|].
  rewrite <- app_assoc, Hx. cbn [mbind outcome_bind]. rewrite IH. done.
Qed.

Lemma depth_list_lt (l : list pyval) (f : nat) :
  (foldr (fun x m => depth x `max` m) 0 l < f)%nat ->
  Forall (fun x => depth x < f)%nat l.
Proof.
  induction l as [|x l IH]; simpl; intros Hf; constructor; [lia|].
  apply IH. lia.
Qed.

Lemma depth_dict_lt (d : list (atom * pyval)) (f : nat) :
  (foldr (fun kv m => depth kv.2 `max` m) 0 d < f)%nat ->
  Forall (fun kv => depth kv.2 < f)%nat d.
Proof.
  induction d as [|x l IH]; simpl; intros Hf; constructor; [lia|].
  apply IH. lia.
Qed.

Lemma parse_pack (v : pyval) :
  wire v = true -> forall b, pack v = Ok b ->
  forall f rest, (depth v < f)%nat -> parse f (b ++ rest) = Ok (v, rest).
Proof.
  induction v as [a|l IH|l IH|l IH|d IH|c d IH|t r] using pyval_ind';
    try done; intros Hw b Hb f rest Hf; (destruct f as [|f]; [lia|]).
  - by apply parse_atom.
  - cbn [pack] in Hb.
    destruct (emit _) as [head| |] eqn:Hh; cbn in Hb; try done.
    destruct (omapM pack l) as [body| |] eqn:Hbody; cbn in Hb; simplify_eq.
    cbn [parse]. rewrite <- app_assoc, (read_emit (TArr _) _ _ (Nat2Z.is_nonneg _) Hh).
    cbn [mbind outcome_bind]. rewrite Nat2Z.id.
    rewrite (parse_seq_concat _ l body); [done|].
    apply omapM_Ok_inv in Hbody. cbn [depth] in Hf.
    apply Nat.succ_lt_mono in Hf. apply depth_list_lt in Hf.
    cbn [wire] in Hw. apply forallb_true_Forall in Hw.
    clear Hh. induction Hbody as [|x bx l body Hx _ IHl]; constructor.
    + intros rest'. inversion IH; inversion Hw; inversion Hf; subst. eauto.
    + inversion IH; inversion Hw; inversion Hf; subst. eauto.
  - cbn [pack] in Hb.
    destruct (emit _) as [head| |] eqn:Hh; cbn in Hb; try done.
    destruct (omapM _ d) as [body| |] eqn:Hbody; cbn in Hb; simplify_eq.
    cbn [parse]. rewrite <- app_assoc, (read_emit (TMap _) _ _ (Nat2Z.is_nonneg _) Hh).
    cbn [mbind outcome_bind]. rewrite Nat2Z.id.
    rewrite (parse_seq_concat _ d body); [done|].
    apply omapM_Ok_inv in Hbody. cbn [depth] in Hf.
    apply Nat.succ_lt_mono in Hf. apply depth_dict_lt in Hf.
    cbn [wire] in Hw. apply forallb_true_Forall in Hw.
    clear Hh. induction Hbody as [|[k x] bx d body Hx _ IHd]; constructor.
    + intros rest'. inversion IH; inversion Hw; inversion Hf; subst.
      simpl in *. destruct k as [| | | |s]; try done.
      destruct (pack_atom (AStr s)) as [bk| |] eqn:Hk; cbn in Hx; try done.
      destruct (pack x) as [bv| |] eqn:Hv; cbn in Hx; simplify_eq.
      destruct f as [|f]; [lia|].
      rewrite <- app_assoc, (parse_atom _ _ _ _ Hk). cbn [mbind outcome_bind].
      erewrite H1; eauto.
    + inversion IH; inversion Hw; inversion Hf; subst. eauto.
Qed.

Lemma pack_atom_nonempty (a : atom) (b : bytes) : pack_atom a = Ok b -> b <> [].
Proof.
  destruct a as [|x|z|bits|s]; cbn [pack_atom]; try apply emit_nonempty.
  destruct (emit _) as [head| |] eqn:Hh; cbn; intros; simplify_eq.
  apply emit_nonempty in Hh. by destruct head.
Qed.

Lemma length_pos (b : bytes) : b <> [] -> (0 < length b)%nat.
Proof. destruct b; simpl; [done|lia]. Qed.

Lemma pack_depth (v : pyval) (b : bytes) :
  pack v = Ok b -> (depth v <= length b)%nat /\ b <> [].
Proof.
  revert b.
  induction v as [a|l IH|l IH|l IH|d IH|c d IH|t r] using pyval_ind';
    intros b Hb; try done.
  - split; [simpl; lia|by eapply pack_atom_nonempty].
  - cbn [pack] in Hb.
    destruct (emit _) as [head| |] eqn:Hh; cbn in Hb; try done.
    destruct (omapM pack l) as [body| |] eqn:Hbody; cbn in Hb; simplify_eq.
    apply emit_nonempty in Hh. split; [|by destruct head].
    apply length_pos in Hh. rewrite length_app. cbn [depth].
    apply omapM_Ok_inv in Hbody.
    enough (foldr (fun x m => depth x `max` m) 0 l <= length (concat body))%nat
      by lia.
    clear Hh. induction Hbody as [|x bx l body Hx _ IHl]; simpl; [lia|].
    inversion IH; subst. rewrite length_app.
    specialize (IHl H2). apply H1 in Hx as [??]. lia.
  - cbn [pack] in Hb.
    destruct (emit _) as [head| |] eqn:Hh; cbn in Hb; try done.
    destruct (omapM pack l) as [body| |] eqn:Hbody; cbn in Hb; simplify_eq.
    apply emit_nonempty in Hh. split; [|by destruct head].
    apply length_pos in Hh. rewrite length_app. cbn [depth].
    apply omapM_Ok_inv in Hbody.
    enough (foldr (fun x m => depth x `max` m) 0 l <= length (concat body))%nat
      by lia.
    clear Hh. induction Hbody as [|x bx l body Hx _ IHl]; simpl; [lia|].
    inversion IH; subst. rewrite length_app.
    specialize (IHl H2). apply H1 in Hx as [??]. lia.
  - cbn [pack] in Hb.
    destruct (emit _) as [head| |] eqn:Hh; cbn in Hb; try done.
    destruct (omapM _ d) as [body| |] eqn:Hbody; cbn in Hb; simplify_eq.
    apply emit_nonempty in Hh. split; [|by destruct head].
    apply length_pos in Hh. rewrite length_app. cbn [depth].
    apply omapM_Ok_inv in Hbody.
    enough (foldr (fun kv m => depth kv.2 `max` m) 0 d <= length (concat body))%nat
      by lia.
    clear Hh. induction Hbody as [|[k x] bx d body Hx _ IHd]; simpl; [lia|].
    inversion IH; subst. rewrite length_app. specialize (IHd H2).
    simpl in *. destruct (pack_atom k) as [bk| |]; cbn in Hx; try done.
    destruct (pack x) as [bv| |] eqn:Hv; cbn in Hx; simplify_eq.
    destruct (H1 _ eq_refl) as [??]. rewrite length_app. lia.
Qed.

Lemma unpack_pack (v : pyval) (b : bytes) :
  wire v = true -> pack v = Ok b -> unpack b = Ok v.
Proof.
  intros Hw Hb. unfold unpack.
  pose proof (pack_depth v b Hb) as [Hd _].
  pose proof (parse_pack v Hw b Hb (S (length b)) []) as Hp.
  rewrite app_nil_r in Hp. rewrite Hp; [done|lia].
Qed.

End WireFacts.

(** The format as the msgpack collaborator. *)
#[global] Instance msgpack : Msgpack := {|
  packb := Wire.pack;
  unpackb := Wire.unpack;
  packb_nonempty v b Hb := proj2 (WireFacts.pack_depth v b Hb);
  unpackb_packb := WireFacts.unpack_pack
|}.

(** ** Files *)

(** Reading after [open(..., "wb")] and after [write]. *)
Lemma read_open_wb (fs fs' : fsys) (path name : string) :
  open_wb fs path name = Ok fs' ->
  read_file fs' path name = Ok []
  /\ is_Some (dict_get str_eqb fs' path)
  /\ forall p n, (p <> path \/ n <> name) -> read_file fs' p n = read_file fs p n.
Proof.
  unfold open_wb, read_file.
  destruct (dict_get str_eqb fs path) as [files|] eqn:Hp; [|done].
  intros [= <-]. rewrite !dict_get_set_eq. split; [done|]. split; [by eexists|].
  intros p n Hne. destruct (decide (p = path)) as [->|Hp'].
  - destruct Hne as [|Hn]; [done|].
    by rewrite dict_get_set_eq, Hp, dict_get_set_ne.
  - by rewrite dict_get_set_ne.
Qed.

Lemma read_write_file (fs : fsys) (path name : string) (data : bytes) :
  is_Some (dict_get str_eqb fs path) ->
  read_file (write_file fs path name data) path name
  = Ok (default [] (match read_file fs path name with Ok old => Some old | _ => None end) ++ data)
  /\ is_Some (dict_get str_eqb (write_file fs path name data) path)
  /\ forall p n, (p <> path \/ n <> name) ->
       read_file (write_file fs path name data) p n = read_file fs p n.
Proof.
  unfold write_file, read_file. intros [files Hp]. rewrite Hp.
  rewrite !dict_get_set_eq. split; [|split; [by eexists|]].
  - by destruct (dict_get str_eqb files name).
  - intros p n Hne. destruct (decide (p = path)) as [->|Hp'].
    + destruct Hne as [|Hn]; [done|].
      by rewrite dict_get_set_eq, Hp, dict_get_set_ne.
    + by rewrite dict_get_set_ne.
Qed.

Lemma read_remove (fs fs' : fsys) (path name : string) (files : directory) :
  dict_get str_eqb fs path = Some files -> NoDup files.*1 ->
  remove fs path name = Ok fs' ->
  read_file fs' path name = Raise (FileNotFoundError name)
  /\ forall p n, (p <> path \/ n <> name) -> read_file fs' p n = read_file fs p n.
Proof.
  unfold remove, read_file. intros Hp Hnd. rewrite Hp.
  destruct (dict_get str_eqb files name); [|done].
  intros [= <-]. rewrite !dict_get_set_eq, dict_get_del_eq by done.
  split; [done|]. intros p n Hne. destruct (decide (p = path)) as [->|Hp'].
  - destruct Hne as [|Hn]; [done|].
    by rewrite dict_get_set_eq, Hp, dict_get_del_ne.
  - by rewrite dict_get_set_ne.
Qed.

Lemma listdir_set (fs : fsys) (path : string) (files : directory) :
  listdir (dict_set str_eqb fs path files) path = files.*1.
Proof. unfold listdir. by rewrite dict_get_set_eq. Qed.

(** ** Allocation *)

Lemma new_object_fresh (o : obj) (h : heap) :
  ((new_object o h).1 ∉ dom h)
  /\ ((new_object o h).2 !! (new_object o h).1) = Some o
  /\ dom h ⊆ dom (new_object o h).2.
Proof.
  unfold new_object. simpl. split; [apply is_fresh|].
  split; [by rewrite lookup_insert_eq|]. rewrite dom_insert. set_solver.
Qed.

Lemma new_object_subseteq (o : obj) (h : heap) : h ⊆ (new_object o h).2.
Proof.
  unfold new_object. simpl. apply insert_subseteq.
  apply not_elem_of_dom, is_fresh.
Qed.

Lemma thread_subseteq {A B} (f : A -> heap -> B * heap) (l : list A) (h : heap) :
  Forall (fun x => forall h, h ⊆ (f x h).2) l -> h ⊆ (thread f l h).2.
Proof.
  intros Hf. revert h. induction Hf as [|x l Hx _ IH]; intros h; simpl; [done|].
  specialize (Hx h). destruct (f x h) as [y h1]. specialize (IH h1).
  destruct (thread f l h1) as [ys h2]. simpl in *. by etrans.
Qed.

Lemma alloc_dict_eq (d : list (atom * pyval)) (h : heap) :
  alloc (PDict d) h
  = let '(kvs, h) := thread alloc_item d h in new_object (ODict kvs) h.
Proof. done. Qed.

Lemma alloc_inst_eq (c : pyclass) (d : list (atom * pyval)) (h : heap) :
  alloc (PInst c d) h
  = let '(kvs, h) := thread alloc_item d h in
    let '(dict, h) := new_object (ODict kvs) h in
    new_object (OInst c dict) h.
Proof. done. Qed.

Lemma alloc_item_subseteq (kv : atom * pyval) :
  (forall h, h ⊆ (alloc kv.2 h).2) -> forall h, h ⊆ (alloc_item kv h).2.
Proof.
  intros Hx h. unfold alloc_item.
  pose proof (new_object_subseteq (OAtom kv.1) h) as Hk.
  destruct (new_object (OAtom kv.1) h) as [ka h1]. specialize (Hx h1).
  destruct (alloc kv.2 h1) as [xa h2]. simpl in *. by etrans.
Qed.

Lemma alloc_subseteq (v : pyval) : forall h, h ⊆ (alloc v h).2.
Proof.
  induction v as [a|l IH|l IH|l IH|d IH|c d IH|t r] using pyval_ind';
    intros h.
  - apply new_object_subseteq.
  - cbn [alloc]. pose proof (thread_subseteq alloc l h IH) as Hl.
    destruct (thread alloc l h) as [xs h1].
    pose proof (new_object_subseteq (OList xs) h1). by etrans.
  - cbn [alloc]. pose proof (thread_subseteq alloc l h IH) as Hl.
    destruct (thread alloc l h) as [xs h1].
    pose proof (new_object_subseteq (OTuple xs) h1). by etrans.
  - cbn [alloc]. pose proof (thread_subseteq alloc l h IH) as Hl.
    destruct (thread alloc l h) as [xs h1].
    pose proof (new_object_subseteq (OSet xs) h1). by etrans.
  - rewrite alloc_dict_eq.
    assert (Hl : h ⊆ (thread alloc_item d h).2).
    { apply thread_subseteq. eapply Forall_impl; [exact IH|].
      intros kv. apply alloc_item_subseteq. }
    destruct (thread alloc_item d h) as [kvs h1].
    pose proof (new_object_subseteq (ODict kvs) h1). by etrans.
  - rewrite alloc_inst_eq.
    assert (Hl : h ⊆ (thread alloc_item d h).2).
    { apply thread_subseteq. eapply Forall_impl; [exact IH|].
      intros kv. apply alloc_item_subseteq. }
    destruct (thread alloc_item d h) as [kvs h1].
    pose proof (new_object_subseteq (ODict kvs) h1) as H1.
    destruct (new_object (ODict kvs) h1) as [da h2].
    pose proof (new_object_subseteq (OInst c da) h2). simpl in *.
    etrans; [exact Hl|]. by etrans.
  - apply new_object_subseteq.
Qed.

Lemma alloc_dom (v : pyval) (h : heap) : dom h ⊆ dom (alloc v h).2.
Proof. apply subseteq_dom, alloc_subseteq. Qed.

(** A new instance has an identity no object had before. *)
Lemma alloc_inst_fresh (c : pyclass) (d : list (atom * pyval)) (h : heap) :
  ((alloc (PInst c d) h).1 ∉ dom h)
  /\ exists dict, deref (alloc (PInst c d) h).2 (alloc (PInst c d) h).1
                  = OInst c dict.
Proof.
  pose proof (alloc_dom (PDict d) h) as Hd. cbn [alloc] in *.
  destruct (thread _ d h) as [kvs h1].
  pose proof (new_object_fresh (ODict kvs) h1) as (_ & _ & Hn).
  destruct (new_object (ODict kvs) h1) as [da h2].
  pose proof (new_object_fresh (OInst c da) h2) as (Hnew & Hget & _).
  simpl in *. split; [|exists da; unfold deref; by rewrite Hget].
  intros Hin. apply Hnew, Hd, Hin.
Qed.

(** ** What [alloc] stores reads back *)

Lemma thread_steps {A B} (f : A -> heap -> B * heap) (l : list A) :
  (forall x h, h ⊆ (f x h).2) ->
  forall h ys h', thread f l h = (ys, h') ->
  h ⊆ h' /\
  Forall2 (fun x y => exists hi hi', f x hi = (y, hi') /\ h ⊆ hi /\ hi' ⊆ h') l ys.
Proof.
  intros Hf. induction l as [|x l IH]; intros h ys h'; simpl.
  - intros [= <- <-]. split; [done|constructor].
  - pose proof (Hf x h) as Hx. destruct (f x h) as [y h1] eqn:Hy.
    destruct (thread f l h1) as [ys' h2] eqn:Hth. intros [= <- <-].
    destruct (IH _ _ _ Hth) as [Hsub Hall]. simpl in Hx.
    split; [by etrans|]. constructor.
    + exists h, h1. by repeat split.
    + eapply Forall2_impl; [exact Hall|].
      intros x' y' (hi & hi' & ? & ? & ?). exists hi, hi'.
      split; [done|]. split; [by etrans|done].
Qed.

Lemma new_object_inv (o : obj) (h : heap) (a : addr) (h1 : heap) :
  new_object o h = (a, h1) ->
  (a ∉ dom h) /\ (h1 !! a) = Some o /\ h ⊆ h1.
Proof.
  intros Heq. pose proof (new_object_fresh o h) as (Hf & Hl & _).
  pose proof (new_object_subseteq o h) as Hs. rewrite Heq in *. done.
Qed.

Lemma deref_weaken (h h2 : heap) (a : addr) (o : obj) :
  h !! a = Some o -> h ⊆ h2 -> deref h2 a = o.
Proof.
  intros Hl Hs. unfold deref. by rewrite (lookup_weaken _ _ _ _ Hl Hs).
Qed.

Lemma subseteq_dom_elem (h h' : heap) (p : addr) :
  h ⊆ h' -> p ∈ dom h -> p ∈ dom h'.
Proof. intros Hs. by apply subseteq_dom. Qed.

Lemma reify_items_list (l : list pyval) (h hk h2 : heap) (ys : list addr)
    (seen : gset addr) (n : nat) :
  Forall reads_back l ->
  thread alloc l h = (ys, hk) ->
  hk ⊆ h2 ->
  (forall p, p ∈ seen -> p ∈ dom hk -> p ∈ dom h) ->
  (size (dom h2 ∖ seen) < n)%nat ->
  mapM (reify n h2 seen) ys = Some l.
Proof.
  intros IH Hth Hsub Hseen Hfuel.
  destruct (thread_steps alloc l alloc_subseteq _ _ _ Hth) as [Hhk Hall].
  apply mapM_Some, Forall2_flip.
  eapply Forall_Forall2_combine; [exact IH|exact Hall|].
  intros x y Hx (hi & hi' & Hal & Hi & Hi'). simpl.
  apply (Hx _ _ _ Hal); [by etrans| |done].
  intros p Hp Hd. eapply subseteq_dom_elem; [exact Hi|].
  apply Hseen; [done|]. by eapply subseteq_dom_elem.
Qed.

Lemma reify_items_dict (d : list (atom * pyval)) (h hk h2 : heap)
    (kvs : list (addr * addr)) (seen : gset addr) (n : nat) :
  Forall (fun kv => reads_back kv.2) d ->
  thread alloc_item d h = (kvs, hk) ->
  hk ⊆ h2 ->
  (forall p, p ∈ seen -> p ∈ dom hk -> p ∈ dom h) ->
  (size (dom h2 ∖ seen) < n)%nat ->
  mapM (fun kv => k ← reify n h2 seen kv.1;
                  match k with
                  | PAtom ka => v ← reify n h2 seen kv.2; Some (ka, v)
                  | _ => None
                  end) kvs = Some d.
Proof.
  intros IH Hth Hsub Hseen Hfuel.
  assert (Hmono : forall kv h, h ⊆ (alloc_item kv h).2).
  { intros kv. apply alloc_item_subseteq, alloc_subseteq. }
  destruct (thread_steps alloc_item d Hmono _ _ _ Hth) as [Hhk Hall].
  apply mapM_Some, Forall2_flip.
  eapply Forall_Forall2_combine; [exact IH|exact Hall|].
  intros [k x] [ka xa] Hx (hi & hi' & Hal & Hi & Hi'). cbn [fst snd] in *.
  unfold alloc_item in Hal. cbn [fst snd] in Hal.
  destruct (new_object (OAtom k) hi) as [ka' h1] eqn:Hk.
  destruct (alloc x h1) as [xa' h1'] eqn:Hxa. injection Hal as -> -> ->.
  apply new_object_inv in Hk as (Hfresh & Hlook & Hs1).
  pose proof (alloc_subseteq x h1) as Hs2. rewrite Hxa in Hs2. simpl in Hs2.
  assert (Hka : ka ∉ seen).
  { intros Hin. apply Hfresh. eapply subseteq_dom_elem; [exact Hi|].
    apply Hseen; [done|]. eapply subseteq_dom_elem; [exact Hi'|].
    eapply subseteq_dom_elem; [exact Hs2|]. by apply elem_of_dom_2 in Hlook. }
  assert (Hder : deref h2 ka = OAtom k).
  { eapply deref_weaken; [exact Hlook|]. etrans; [exact Hs2|]. by etrans. }
  assert (Hrk : reify n h2 seen ka = Some (PAtom k)).
  { destruct n as [|n]; [lia|]. simpl. rewrite decide_False by done.
    by rewrite Hder. }
  rewrite Hrk. simpl.
  rewrite (Hx _ _ _ Hxa h2 seen n); [done|by etrans| |done].
  intros p Hp Hd. eapply subseteq_dom_elem; [etrans; [exact Hi|exact Hs1]|].
  apply Hseen; [done|]. by eapply subseteq_dom_elem.
Qed.

Lemma alloc_reads_back (v : pyval) : reads_back v.
Proof.
  induction v as [x|l IH|l IH|l IH|d IH|c d IH|t r] using pyval_ind';
    intros h a h1 Hal h2 seen fuel Hsub Hseen Hfuel.
  - cbn [alloc] in Hal. apply new_object_inv in Hal as (Hf & Hl & Hs).
    destruct fuel as [|n]; [lia|]. simpl.
    rewrite decide_False; [by rewrite (deref_weaken _ _ _ _ Hl Hsub)|].
    intros Hin. apply Hf, Hseen; [done|]. by apply elem_of_dom_2 in Hl.
  - cbn [alloc] in Hal. destruct (thread alloc l h) as [ys hk] eqn:Hth.
    apply new_object_inv in Hal as (Hf & Hl & Hs).
    destruct (thread_steps alloc l alloc_subseteq _ _ _ Hth) as [Hhk _].
    assert (Ha : a ∉ seen).
    { intros Hin. apply Hf. eapply subseteq_dom_elem; [exact Hhk|].
      apply Hseen; [done|]. by apply elem_of_dom_2 in Hl. }
    assert (Hin2 : a ∈ dom h2).
    { eapply subseteq_dom_elem; [exact Hsub|]. by apply elem_of_dom_2 in Hl. }
    destruct fuel as [|n]; [lia|]. simpl. rewrite decide_False by done.
    rewrite (deref_weaken _ _ _ _ Hl Hsub).
    rewrite (reify_items_list l h hk h2 ys (seen ∪ {[a]}) n); try done.
    + by etrans.
    + intros p [Hp| ->%elem_of_singleton]%elem_of_union Hd; [|done].
      apply Hseen; [done|]. by eapply subseteq_dom_elem.
    + pose proof (unseen_lt h2 seen a Hin2 Ha). lia.
  - cbn [alloc] in Hal. destruct (thread alloc l h) as [ys hk] eqn:Hth.
    apply new_object_inv in Hal as (Hf & Hl & Hs).
    destruct (thread_steps alloc l alloc_subseteq _ _ _ Hth) as [Hhk _].
    assert (Ha : a ∉ seen).
    { intros Hin. apply Hf. eapply subseteq_dom_elem; [exact Hhk|].
      apply Hseen; [done|]. by apply elem_of_dom_2 in Hl. }
    assert (Hin2 : a ∈ dom h2).
    { eapply subseteq_dom_elem; [exact Hsub|]. by apply elem_of_dom_2 in Hl. }
    destruct fuel as [|n]; [lia|]. simpl. rewrite decide_False by done.
    rewrite (deref_weaken _ _ _ _ Hl Hsub).
    rewrite (reify_items_list l h hk h2 ys (seen ∪ {[a]}) n); try done.
    + by etrans.
    + intros p [Hp| ->%elem_of_singleton]%elem_of_union Hd; [|done].
      apply Hseen; [done|]. by eapply subseteq_dom_elem.
    + pose proof (unseen_lt h2 seen a Hin2 Ha). lia.
  - cbn [alloc] in Hal. destruct (thread alloc l h) as [ys hk] eqn:Hth.
    apply new_object_inv in Hal as (Hf & Hl & Hs).
    destruct (thread_steps alloc l alloc_subseteq _ _ _ Hth) as [Hhk _].
    assert (Ha : a ∉ seen).
    { intros Hin. apply Hf. eapply subseteq_dom_elem; [exact Hhk|].
      apply Hseen; [done|]. by apply elem_of_dom_2 in Hl. }
    assert (Hin2 : a ∈ dom h2).
    { eapply subseteq_dom_elem; [exact Hsub|]. by apply elem_of_dom_2 in Hl. }
    destruct fuel as [|n]; [lia|]. simpl. rewrite decide_False by done.
    rewrite (deref_weaken _ _ _ _ Hl Hsub).
    rewrite (reify_items_list l h hk h2 ys (seen ∪ {[a]}) n); try done.
    + by etrans.
    + intros p [Hp| ->%elem_of_singleton]%elem_of_union Hd; [|done].
      apply Hseen; [done|]. by eapply subseteq_dom_elem.
    + pose proof (unseen_lt h2 seen a Hin2 Ha). lia.
  - rewrite alloc_dict_eq in Hal.
    destruct (thread alloc_item d h) as [kvs hk] eqn:Hth.
    apply new_object_inv in Hal as (Hf & Hl & Hs).
    assert (Hmono : forall kv h, h ⊆ (alloc_item kv h).2).
    { intros kv. apply alloc_item_subseteq, alloc_subseteq. }
    destruct (thread_steps alloc_item d Hmono _ _ _ Hth) as [Hhk _].
    assert (Ha : a ∉ seen).
    { intros Hin. apply Hf. eapply subseteq_dom_elem; [exact Hhk|].
      apply Hseen; [done|]. by apply elem_of_dom_2 in Hl. }
    assert (Hin2 : a ∈ dom h2).
    { eapply subseteq_dom_elem; [exact Hsub|]. by apply elem_of_dom_2 in Hl. }
    destruct fuel as [|n]; [lia|]. cbn [reify]. rewrite decide_False by done.
    rewrite (deref_weaken _ _ _ _ Hl Hsub).
    rewrite (reify_items_dict d h hk h2 kvs (seen ∪ {[a]}) n); try done.
    + by etrans.
    + intros p [Hp| ->%elem_of_singleton]%elem_of_union Hd; [|done].
      apply Hseen; [done|]. by eapply subseteq_dom_elem.
    + pose proof (unseen_lt h2 seen a Hin2 Ha). lia.
  - rewrite alloc_inst_eq in Hal.
    destruct (thread alloc_item d h) as [kvs hk] eqn:Hth.
    destruct (new_object (ODict kvs) hk) as [da hd] eqn:Hda.
    apply new_object_inv in Hda as (Hfd & Hld & Hsd).
    apply new_object_inv in Hal as (Hf & Hl & Hs).
    assert (Hmono : forall kv h, h ⊆ (alloc_item kv h).2).
    { intros kv. apply alloc_item_subseteq, alloc_subseteq. }
    destruct (thread_steps alloc_item d Hmono _ _ _ Hth) as [Hhk _].
    assert (Ha : a ∉ seen).
    { intros Hin. apply Hf. eapply subseteq_dom_elem; [exact Hsd|].
      eapply subseteq_dom_elem; [exact Hhk|].
      apply Hseen; [done|]. by apply elem_of_dom_2 in Hl. }
    assert (Hin2 : a ∈ dom h2).
    { eapply subseteq_dom_elem; [exact Hsub|]. by apply elem_of_dom_2 in Hl. }
    assert (Hne : da <> a).
    { intros ->. apply Hf. by apply elem_of_dom_2 in Hld. }
    assert (Hdseen : da ∉ seen ∪ {[a]}).
    { intros [Hin| Heq%elem_of_singleton]%elem_of_union; [|done].
      apply Hfd. eapply subseteq_dom_elem; [exact Hhk|].
      apply Hseen; [done|]. eapply subseteq_dom_elem; [exact Hs|].
      by apply elem_of_dom_2 in Hld. }
    assert (Hdin2 : da ∈ dom h2).
    { eapply subseteq_dom_elem; [exact Hsub|].
      eapply subseteq_dom_elem; [exact Hs|]. by apply elem_of_dom_2 in Hld. }
    pose proof (unseen_lt h2 seen a Hin2 Ha) as Hlt1.
    pose proof (unseen_lt h2 _ da Hdin2 Hdseen) as Hlt2.
    destruct fuel as [|[|n]]; [lia|lia|].
    cbn [reify]. rewrite decide_False by done.
    rewrite (deref_weaken _ _ _ _ Hl Hsub).
    rewrite decide_False by done.
    rewrite (deref_weaken h1 h2 da (ODict kvs)); [|by eapply lookup_weaken|done].
    rewrite (reify_items_dict d h hk h2 kvs (seen ∪ {[a]} ∪ {[da]}) n); try done.
    + etrans; [exact Hsd|]. by etrans.
    + intros p [[Hp| ->%elem_of_singleton]%elem_of_union| ->%elem_of_singleton]%elem_of_union Hd.
      * apply Hseen; [done|]. eapply subseteq_dom_elem; [exact Hs|].
        by eapply subseteq_dom_elem.
      * exfalso. apply Hf. by eapply subseteq_dom_elem.
      * done.
    + lia.
  - cbn [alloc] in Hal. apply new_object_inv in Hal as (Hf & Hl & Hs).
    destruct fuel as [|n]; [lia|]. simpl.
    rewrite decide_False; [by rewrite (deref_weaken _ _ _ _ Hl Hsub)|].
    intros Hin. apply Hf, Hseen; [done|]. by apply elem_of_dom_2 in Hl.
Qed.

Lemma value_of_alloc (v : pyval) (h : heap) (a : addr) (h1 h2 : heap) :
  alloc v h = (a, h1) -> h1 ⊆ h2 -> value_of h2 a = Some v.
Proof.
  intros Hal Hsub. unfold value_of, enough.
  apply (alloc_reads_back v h a h1 Hal); [done|set_solver|].
  replace (dom h2 ∖ ∅) with (dom h2) by set_solver.
  rewrite size_dom. lia.
Qed.

(** ** The loops of [close] and [open] *)

Lemma for_each_cons {A} (body : A -> world -> outcome unit * world)
    (x : A) (r : list A) (w : world) :
  for_each body (x :: r) w
  = match body x w with
    | (Ok _, w) => for_each body r w
    | other => other
    end.
Proof. done. Qed.

Lemma save_table_ok `{Msgpack} (path name : string) (t : addr) (w : world)
    (blob : bytes) :
  is_Some (dict_get str_eqb (disk w) path) ->
  save (objects w) t = Ok blob ->
  exists fs',
    save_table path (name, t) w = (Ok (), with_disk fs' w)
    /\ read_file fs' path (tbl_file name) = Ok blob
    /\ is_Some (dict_get str_eqb fs' path)
    /\ forall p n, (p <> path \/ n <> tbl_file name) ->
         read_file fs' p n = read_file (disk w) p n.
Proof.
  intros [files Hdir] Hsave. unfold save_table.
  destruct (open_wb (disk w) path (tbl_file name)) as [fs1| |] eqn:Hopen;
    try (unfold open_wb in Hopen; rewrite Hdir in Hopen; done).
  apply read_open_wb in Hopen as (Hempty & Hdir1 & Hother1).
  cbn [objects with_disk]. rewrite Hsave.
  destruct (read_write_file fs1 path (tbl_file name) blob Hdir1)
    as (Hread & Hdir2 & Hother2).
  eexists. split; [done|]. rewrite Hempty in Hread. split; [done|].
  split; [done|]. intros p n Hne. by rewrite Hother2, Hother1.
Qed.

Lemma close_loop `{Msgpack} (path : string) (h : heap)
    (entries : list (string * addr)) (blobs : list bytes) :
  Forall2 (fun e b => save h e.2 = Ok b) entries blobs ->
  NoDup entries.*1 ->
  forall w, objects w = h -> is_Some (dict_get str_eqb (disk w) path) ->
  exists fs',
    for_each (save_table path) entries w = (Ok (), with_disk fs' w)
    /\ Forall2 (fun e b => read_file fs' path (tbl_file e.1) = Ok b) entries blobs
    /\ is_Some (dict_get str_eqb fs' path)
    /\ forall p n, (p <> path \/ n ∉ tbl_file <$> entries.*1) ->
         read_file fs' p n = read_file (disk w) p n.
Proof.
  induction 1 as [|[name t] blob entries blobs Hsave _ IH];
    intros Hnd w Hobj Hdir.
  - exists (disk w). by destruct w.
  - apply NoDup_cons in Hnd as [Hname Hnd]. simpl in Hsave. subst h.
    rewrite for_each_cons.
    destruct (save_table_ok path name t w blob Hdir Hsave)
      as (fs1 & -> & Hread1 & Hdir1 & Hother1).
    destruct (IH Hnd (with_disk fs1 w) eq_refl Hdir1)
      as (fs2 & -> & Hreads & Hdir2 & Hother2).
    exists fs2. split; [done|]. split; [|split; [done|]].
    + constructor; [|done]. simpl. rewrite Hother2; [done|].
      right. intros [n' [Heq Hin]]%list_elem_of_fmap.
      apply tbl_file_inj in Heq. by subst n'.
    + intros p n Hne. simpl in Hother2. rewrite Hother2, Hother1; [done| |].
      * destruct Hne as [|Hn]; [by left|]. right. intros ->. apply Hn.
        csimpl. left.
      * destruct Hne as [|Hn]; [by left|]. right. intros Hin. apply Hn.
        csimpl. by right.
Qed.

Lemma load_table_keeps `{Msgpack} `{Classes} (path f : string) (w w' : world)
    (r : outcome unit) :
  load_table path f w = (r, w') ->
  disk w' = disk w /\ forall m, m ∈ console w -> m ∈ console w'.
Proof.
  unfold load_table. destruct (endswith f ".tbl"); [|by intros [= <- <-]].
  destruct (read_file (disk w) path f) as [[|b data]| |];
    try by intros [= <- <-].
  - intros [= <- <-]. split; [done|]. intros m Hm. cbn [console print].
    apply elem_of_app. by left.
  - destruct (load (b :: data)) as [table| |]; try by intros [= <- <-].
    destruct (alloc table (objects w)) as [a h]. by intros [= <- <-].
Qed.

Lemma load_table_empty `{Msgpack} `{Classes} (path f : string) (w : world) :
  endswith f ".tbl" = true -> read_file (disk w) path f = Ok [] ->
  load_table path f w = (Ok (), print (empty_warning f) w).
Proof. intros He Hr. unfold load_table. by rewrite He, Hr. Qed.

Lemma load_loop `{Msgpack} `{Classes} (path : string) (fs : fsys)
    (files : list string) :
  Forall (fun f => endswith f ".tbl" = true ->
            read_file fs path f = Ok []
            \/ exists data table, read_file fs path f = Ok data
                                  /\ load data = Ok table) files ->
  forall w, disk w = fs ->
  exists w',
    for_each (load_table path) files w = (Ok (), w')
    /\ disk w' = fs
    /\ (forall m, m ∈ console w -> m ∈ console w')
    /\ forall f, f ∈ files -> endswith f ".tbl" = true ->
         read_file fs path f = Ok [] -> empty_warning f ∈ console w'.
Proof.
  induction 1 as [|f files Hf _ IH]; intros w Hdisk.
  - exists w. repeat split; try done. intros f Hin. by apply elem_of_nil in Hin.
  - rewrite for_each_cons.
    assert (exists w1, load_table path f w = (Ok (), w1)) as [w1 Hw1].
    { unfold load_table. destruct (endswith f ".tbl") eqn:He; [|by eexists].
      rewrite Hdisk.
      destruct (Hf eq_refl) as [->|(data & table & -> & Hload)]; [by eexists|].
      destruct data as [|b data]; [by eexists|]. rewrite Hload.
      destruct (alloc table (objects w)). by eexists. }
    rewrite Hw1. pose proof (load_table_keeps _ _ _ _ _ Hw1) as [Hd1 Hc1].
    destruct (IH w1) as (w' & -> & Hd' & Hc' & Hwarn); [congruence|].
    exists w'. repeat split; auto.
    intros f' [->|Hin]%elem_of_cons He Hr; [|by apply Hwarn].
    apply Hc'. rewrite <- Hdisk in Hr.
    rewrite (load_table_empty _ _ _ He Hr) in Hw1. injection Hw1 as <-.
    cbn [console print]. apply elem_of_app. right. by apply list_elem_of_singleton.
Qed.

Lemma save_table_listing `{Msgpack} (path : string) (e : string * addr)
    (w w' : world) :
  save_table path e w = (Ok (), w') ->
  (forall f, f ∈ listdir (disk w') path
             <-> f ∈ listdir (disk w) path \/ f = tbl_file e.1)
  /\ (NoDup (listdir (disk w) path) -> NoDup (listdir (disk w') path)).
Proof.
  destruct e as [name t]. unfold save_table, open_wb.
  destruct (dict_get str_eqb (disk w) path) as [files|] eqn:Hdir; [|done].
  cbn [objects with_disk]. destruct (save (objects w) t) as [b| |]; try done.
  intros [= <-]. cbn [disk with_disk]. unfold write_file.
  rewrite dict_get_set_eq, listdir_set. unfold listdir.
  rewrite Hdir. cbn [default]. split.
  - intros f. rewrite !dict_set_keys. tauto.
  - intros Hnd. by do 2 apply dict_set_NoDup.
Qed.

Lemma close_listing `{Msgpack} (path : string) (entries : list (string * addr)) :
  forall w w', for_each (save_table path) entries w = (Ok (), w') ->
  (forall f, f ∈ listdir (disk w') path
             <-> f ∈ listdir (disk w) path \/ f ∈ tbl_file <$> entries.*1)
  /\ (NoDup (listdir (disk w) path) -> NoDup (listdir (disk w') path)).
Proof.
  induction entries as [|e entries IH]; intros w w'.
  - intros [= <-]. split; [|done]. intros f. csimpl.
    split; [by left|]. by intros [|?%elem_of_nil].
  - rewrite for_each_cons.
    destruct (save_table path e w) as [[[]| |] w1] eqn:Hs; try done.
    intros Hrest. apply save_table_listing in Hs as [Hin1 Hnd1].
    apply IH in Hrest as [Hin2 Hnd2]. split; [|auto].
    intros f. rewrite Hin2, Hin1. csimpl. rewrite elem_of_cons. tauto.
Qed.

Lemma load_table_loads `{Msgpack} `{Classes} (path f : string) (w : world)
    (data : bytes) (v : pyval) :
  endswith f ".tbl" = true -> read_file (disk w) path f = Ok data ->
  data <> [] -> load data = Ok v ->
  load_table path f w
  = (Ok (), with_tables (dict_set str_eqb (tables (db w)) (drop_last4 f)
                           (alloc v (objects w)).1)
              (with_objects (alloc v (objects w)).2 w)).
Proof.
  intros He Hr Hne Hl. unfold load_table. rewrite He, Hr.
  destruct data as [|b data]; [done|]. rewrite Hl.
  by destruct (alloc v (objects w)).
Qed.

Lemma load_table_grows `{Msgpack} `{Classes} (path f : string) (w w' : world) :
  load_table path f w = (Ok (), w') ->
  objects w ⊆ objects w'
  /\ forall name, tbl_file name <> f ->
       dict_get str_eqb (tables (db w')) name
       = dict_get str_eqb (tables (db w)) name.
Proof.
  unfold load_table. destruct (endswith f ".tbl") eqn:He; [|by intros [= <-]].
  destruct (read_file (disk w) path f) as [[|b data]| |]; try done.
  - by intros [= <-].
  - destruct (load (b :: data)) as [table| |]; try done.
    pose proof (alloc_subseteq table (objects w)) as Hsub.
    destruct (alloc table (objects w)) as [a h]. intros [= <-].
    split; [done|]. intros name Hne. cbn [tables db with_tables].
    apply dict_get_set_ne. intros <-. apply Hne. by rewrite <- endswith_tbl.
Qed.

(** Every table file that is not empty and loads is registered under its
    name, with the loaded value. *)
Lemma open_loop `{Msgpack} `{Classes} (path : string) (fs : fsys)
    (files : list string) :
  NoDup files ->
  Forall (fun f => endswith f ".tbl" = true ->
            read_file fs path f = Ok []
            \/ exists data table, read_file fs path f = Ok data
                                  /\ load data = Ok table) files ->
  forall w, disk w = fs ->
  exists w',
    for_each (load_table path) files w = (Ok (), w')
    /\ disk w' = fs
    /\ objects w ⊆ objects w'
    /\ (forall name, tbl_file name ∉ files ->
          dict_get str_eqb (tables (db w')) name
          = dict_get str_eqb (tables (db w)) name)
    /\ forall f data v,
         f ∈ files -> endswith f ".tbl" = true ->
         read_file fs path f = Ok data -> data <> [] -> load data = Ok v ->
         exists a, dict_get str_eqb (tables (db w')) (drop_last4 f) = Some a
                   /\ forall h2, objects w' ⊆ h2 -> value_of h2 a = Some v.
Proof.
  intros Hnd Hall. induction Hall as [|f files Hf _ IH]; intros w Hdisk.
  - exists w. split; [done|]. split; [done|]. split; [done|]. split; [done|].
    intros f data v Hin. by apply elem_of_nil in Hin.
  - apply NoDup_cons in Hnd as [Hnew Hnd]. rewrite for_each_cons.
    assert (exists w1, load_table path f w = (Ok (), w1)) as [w1 Hw1].
    { unfold load_table. destruct (endswith f ".tbl") eqn:He; [|by eexists].
      rewrite Hdisk.
      destruct (Hf eq_refl) as [->|(data & table & -> & Hload)]; [by eexists|].
      destruct data as [|b data]; [by eexists|]. rewrite Hload.
      destruct (alloc table (objects w)). by eexists. }
    rewrite Hw1. pose proof (load_table_keeps _ _ _ _ _ Hw1) as [Hd1 _].
    pose proof (load_table_grows _ _ _ _ Hw1) as [Hsub1 Hkeep1].
    destruct (IH Hnd w1) as (w' & -> & Hd' & Hsub' & Hkeep' & Hloaded);
      [congruence|].
    exists w'. split; [done|]. split; [done|]. split; [by etrans|]. split.
    + intros name [Hne Hnin]%not_elem_of_cons.
      rewrite Hkeep' by done. by apply Hkeep1.
    + intros f' data v [->|Hin]%elem_of_cons He Hr Hne Hl; [|by eauto].
      rewrite <- Hdisk in Hr.
      rewrite (load_table_loads _ _ _ _ _ He Hr Hne Hl) in Hw1.
      injection Hw1 as <-.
      destruct (alloc v (objects w)) as [a h1] eqn:Hal. exists a. split.
      * rewrite Hkeep' by (by rewrite <- endswith_tbl).
        cbn [tables db with_tables fst]. apply dict_get_set_eq.
      * intros h2 Hh2. apply (value_of_alloc v (objects w) a h1 h2 Hal).
        etrans; [|exact Hh2]. exact Hsub'.
Qed.

(** ** A save and a load *)

Lemma load_save `{Msgpack} `{Classes}
    (h : heap) (a : addr) (v : pyval) (b : bytes) :
  value_of h a = Some v -> durable v = true ->
  save h a = Ok b -> load b = Ok v.
Proof.
  intros Hv Hd Hb. unfold save, load in *.
  rewrite (serialize_ser h a v Hv (durable_keys_ok v Hd)) in Hb.
  simpl in Hb. rewrite (unpackb_packb _ _ (durable_wire v Hd) Hb). simpl.
  by apply rehydrate_ser.
Qed.

Lemma save_nonempty `{Msgpack} (h : heap) (a : addr) (b : bytes) :
  save h a = Ok b -> b <> [].
Proof.
  unfold save. destruct (serialize h a) as [v| |]; try done. simpl.
  apply packb_nonempty.
Qed.


(** ** What the walk returns, and what it leaves when it raises *)

Lemma conv_list_plain rec items seen l s :
  (forall x s0 v s1, rec x s0 = (Ok v, s1) -> plain_data v = true) ->
  conv_list rec items seen = (Ok l, s) -> forallb plain_data l = true.
Proof.
  intros Hrec. revert seen l. induction items as [|x r IH]; intros seen l; simpl.
  - by intros [= <- <-].
  - destruct (rec x seen) as [[y| |] s1] eqn:Hx; try done.
    destruct (conv_list rec r s1) as [[ys| |] s2] eqn:Hr; try done.
    intros [= <- <-]. simpl. rewrite (Hrec _ _ _ _ Hx). eauto.
Qed.

Lemma dict_set_plain (acc : list (atom * pyval)) k v :
  forallb (fun kv => plain_data kv.2) acc = true -> plain_data v = true ->
  forallb (fun kv => plain_data kv.2) (dict_set key_eqb acc k v) = true.
Proof.
  intros Hacc Hv. induction acc as [|[k' v'] acc IH]; simpl in *.
  - by rewrite Hv.
  - apply andb_prop in Hacc as [Hv' Hacc]. destruct (key_eqb k' k); simpl.
    + by rewrite Hv.
    + rewrite Hv'. auto.
Qed.

Lemma conv_items_plain rec items acc seen d s :
  (forall x s0 v s1, rec x s0 = (Ok v, s1) -> plain_data v = true) ->
  forallb (fun kv => plain_data kv.2) acc = true ->
  conv_items rec items acc seen = (Ok d, s) ->
  forallb (fun kv => plain_data kv.2) d = true.
Proof.
  intros Hrec. revert acc seen.
  induction items as [|[k v] r IH]; intros acc seen Hacc; simpl.
  - by intros [= <- <-].
  - destruct (rec k seen) as [[k'| |] s1] eqn:Hk; try done.
    destruct (rec v s1) as [[v'| |] s2] eqn:Hv; try done.
    destruct (as_key k') as [ka| |]; try done.
    apply IH, dict_set_plain; eauto.
Qed.

Lemma conv_list_leaves rec items seen :
  (forall x s0, match rec x s0 with
                | (Ok _, s1) => s1 = s0
                | (Raise e, s1) => unhashable e /\ s0 ⊆ s1
                | (OutOfFuel, _) => True
                end) ->
  match conv_list rec items seen with
  | (Ok _, s1) => s1 = seen
  | (Raise e, s1) => unhashable e /\ seen ⊆ s1
  | (OutOfFuel, _) => True
  end.
Proof.
  intros Hrec. induction items as [|x r IH]; simpl; [done|].
  pose proof (Hrec x seen) as Hx.
  destruct (rec x seen) as [[y| |] s1]; try done. subst s1.
  by destruct (conv_list rec r seen) as [[ys| |] s2].
Qed.

Lemma conv_items_leaves rec items acc seen :
  (forall x s0, match rec x s0 with
                | (Ok _, s1) => s1 = s0
                | (Raise e, s1) => unhashable e /\ s0 ⊆ s1
                | (OutOfFuel, _) => True
                end) ->
  match conv_items rec items acc seen with
  | (Ok _, s1) => s1 = seen
  | (Raise e, s1) => unhashable e /\ seen ⊆ s1
  | (OutOfFuel, _) => True
  end.
Proof.
  intros Hrec. revert acc. induction items as [|[k v] r IH]; intros acc; simpl;
    [done|].
  pose proof (Hrec k seen) as Hk.
  destruct (rec k seen) as [[k'| |] s1]; try done. subst s1.
  pose proof (Hrec v seen) as Hv.
  destruct (rec v seen) as [[v'| |] s1]; try done. subst s1.
  destruct k' as [ka| | | | | |]; simpl; try apply IH;
    (split; [|done]); unfold unhashable; auto.
Qed.

Lemma convert_leaves (h : heap) (fuel : nat) :
  forall a seen,
    match convert_to_serializable fuel h a seen with
    | (Ok _, s) => s = seen
    | (Raise e, s) => unhashable e /\ seen ⊆ s /\ a ∈ s
    | (OutOfFuel, _) => True
    end.
Proof.
  induction fuel as [|n IH]; intros a seen; [done|]. simpl.
  destruct (decide (a ∈ seen)) as [|Hnot]; [done|].
  assert (Hback : (seen ∪ {[a]}) ∖ {[a]} = seen) by set_solver.
  assert (Hrec : forall x s0,
    match convert_to_serializable n h x s0 with
    | (Ok _, s1) => s1 = s0
    | (Raise e, s1) => unhashable e /\ s0 ⊆ s1
    | (OutOfFuel, _) => True
    end).
  { intros x s0. specialize (IH x s0).
    destruct (convert_to_serializable n h x s0) as [[v| |] s1]; try done.
    by destruct IH as (? & ? & _). }
  destruct (deref h a) as [x|items|items|items|items|c d|t r]; try done.
  1-3: pose proof (conv_list_leaves _ items (seen ∪ {[a]}) Hrec) as Hl;
       destruct (conv_list _ items _) as [[l| |] s]; try done;
       [by subst s|destruct Hl as [He Hs]; split; [done|set_solver]].
  - pose proof (conv_items_leaves _ items [] (seen ∪ {[a]}) Hrec) as Hl.
    destruct (conv_items _ items _ _) as [[l| |] s]; try done;
      [by subst s|destruct Hl as [He Hs]; split; [done|set_solver]].
  - specialize (Hrec d (seen ∪ {[a]})).
    destruct (convert_to_serializable n h d _) as [[st| |] s]; try done;
      [by subst s|destruct Hrec as [He Hs]; split; [done|set_solver]].
Qed.

(** ** More on [rehydrate] *)

Section rehydrate_more.

Context `{Classes}.

Lemma rehydrate_atom_inv (v : pyval) (a : atom) :
  rehydrate v = Ok (PAtom a) -> v = PAtom a.
Proof.
  destruct v as [x|l|l|l|d|c d|t r]; try (by intros [= <-]); try done.
  - rewrite rehydrate_list. by destruct (omapM rehydrate l).
  - rewrite rehydrate_dict. cbv zeta.
    destruct (dict_get key_eqb d (AStr "__custom_type__")) as [typ|].
    + destruct (is_str typ "Table"); [by intros [? ?]%construct_inst|].
      destruct (is_str typ "Index"); [by intros [? ?]%construct_inst|].
      by intros [? ?]%fmap_PDict_Ok.
    + by intros [? ?]%fmap_PDict_Ok.
Qed.

Lemma is_str_rehydrate (typ typ' : pyval) (s : string) :
  rehydrate typ = Ok typ' -> is_str typ' s = is_str typ s.
Proof.
  intros Hr. destruct typ' as [a| | | | | |];
    [by rewrite (rehydrate_atom_inv _ _ Hr)|..];
    by destruct typ as [x| | | | | |].
Qed.

(** The comprehension of line 165 keeps the keys. *)
Lemma rehydrate_values_get (d d' : list (atom * pyval)) (k : atom) :
  omapM (fun kv => v ← rehydrate kv.2; Ok (kv.1, v)) d = Ok d' ->
  match dict_get key_eqb d k with
  | Some v => exists v', dict_get key_eqb d' k = Some v' /\ rehydrate v = Ok v'
  | None => dict_get key_eqb d' k = None
  end.
Proof.
  revert d'. induction d as [|[k0 v0] d IH]; intros d'; simpl.
  - by intros [= <-].
  - destruct (rehydrate v0) as [v0'| |] eqn:Hv0; simpl; try done.
    destruct (omapM _ d) as [r| |]; try done. intros [= <-]. simpl.
    destruct (key_eqb k0 k); [by eexists|]. by apply IH.
Qed.

Lemma rehydrate_values_again (d d' : list (atom * pyval)) :
  Forall (fun kv => forall r, rehydrate kv.2 = Ok r -> rehydrate r = Ok r) d ->
  omapM (fun kv => v ← rehydrate kv.2; Ok (kv.1, v)) d = Ok d' ->
  omapM (fun kv => v ← rehydrate kv.2; Ok (kv.1, v)) d' = Ok d'.
Proof.
  intros IH. revert d'. induction IH as [|[k0 v0] d Hx _ IHd]; intros d'; simpl.
  - by intros [= <-].
  - destruct (rehydrate v0) as [v0'| |] eqn:Hv0; simpl; try done.
    destruct (omapM _ d) as [r| |]; try done. intros [= <-]. simpl in *.
    rewrite (Hx _ Hv0). simpl. by rewrite (IHd r).
Qed.

Lemma rehydrate_twice (v : pyval) :
  forall r, rehydrate v = Ok r -> rehydrate r = Ok r.
Proof.
  induction v as [a|l IH|l IH|l IH|d IH|c d IH|t r0] using pyval_ind';
    intros r; try (by intros [= <-]).
  - rewrite rehydrate_list.
    destruct (omapM rehydrate l) as [l'| |] eqn:Hl; try done.
    intros [= <-]. rewrite rehydrate_list.
    apply omapM_Ok_inv in Hl. rewrite (omapM_Ok _ l' l'); [done|].
    clear -IH Hl. induction Hl as [|x y l l' Hxy _ IHl]; [constructor|].
    apply Forall_cons in IH as [Hx IH]. constructor; auto.
  - rewrite rehydrate_dict. cbv zeta.
    assert (Hplain : forall d',
      omapM (fun kv => v ← rehydrate kv.2; Ok (kv.1, v)) d = Ok d' ->
      (forall typ, dict_get key_eqb d (AStr "__custom_type__") = Some typ ->
                   is_str typ "Table" = false /\ is_str typ "Index" = false) ->
      rehydrate (PDict d') = Ok (PDict d')).
    { intros d' Hd' Htag. rewrite rehydrate_dict. cbv zeta.
      rewrite (rehydrate_values_again d d' IH Hd'). simpl.
      pose proof (rehydrate_values_get d d' (AStr "__custom_type__") Hd') as Hg.
      destruct (dict_get key_eqb d (AStr "__custom_type__")) as [typ|].
      - destruct Hg as (typ' & -> & Htyp). destruct (Htag typ eq_refl) as [Ht Hi].
        by rewrite !(is_str_rehydrate _ _ _ Htyp), Ht, Hi.
      - by rewrite Hg. }
    destruct (dict_get key_eqb d (AStr "__custom_type__")) as [typ|] eqn:Htag.
    + destruct (is_str typ "Table") eqn:Ht.
      { by intros [kvs ->]%construct_inst. }
      destruct (is_str typ "Index") eqn:Hi.
      { by intros [kvs ->]%construct_inst. }
      destruct (omapM _ d) as [d'| |] eqn:Hd'; try done. intros [= <-].
      apply Hplain; [done|]. by intros typ0 [= <-].
    + destruct (omapM _ d) as [d'| |] eqn:Hd'; try done. intros [= <-].
      apply Hplain; [done|]. by intros typ0.
Qed.

Lemma rehydrate_same (v : pyval) : untagged v = true -> rehydrate v = Ok v.
Proof.
  induction v as [a|l IH|l IH|l IH|d IH|c d IH|t r0] using pyval_ind';
    try done.
  - intros Hl. simpl in Hl. rewrite rehydrate_list, (omapM_Ok _ l l); [done|].
    induction IH as [|x l Hx _ IHl]; simpl in *; [constructor|].
    apply andb_prop in Hl as [??]. constructor; auto.
  - intros Hd. simpl in Hd. rewrite rehydrate_dict. cbv zeta.
    destruct (dict_get key_eqb d (AStr "__custom_type__")); [done|].
    rewrite (omapM_Ok _ d d); [done|].
    induction IH as [|[k x] d Hx _ IHd]; simpl in *; [constructor|].
    apply andb_prop in Hd as [??]. constructor; [|auto]. simpl.
    by rewrite Hx.
Qed.

(** *** What comes back of any storable value *)

Lemma storable_keys_ok (v : pyval) : storable v = true -> keys_ok v = true.
Proof.
  induction v as [a|l IH|l IH|l IH|d IH|c d IH|t r] using pyval_ind';
    simpl; try done.
  1-3: induction IH as [|x l Hx _ IHl]; simpl; [done|];
       intros [??]%andb_prop; apply andb_true_intro; auto.
  1-2: intros [[_ Hk]%andb_prop Hv]%andb_prop; apply andb_true_intro;
       split; [done|]; clear Hk;
       induction IH as [|x l Hx _ IHl]; simpl in *; [done|];
       apply andb_prop in Hv as [??]; apply andb_true_intro; auto.
Qed.

Lemma storable_wire_items (d : list (atom * pyval)) :
  Forall (fun kv => storable kv.2 = true -> wire (ser kv.2) = true) d ->
  forallb str_key d.*1 = true ->
  forallb (fun kv => storable kv.2) d = true ->
  wire (PDict (prod_map id ser <$> d)) = true.
Proof.
  induction 1 as [|[k v] d Hx _ IHd]; csimpl; [done|].
  intros [Hk Hs]%andb_prop [Hv Hd]%andb_prop.
  destruct k; try done. simpl in *. rewrite Hx by done. simpl. auto.
Qed.

Lemma storable_wire (v : pyval) : storable v = true -> wire (ser v) = true.
Proof.
  induction v as [a|l IH|l IH|l IH|d IH|c d IH|t r] using pyval_ind';
    simpl; try done.
  1-3: induction IH as [|x l Hx _ IHl]; csimpl; [done|];
       intros [??]%andb_prop; apply andb_true_intro; auto.
  - intros [[Hs _]%andb_prop Hv]%andb_prop. by apply (storable_wire_items d).
  - intros [[Hs _]%andb_prop Hv]%andb_prop.
    pose proof (storable_wire_items d IH Hs Hv) as Hw. simpl in Hw.
    by rewrite Hw.
Qed.

Section defaults.

Variables table_init index_init : list (atom * pyval).

Hypothesis Table_default_init : Table_default = Ok table_init.

Hypothesis Index_default_init : Index_default = Ok index_init.

Abbreviation back := (reloaded table_init index_init).

Lemma rehydrate_ser_items (d : list (atom * pyval)) :
  Forall (fun kv => storable kv.2 = true ->
                    rehydrate (ser kv.2) = Ok (back kv.2)) d ->
  forallb str_key d.*1 = true ->
  forallb (fun kv => storable kv.2) d = true ->
  rehydrate (PDict (prod_map id ser <$> d))
  = Ok (PDict (prod_map id back <$> d)).
Proof.
  intros IH Hs Hv. rewrite rehydrate_dict. cbv zeta.
  rewrite dict_get_tag_None by by rewrite fst_ser.
  rewrite omapM_fmap, (omapM_Ok _ d (prod_map id back <$> d)); [done|].
  apply Forall2_fmap_r. apply Forall_Forall2_diag. clear Hs.
  induction IH as [|[k x] d Hx _ IHd]; simpl in *; [constructor|].
  apply andb_prop in Hv as [??]. constructor; [|auto]. simpl.
  by rewrite Hx.
Qed.

Lemma rehydrate_ser_reloaded (v : pyval) :
  storable v = true -> rehydrate (ser v) = Ok (back v).
Proof.
  assert (Hlist : forall l : list pyval,
    Forall (fun v => storable v = true -> rehydrate (ser v) = Ok (back v)) l ->
    forallb storable l = true ->
    rehydrate (PList (ser <$> l)) = Ok (PList (back <$> l))).
  { intros l IH Hl.
    rewrite rehydrate_list, omapM_fmap, (omapM_Ok _ l (back <$> l)); [done|].
    apply Forall2_fmap_r, Forall_Forall2_diag.
    induction IH as [|x l Hx _ IHl]; simpl in *; [constructor|].
    apply andb_prop in Hl as [??]. constructor; auto. }
  induction v as [a|l IH|l IH|l IH|d IH|c d IH|t r] using pyval_ind';
    try done; try (by apply Hlist).
  - intros [[Hs _]%andb_prop Hv]%andb_prop. by apply rehydrate_ser_items.
  - intros [[Hs _]%andb_prop Hv]%andb_prop.
    pose proof (rehydrate_ser_items d IH Hs Hv) as Hstate.
    change (ser (PInst c d))
      with (tagged (tag_of c) (PDict (prod_map id ser <$> d))).
    change (back (PInst c d))
      with (if bool_decide (tag_of c = "Table")
            then PInst TableClass
                   (dict_update key_eqb table_init (prod_map id back <$> d))
            else if bool_decide (tag_of c = "Index")
                 then PInst IndexClass
                        (dict_update key_eqb index_init (prod_map id back <$> d))
                 else tagged (tag_of c) (PDict (prod_map id back <$> d))).
    rewrite rehydrate_tagged, Hstate. unfold construct. simpl (class_default _).
    rewrite Table_default_init, Index_default_init.
    destruct (bool_decide (tag_of c = "Table")); [done|].
    by destruct (bool_decide (tag_of c = "Index")).
Qed.

End defaults.

End rehydrate_more.
(** *** A save and a load *)

Lemma load_save_back `{Msgpack} `{Classes}
    (table_init index_init : list (atom * pyval))
    (h : heap) (a : addr) (v : pyval) (b : bytes) :
  Table_default = Ok table_init -> Index_default = Ok index_init ->
  value_of h a = Some v -> storable v = true ->
  save h a = Ok b ->
  load b = Ok (reloaded table_init index_init v).
Proof.
  intros Ht Hi Hv Hs Hb. unfold save, load in *.
  rewrite (serialize_ser h a v Hv (storable_keys_ok v Hs)) in Hb.
  simpl in Hb. rewrite (unpackb_packb _ _ (storable_wire v Hs) Hb). simpl.
  by apply rehydrate_ser_reloaded.
Qed.

(** ** More on the loop of [close] *)

Section str_dict_more.

Context {V : Type}.

Implicit Types (d : list (string * V)) (k : string) (v : V).

Lemma dict_set_set d k v v' :
  dict_set str_eqb (dict_set str_eqb d k v) k v' = dict_set str_eqb d k v'.
Proof.
  induction d as [|[k0 v0] d IH]; simpl.
  - by rewrite str_eqb_refl.
  - destruct (str_eqb k0 k) eqn:E; simpl; rewrite E; [done|]. by rewrite IH.
Qed.

Lemma dict_set_same d k v :
  dict_get str_eqb d k = Some v -> dict_set str_eqb d k v = d.
Proof.
  induction d as [|[k0 v0] d IH]; simpl; [done|].
  destruct (str_eqb k0 k); [by intros [= ->]|]. intros Hg. by rewrite IH.
Qed.

End str_dict_more.

Lemma read_file_Ok (fs : fsys) (path name : string) (data : bytes) :
  read_file fs path name = Ok data ->
  exists files, dict_get str_eqb fs path = Some files
                /\ dict_get str_eqb files name = Some data.
Proof.
  unfold read_file. destruct (dict_get str_eqb fs path) as [files|]; [|done].
  destruct (dict_get str_eqb files name) as [d|] eqn:Hf; [|done].
  intros [= <-]. by exists files.
Qed.

Lemma for_each_app {A} (body : A -> world -> outcome unit * world)
    (l1 l2 : list A) (w : world) :
  for_each body (l1 ++ l2) w
  = match for_each body l1 w with
    | (Ok _, w1) => for_each body l2 w1
    | other => other
    end.
Proof.
  revert w. induction l1 as [|x l1 IH]; intros w; [done|].
  rewrite <- app_comm_cons, !for_each_cons.
  destruct (body x w) as [[[]| |] w1]; [apply IH|done|done].
Qed.

(** Whatever it returns, [save_table] changes the table's file only. *)
Lemma save_table_frame `{Msgpack} (path : string) (e : string * addr)
    (w w' : world) (r : outcome unit) :
  save_table path e w = (r, w') ->
  objects w' = objects w /\ db w' = db w /\ console w' = console w
  /\ forall p n, (p <> path \/ n <> tbl_file e.1) ->
       read_file (disk w') p n = read_file (disk w) p n.
Proof.
  destruct e as [name t]. unfold save_table.
  destruct (open_wb (disk w) path (tbl_file name)) as [fs1| |] eqn:Hopen;
    try (by intros [= <- <-]).
  apply read_open_wb in Hopen as (_ & Hdir1 & Hother1).
  cbn [objects with_disk].
  destruct (save (objects w) t) as [blob| |]; intros [= <- <-];
    cbn [objects db console disk with_disk]; repeat (split; [done|]);
    try done.
  destruct (read_write_file fs1 path (tbl_file name) blob Hdir1)
    as (_ & _ & Hother2).
  intros p n Hne. by rewrite Hother2, Hother1.
Qed.

Lemma close_frame `{Msgpack} (path : string) (entries : list (string * addr)) :
  forall w w' r, for_each (save_table path) entries w = (r, w') ->
  objects w' = objects w /\ db w' = db w /\ console w' = console w
  /\ forall p n, (p <> path \/ n ∉ tbl_file <$> entries.*1) ->
       read_file (disk w') p n = read_file (disk w) p n.
Proof.
  induction entries as [|e entries IH]; intros w w' r.
  - by intros [= <- <-].
  - rewrite for_each_cons.
    destruct (save_table path e w) as [r1 w1] eqn:Hs.
    apply save_table_frame in Hs as (Ho & Hd & Hc & Hf).
    assert (Hstep : forall p n, (p <> path \/ n ∉ tbl_file <$> (e :: entries).*1) ->
              read_file (disk w1) p n = read_file (disk w) p n).
    { intros p n [Hp|Hn]; apply Hf; [by left|]. right. intros ->. apply Hn.
      csimpl. left. }
    destruct r1 as [[]| |]; try (by intros [= <- <-]).
    intros Hrest. apply IH in Hrest as (Ho' & Hd' & Hc' & Hf').
    split; [congruence|]. split; [congruence|]. split; [congruence|].
    intros p n Hne. rewrite Hf', Hstep; [done|done|].
    destruct Hne as [|Hn]; [by left|]. right. intros Hin. apply Hn.
    csimpl. by right.
Qed.

(** Saving a table whose file already holds its bytes changes nothing. *)
Lemma save_table_again `{Msgpack} (path name : string) (t : addr) (w : world)
    (blob : bytes) :
  save (objects w) t = Ok blob ->
  read_file (disk w) path (tbl_file name) = Ok blob ->
  save_table path (name, t) w = (Ok (), w).
Proof.
  intros Hsave (files & Hdir & Hfile)%read_file_Ok.
  unfold save_table, open_wb. rewrite Hdir. cbn [objects with_disk].
  rewrite Hsave. unfold write_file. rewrite !dict_get_set_eq. simpl.
  rewrite !dict_set_set, (dict_set_same files _ _ Hfile).
  rewrite (dict_set_same (disk w) _ _ Hdir). by destruct w.
Qed.

Lemma close_again `{Msgpack} (path : string) (entries : list (string * addr))
    (w : world) :
  Forall (fun e => exists b, save (objects w) e.2 = Ok b
                             /\ read_file (disk w) path (tbl_file e.1) = Ok b)
    entries ->
  for_each (save_table path) entries w = (Ok (), w).
Proof.
  induction 1 as [|[name t] entries (b & Hs & Hr) _ IH]; [done|].
  simpl in Hs, Hr. rewrite for_each_cons.
  by rewrite (save_table_again _ _ _ _ _ Hs Hr).
Qed.

(** A [close] that meets a table it cannot save. *)
Lemma save_table_inv `{Msgpack} (path name : string) (t : addr)
    (w w' : world) :
  save_table path (name, t) w = (Ok (), w') ->
  exists b, save (objects w) t = Ok b
            /\ read_file (disk w') path (tbl_file name) = Ok b.
Proof.
  unfold save_table.
  destruct (open_wb (disk w) path (tbl_file name)) as [fs1| |] eqn:Hopen;
    [|done..].
  apply read_open_wb in Hopen as (Hempty & Hdir1 & _).
  cbn [objects with_disk].
  destruct (save (objects w) t) as [b| |]; [|done..].
  intros [= <-]. exists b. split; [done|]. cbn [disk with_disk].
  destruct (read_write_file fs1 path (tbl_file name) b Hdir1) as (Hread & _).
  by rewrite Hempty in Hread.
Qed.

Lemma close_loop_inv `{Msgpack} (path : string)
    (entries : list (string * addr)) :
  NoDup entries.*1 ->
  forall w w', for_each (save_table path) entries w = (Ok (), w') ->
  Forall (fun e => exists b, save (objects w') e.2 = Ok b
                             /\ read_file (disk w') path (tbl_file e.1) = Ok b)
    entries.
Proof.
  induction entries as [|[name t] entries IH]; intros Hnd w w' Hloop;
    [constructor|].
  apply NoDup_cons in Hnd as [Hname Hnd]. rewrite for_each_cons in Hloop.
  destruct (save_table path (name, t) w) as [[[]| |] w1] eqn:Hsave;
    [|done..].
  destruct (save_table_inv _ _ _ _ _ Hsave) as (b & Hb & Hread).
  apply save_table_frame in Hsave as (Hobj1 & _).
  pose proof (close_frame path entries _ _ _ Hloop) as (Hobj & _ & _ & Hother).
  constructor; [|by eapply IH].
  exists b. cbn [fst snd]. split; [by rewrite Hobj, Hobj1|].
  rewrite Hother; [done|]. right.
  intros [n' [Heq Hin]]%list_elem_of_fmap.
  apply tbl_file_inj in Heq. by subst n'.
Qed.

Lemma close_partial `{Msgpack} (w : world) (path : string)
    (pre post : list (string * addr)) (name : string) (t : addr)
    (blobs : list bytes) (e : exn) :
  db_path (db w) = Some path -> path <> "" ->
  is_Some (dict_get str_eqb (disk w) path) ->
  tables (db w) = pre ++ (name, t) :: post ->
  NoDup (tables (db w)).*1 ->
  Forall2 (fun e b => save (objects w) e.2 = Ok b) pre blobs ->
  save (objects w) t = Raise e ->
  exists w',
    Database_close w = (Raise e, w')
    /\ Forall2 (fun e b => read_file (disk w') path (tbl_file e.1) = Ok b)
         pre blobs
    /\ read_file (disk w') path (tbl_file name) = Ok []
    /\ Forall (fun e => read_file (disk w') path (tbl_file e.1)
                        = read_file (disk w) path (tbl_file e.1)) post
    /\ forall p n, (p <> path \/ n ∉ tbl_file <$> (pre.*1 ++ [name])) ->
         read_file (disk w') p n = read_file (disk w) p n.
Proof.
  intros Hpath Hne Hdir Htabs Hnd Hpre Hfail.
  rewrite Htabs, fmap_app, fmap_cons in Hnd.
  apply NoDup_app in Hnd as (Hndpre & Hdisj & Hndpost).
  apply NoDup_cons in Hndpost as [Hname Hndpost]. simpl in Hdisj.
  destruct (close_loop path (objects w) pre blobs Hpre Hndpre w eq_refl Hdir)
    as (fs1 & Hloop & Hreads & Hdir1 & Hother1).
  destruct Hdir1 as [files1 Hdir1].
  set (fs2 := dict_set str_eqb fs1 path (dict_set str_eqb files1 (tbl_file name) [])).
  assert (Hopen : open_wb fs1 path (tbl_file name) = Ok fs2).
  { unfold open_wb. by rewrite Hdir1. }
  pose proof Hopen as (Hempty & _ & Hother2)%read_open_wb.
  assert (Hother : forall p n, (p <> path \/ n ∉ tbl_file <$> (pre.*1 ++ [name])) ->
            read_file fs2 p n = read_file (disk w) p n).
  { intros p n Hpn. rewrite Hother2, Hother1; [done| |].
    - destruct Hpn as [|Hn]; [by left|]. right. intros Hin. apply Hn.
      rewrite fmap_app. apply elem_of_app. by left.
    - destruct Hpn as [|Hn]; [by left|]. right. intros ->. apply Hn.
      rewrite fmap_app. apply elem_of_app. right. csimpl. left. }
  exists (with_disk fs2 w). split; [|split; [|split; [done|split; [|done]]]].
  - unfold Database_close. rewrite Hpath, (str_eqb_ne path "" Hne), Htabs.
    rewrite for_each_app, Hloop, for_each_cons. unfold save_table.
    cbn [disk objects with_disk]. by rewrite Hopen, Hfail.
  - cbn [disk with_disk].
    assert (Hnot : name ∉ pre.*1).
    { intros Hin. apply (Hdisj name Hin). left. }
    clear -Hreads Hnot Hother2. induction Hreads as [|[n' t'] b pre blobs Hr _ IH];
      constructor.
    + simpl in *. rewrite Hother2; [done|]. right. intros Heq%tbl_file_inj.
      subst n'. apply Hnot. left.
    + apply IH. intros Hin. apply Hnot. by right.
  - cbn [disk with_disk]. apply Forall_forall. intros [n' t'] Hin. simpl.
    apply Hother. right. intros (n & Heq%tbl_file_inj & Hn)%list_elem_of_fmap.
    subst n. assert (Hpost : n' ∈ post.*1).
    { apply list_elem_of_fmap. by exists (n', t'). }
    apply elem_of_app in Hn as [Hn|Hn%list_elem_of_singleton].
    + apply (Hdisj n' Hn). by right.
    + by subst n'.
Qed.

(** ** More on the loop of [open] *)

Section str_dict_del.

Context {V : Type}.

Implicit Types (d : list (string * V)) (k : string) (v : V).

Lemma dict_get_Some_key d k v : dict_get str_eqb d k = Some v -> k ∈ d.*1.
Proof.
  intros Hg%dict_get_elem. apply list_elem_of_fmap. by exists (k, v).
Qed.

Lemma dict_get_None_key d k : dict_get str_eqb d k = None -> k ∉ d.*1.
Proof.
  intros Hg Hin. apply dict_get_is_Some in Hin. rewrite Hg in Hin.
  by destruct Hin.
Qed.

Lemma dict_del_keys d k f :
  f ∈ (dict_del str_eqb d k).*1 -> f ∈ d.*1.
Proof.
  induction d as [|[k0 v0] d IH]; csimpl; [done|].
  destruct (str_eqb k0 k); csimpl.
  - by right.
  - intros [->|Hin]%elem_of_cons; [left|right; auto].
Qed.

Lemma dict_del_NoDup d k : NoDup d.*1 -> NoDup (dict_del str_eqb d k).*1.
Proof.
  induction d as [|[k0 v0] d IH]; csimpl; [done|].
  intros [Hk Hd]%NoDup_cons. destruct (str_eqb k0 k); csimpl; [done|].
  apply NoDup_cons. split; [|auto]. intros Hin. by apply Hk, (dict_del_keys d k).
Qed.

End str_dict_del.

(** Whatever it returns, [load_table] writes no file and loses no
    object. *)
Lemma load_table_frame `{Msgpack} `{Classes} (path f : string) (w w' : world)
    (r : outcome unit) :
  load_table path f w = (r, w') ->
  disk w' = disk w /\ objects w ⊆ objects w'
  /\ db_path (db w') = db_path (db w)
  /\ bufferpool (db w') = bufferpool (db w).
Proof.
  unfold load_table. destruct (endswith f ".tbl"); [|by intros [= <- <-]].
  destruct (read_file (disk w) path f) as [[|b data]| |];
    try by intros [= <- <-].
  destruct (load (b :: data)) as [table| |]; try by intros [= <- <-].
  pose proof (alloc_subseteq table (objects w)) as Hsub.
  destruct (alloc table (objects w)) as [a h]. by intros [= <- <-].
Qed.

Lemma open_frame `{Msgpack} `{Classes} (path : string) (files : list string) :
  forall w w' r, for_each (load_table path) files w = (r, w') ->
  disk w' = disk w /\ objects w ⊆ objects w'
  /\ db_path (db w') = db_path (db w)
  /\ bufferpool (db w') = bufferpool (db w).
Proof.
  induction files as [|f files IH]; intros w w' r.
  - by intros [= <- <-].
  - rewrite for_each_cons. destruct (load_table path f w) as [r1 w1] eqn:Hl.
    apply load_table_frame in Hl as (Hd & Ho & Hp & Hb).
    destruct r1 as [[]| |]; try (by intros [= <- <-]).
    intros (Hd' & Ho' & Hp' & Hb')%IH.
    split; [congruence|]. split; [by etrans|]. split; congruence.
Qed.

(** A name whose file is absent or empty is left as it is. *)
Lemma open_loop_skips `{Msgpack} `{Classes} (path : string)
    (files : list string) :
  forall w w', for_each (load_table path) files w = (Ok (), w') ->
  forall name,
    tbl_file name ∉ files \/ read_file (disk w) path (tbl_file name) = Ok [] ->
    dict_get str_eqb (tables (db w')) name
    = dict_get str_eqb (tables (db w)) name.
Proof.
  induction files as [|f files IH]; intros w w'.
  - by intros [= <-].
  - rewrite for_each_cons.
    destruct (load_table path f w) as [[[]| |] w1] eqn:Hl; try done.
    intros Hrest name Hname.
    pose proof (load_table_keeps _ _ _ _ _ Hl) as [Hd1 _].
    rewrite (IH _ _ Hrest name).
    + destruct (decide (tbl_file name = f)) as [<-|Hne].
      * destruct Hname as [Hnot|Hempty]; [exfalso; apply Hnot; left|].
        rewrite (load_table_empty _ _ _ (endswith_tbl_file name) Hempty) in Hl.
        by injection Hl as <-.
      * by apply (load_table_grows _ _ _ _ Hl).
    + rewrite Hd1. destruct Hname as [Hnot|Hempty]; [left|by right].
      intros Hin. apply Hnot. by right.
Qed.

(** The names [open] registers. *)
Lemma open_names `{Msgpack} `{Classes} (path : string)
    (w : world) (files : directory) :
  dict_get str_eqb (disk w) path = Some files ->
  NoDup files.*1 ->
  Forall (fun f => endswith f ".tbl" = true ->
            read_file (disk w) path f = Ok []
            \/ exists data table, read_file (disk w) path f = Ok data
                                  /\ load data = Ok table) files.*1 ->
  exists w',
    Database_open path w = (Ok (), w')
    /\ forall name,
         match read_file (disk w) path (tbl_file name) with
         | Ok (b :: data) =>
             exists t v,
               load (b :: data) = Ok v
               /\ Database_get_table name w' = (Ok (Some t), w')
               /\ value_of (objects w') t = Some v
         | _ => Database_get_table name w' = (Ok None, w')
         end.
Proof.
  intros Hdir Hnd Hcond.
  assert (Hls : listdir (disk w) path = files.*1).
  { unfold listdir. by rewrite Hdir. }
  rewrite <- Hls in Hnd, Hcond.
  destruct (open_loop path (disk w) _ Hnd Hcond
              (with_tables [] (with_path path w)) eq_refl)
    as (w' & Hopen & Hd' & _ & Hkeep & Hloaded).
  exists (print "Database loaded from disk." w'). split.
  { unfold Database_open. cbn [disk with_path]. unfold path_exists.
    rewrite bool_decide_eq_true_2 by (by rewrite Hdir).
    cbn [negb]. cbn [disk with_tables with_path]. by rewrite Hopen. }
  intros name. unfold Database_get_table. cbn [tables db print objects].
  destruct (read_file (disk w) path (tbl_file name)) as [[|b data]| |] eqn:Hr.
  - by rewrite (open_loop_skips _ _ _ _ Hopen name (or_intror Hr)).
  - assert (Hin : tbl_file name ∈ listdir (disk w) path).
    { rewrite Hls. apply read_file_Ok in Hr as (files' & Hdir' & Hfile).
      rewrite Hdir in Hdir'. injection Hdir' as <-.
      by eapply dict_get_Some_key. }
    rewrite Forall_forall in Hcond.
    destruct (Hcond _ Hin (endswith_tbl_file name))
      as [Hempty|(data' & v & Hr' & Hl)]; [congruence|].
    rewrite Hr in Hr'. injection Hr' as <-.
    destruct (Hloaded (tbl_file name) (b :: data) v Hin
                (endswith_tbl_file name) Hr) as (t & Ht & Hval); [done|done|].
    rewrite drop_last4_tbl_file in Ht. exists t, v. rewrite Ht.
    split; [done|]. split; [done|]. by apply Hval.
  - rewrite Hkeep; [done|]. rewrite Hls. unfold read_file in Hr.
    rewrite Hdir in Hr.
    destruct (dict_get str_eqb files (tbl_file name)) eqn:Hf; [done|].
    by apply dict_get_None_key.
  - unfold read_file in Hr.
    destruct (dict_get str_eqb (disk w) path) as [fl|]; [|done].
    by destruct (dict_get str_eqb fl (tbl_file name)).
Qed.

(** ** The [default] hook *)

Lemma pop_db_none (h : heap) (items : list (addr * addr)) :
  filter (fun kv => Hook.is_db h kv.1 = true) items = [] ->
  filter (fun kv => Hook.is_db h kv.1 = false) items = items
  /\ Hook.pop_db h items = items.
Proof.
  induction items as [|[k v] r IH]; [done|]. rewrite !filter_cons. simpl.
  destruct (Hook.is_db h k) eqn:Hk.
  - by rewrite decide_True.
  - rewrite decide_False by done. rewrite decide_True by done.
    by intros [-> ->]%IH.
Qed.

Lemma pop_db_filter (h : heap) (items : list (addr * addr)) :
  (length (filter (fun kv => Hook.is_db h kv.1 = true) items) <= 1)%nat ->
  Hook.pop_db h items = filter (fun kv => Hook.is_db h kv.1 = false) items.
Proof.
  induction items as [|[k v] r IH]; [done|]. rewrite !filter_cons. simpl.
  destruct (Hook.is_db h k) eqn:Hk.
  - rewrite decide_True by done. rewrite decide_False by done. simpl.
    intros Hlen.
    destruct (pop_db_none h r) as [-> _]; [|done].
    apply nil_length_inv. simpl in Hlen. lia.
  - rewrite decide_False by done. rewrite decide_True by done.
    intros Hlen. by rewrite IH.
Qed.

(** ** A close and an open *)

Lemma restart `{Msgpack} `{Classes}
    (table_init index_init : list (atom * pyval))
    (w : world) (path : string) (files : directory) :
  Table_default = Ok table_init -> Index_default = Ok index_init ->
  db_path (db w) = Some path -> path <> "" ->
  dict_get str_eqb (disk w) path = Some files ->
  NoDup files.*1 ->
  (forall f, f ∈ files.*1 -> endswith f ".tbl" = true ->
             f ∈ tbl_file <$> (tables (db w)).*1) ->
  NoDup (tables (db w)).*1 ->
  Forall (fun e => exists v b, value_of (objects w) e.2 = Some v
                               /\ storable v = true
                               /\ save (objects w) e.2 = Ok b)
         (tables (db w)) ->
  exists w1,
    Database_close w = (Ok (), w1)
    /\ forall w0, disk w0 = disk w1 ->
       exists w2,
         Database_open path w0 = (Ok (), w2)
         /\ forall name,
              match dict_get str_eqb (tables (db w)) name with
              | Some t =>
                  exists v t',
                    value_of (objects w) t = Some v
                    /\ Database_get_table name w2 = (Ok (Some t'), w2)
                    /\ value_of (objects w2) t'
                       = Some (reloaded table_init index_init v)
              | None => Database_get_table name w2 = (Ok None, w2)
              end.
Proof.
  intros Htd Hid Hpath Hne Hdir Hndf Hown Hndt Htabs.
  set (blob_of := fun e : string * addr =>
         match save (objects w) e.2 with Ok b => b | _ => [] end).
  assert (Hsaves : Forall2 (fun e b => save (objects w) e.2 = Ok b)
                     (tables (db w)) (blob_of <$> tables (db w))).
  { apply Forall2_fmap_r, Forall_Forall2_diag.
    eapply Forall_impl; [exact Htabs|].
    intros e (v & b & _ & _ & Hs). unfold blob_of. simpl. by rewrite Hs. }
  destruct (close_loop path (objects w) _ _ Hsaves Hndt w eq_refl)
    as (fs' & Hclose & Hreads & [files' Hdir'] & Hother); [by rewrite Hdir|].
  pose proof (close_listing path _ _ _ Hclose) as [Hin Hnd].
  cbn [disk with_disk] in Hin, Hnd.
  assert (Hls : listdir (disk w) path = files.*1).
  { unfold listdir. by rewrite Hdir. }
  assert (Hls' : listdir fs' path = files'.*1).
  { unfold listdir. by rewrite Hdir'. }
  rewrite Hls in Hin, Hnd. rewrite Hls' in Hin, Hnd. specialize (Hnd Hndf).
  assert (Hfiles : Forall (fun e => exists v b,
            value_of (objects w) e.2 = Some v
            /\ read_file fs' path (tbl_file e.1) = Ok b
            /\ load b = Ok (reloaded table_init index_init v)
            /\ b <> []) (tables (db w))).
  { apply Forall2_fmap_r, Forall2_same in Hreads.
    rewrite Forall_forall in Htabs, Hreads. apply Forall_forall.
    intros e He. destruct (Htabs e He) as (v & b & Hv & Hd & Hs).
    specialize (Hreads e He). simpl in Hreads. unfold blob_of in Hreads.
    rewrite Hs in Hreads. exists v, b.
    split; [done|]. split; [done|].
    split; [by eapply load_save_back|by eapply save_nonempty]. }
  exists (with_disk fs' w). split.
  { unfold Database_close. by rewrite Hpath, str_eqb_ne. }
  intros w0 Hdisk0. cbn [disk with_disk] in Hdisk0.
  rewrite Forall_forall in Hfiles.
  destruct (open_names path w0 files') as (w2 & Hopen & Hnames).
  { by rewrite Hdisk0. }
  { done. }
  { rewrite Hdisk0. apply Forall_forall. intros f Hf He. right.
    assert (Hreg : f ∈ tbl_file <$> (tables (db w)).*1).
    { apply Hin in Hf as [Hf|Hf]; [by apply Hown|done]. }
    apply list_elem_of_fmap in Hreg as (name & -> & Hname).
    apply list_elem_of_fmap in Hname as ([name' t] & -> & Hent).
    destruct (Hfiles _ Hent) as (v & b & _ & Hr & Hl & _). eauto. }
  exists w2. split; [done|]. intros name. specialize (Hnames name).
  rewrite Hdisk0 in Hnames.
  destruct (dict_get str_eqb (tables (db w)) name) as [t|] eqn:Hget.
  - apply dict_get_elem in Hget.
    destruct (Hfiles _ Hget) as (v & b & Hv & Hr & Hl & Hnb).
    cbn [fst snd] in *. rewrite Hr in Hnames.
    destruct b as [|b0 b]; [done|].
    destruct Hnames as (t' & v' & Hl' & Hg & Hval).
    exists v, t'. split; [done|]. split; [done|]. congruence.
  - assert (Hnot : name ∉ (tables (db w)).*1) by by apply dict_get_None_key.
    rewrite Hother in Hnames.
    2: { right. by intros (n & ->%tbl_file_inj & Hn)%list_elem_of_fmap. }
    unfold read_file in Hnames. rewrite Hdir in Hnames.
    destruct (dict_get str_eqb files (tbl_file name)) as [data|] eqn:Hf;
      [|done].
    exfalso. apply dict_get_Some_key in Hf.
    apply Hown in Hf; [|apply endswith_tbl_file].
    by apply list_elem_of_fmap in Hf as (n & ->%tbl_file_inj & Hn).
Qed.

(** ** An open and a close *)

Lemma dict_get_of_elem {V} (d : list (string * V)) (k : string) (v : V) :
  NoDup d.*1 -> (k, v) ∈ d -> dict_get str_eqb d k = Some v.
Proof.
  induction d as [|[k0 v0] d IH]; csimpl; [by intros _ ?%elem_of_nil|].
  intros [Hk Hd]%NoDup_cons [[= <- <-]|Hin]%elem_of_cons.
  - by rewrite str_eqb_refl.
  - rewrite str_eqb_ne; [auto|]. intros ->. apply Hk.
    apply list_elem_of_fmap. by exists (k, v).
Qed.

Lemma open_loop_NoDup `{Msgpack} `{Classes} (path : string)
    (files : list string) :
  forall w w' r, for_each (load_table path) files w = (r, w') ->
  NoDup (tables (db w)).*1 -> NoDup (tables (db w')).*1.
Proof.
  induction files as [|f files IH]; intros w w' r.
  - by intros [= <- <-].
  - rewrite for_each_cons. destruct (load_table path f w) as [r1 w1] eqn:Hl.
    intros Hrest Hnd. assert (Hnd1 : NoDup (tables (db w1)).*1).
    { revert Hl. unfold load_table.
      destruct (endswith f ".tbl"); [|by intros [= <- <-]].
      destruct (read_file (disk w) path f) as [[|b data]| |];
        try by intros [= <- <-].
      destruct (load (b :: data)) as [table| |]; try by intros [= <- <-].
      destruct (alloc table (objects w)) as [a h]. intros [= <- <-].
      cbn [tables db with_tables]. by apply dict_set_NoDup. }
    destruct r1 as [[]| |]; try (by injection Hrest as <- <-).
    by eapply IH.
Qed.

(** Loading what was packed from a durable value. *)
Lemma load_packed `{Msgpack} `{Classes} (v : pyval) (b : bytes) :
  durable v = true -> packb (ser v) = Ok b -> load b = Ok v.
Proof.
  intros Hd Hb. unfold load.
  rewrite (unpackb_packb _ _ (durable_wire v Hd) Hb). simpl.
  by apply rehydrate_ser.
Qed.

(** ** Keys that cannot be hashed, and attribute names *)

(** A key that is a container or an instance converts to a list or a
    dict, or not at all. *)
Lemma convert_unhashable_key (h : heap) (n : nat) (k : addr)
    (seen : gset addr) :
  key_object h k = false -> k ∉ seen ->
  match convert_to_serializable n h k seen with
  | (Ok v, _) => exists e, as_key v = Raise e
  | _ => True
  end.
Proof.
  intros Hk Hnot. destruct n as [|n]; [done|]. simpl.
  rewrite decide_False by done. unfold key_object in Hk.
  destruct (deref h k) as [x|items|items|items|items|c d|t r]; try done.
  1-3: destruct (conv_list _ items _) as [[l| |] s]; try done; by eexists.
  - destruct (conv_items _ items _ _) as [[l| |] s]; try done; by eexists.
  - destruct (convert_to_serializable n h d _) as [[st| |] s]; try done.
    by eexists.
Qed.

Lemma conv_items_unhashable rec items acc seen (k x : addr) :
  (forall y, settled_with (fun _ => True) seen (rec y seen)) ->
  (k, x) ∈ items ->
  match rec k seen with
  | (Ok v, _) => exists e, as_key v = Raise e
  | _ => True
  end ->
  exists e s, conv_items rec items acc seen = (Raise e, s).
Proof.
  intros Hrec Hin Hk. revert acc.
  induction items as [|[k0 x0] r IH]; intros acc; [by apply elem_of_nil in Hin|].
  simpl. pose proof (Hrec k0) as Hk0. pose proof (Hrec x0) as Hx0.
  destruct (rec k0 seen) as [[k0'| |] s0] eqn:Ek0; simpl in Hk0;
    [|by eexists _, _|done].
  destruct Hk0 as [-> _].
  destruct (rec x0 seen) as [[x0'| |] s1] eqn:Ex0; simpl in Hx0;
    [|by eexists _, _|done].
  destruct Hx0 as [-> _].
  apply elem_of_cons in Hin as [[= <- <-]|Hin].
  - rewrite Ek0 in Hk. destruct Hk as [e ->]. by eexists _, _.
  - destruct (as_key k0') as [ka| |] eqn:Eka; [|by eexists _, _|].
    + by apply IH.
    + by destruct k0'.
Qed.

Lemma key_eqb_str (k : atom) (s : string) :
  key_eqb k (AStr s) = true -> k = AStr s.
Proof.
  destruct k as [|[]| | |t]; simpl; try done.
  by intros ->%bool_decide_eq_true_1.
Qed.

Lemma dict_get_set_str {V} (d : list (atom * V)) (k s : string) (v : V) :
  dict_get key_eqb (dict_set key_eqb d (AStr k) v) (AStr s)
  = if bool_decide (k = s) then Some v else dict_get key_eqb d (AStr s).
Proof.
  induction d as [|[k0 v0] d IH]; simpl; [done|].
  destruct (key_eqb k0 (AStr k)) eqn:E; simpl.
  - apply key_eqb_str in E. subst k0. simpl.
    by destruct (bool_decide (k = s)).
  - destruct (key_eqb k0 (AStr s)) eqn:E'; [|done].
    apply key_eqb_str in E'. subst k0. simpl in E.
    apply bool_decide_eq_false_1 in E.
    by rewrite (bool_decide_eq_false_2 (k = s)) by congruence.
Qed.

Lemma dict_update_get_str {V} (init st : list (atom * V)) (s : string) :
  Forall (fun k => exists t, k = AStr t) st.*1 -> NoDup st.*1 ->
  dict_get key_eqb (dict_update key_eqb init st) (AStr s)
  = match dict_get key_eqb st (AStr s) with
    | Some v => Some v
    | None => dict_get key_eqb init (AStr s)
    end.
Proof.
  unfold dict_update. revert init.
  induction st as [|[k v] st IH]; intros init; csimpl; [done|].
  intros [[t ->] Hstr]%Forall_cons [Hk Hnd]%NoDup_cons.
  rewrite IH by done. rewrite dict_get_set_str. simpl.
  destruct (bool_decide (t = s)) eqn:E; [|done].
  apply bool_decide_eq_true_1 in E. subst t.
  destruct (dict_get key_eqb st (AStr s)) as [v'|] eqn:Hg; [|done].
  exfalso. apply Hk. clear -Hg. induction st as [|[k0 v0] st IH]; [done|].
  simpl in Hg. csimpl. destruct (key_eqb k0 (AStr s)) eqn:E.
  - apply key_eqb_str in E. subst. left.
  - right. auto.
Qed.

(** * Part IV: the properties of the design document *)

(** ** Tables and databases to try them on *)

(** A table as [create_table("Grades", 4, 0)] makes it. *)
Definition grades : pyval := PInst TableClass (Table_fields (AStr "Grades") 4 0).

(** The same table after an insert and the delete of the record: the key
    is gone from the index, the base page (an object of class [Page]
    holding a byte buffer) is still there. *)
Definition PageClass : pyclass := {| cname := "Page"; ckind := KPlain |}.

Definition grades_page : pyval :=
  PInst PageClass
    [(AStr "num_records", PAtom (AInt 1));
     (AStr "data", POpaque "bytearray" "bytearray(b'\x01')")].

Definition grades_used : pyval :=
  PInst TableClass
    [(AStr "name", PStr "Grades");
     (AStr "num_columns", PAtom (AInt 4));
     (AStr "key", PAtom (AInt 0));
     (AStr "next_rid", PAtom (AInt 1));
     (AStr "index", PInst IndexClass Index_fields);
     (AStr "base_pages", PList [grades_page]);
     (AStr "tail_pages", PList [])].

(** What a save and a load make of it: the page is a plain mapping and
    its buffer a string. *)
Definition grades_reloaded : pyval :=
  PInst TableClass
    [(AStr "name", PStr "Grades");
     (AStr "num_columns", PAtom (AInt 4));
     (AStr "key", PAtom (AInt 0));
     (AStr "next_rid", PAtom (AInt 1));
     (AStr "index", PInst IndexClass Index_fields);
     (AStr "base_pages",
      PList [tagged "Page"
               (PDict [(AStr "num_records", PAtom (AInt 1));
                       (AStr "data", PStr "bytearray(b'\x01')")])]);
     (AStr "tail_pages", PList [])].

Definition grades_heap : heap := Eval vm_compute in (alloc grades ∅).2.

Definition grades_addr : addr := Eval vm_compute in (alloc grades ∅).1.

Definition used_heap : heap := Eval vm_compute in (alloc grades_used ∅).2.

Definition used_addr : addr := Eval vm_compute in (alloc grades_used ∅).1.

Definition grades_blob : bytes :=
  Eval vm_compute in
    match save grades_heap grades_addr with Ok b => b | _ => [] end.

(** A table that refers to itself through a shared cache: the table's
    [bufferpool] attribute is the pool, whose [owner] attribute is the
    table. *)
Definition PoolClass : pyclass := {| cname := "Bufferpool"; ckind := KPlain |}.

Definition cyclic_heap : heap :=
  list_to_map
    [(1%positive, OInst TableClass 2%positive);
     (2%positive, ODict [(3%positive, 4%positive); (5%positive, 6%positive)]);
     (3%positive, OAtom (AStr "name"));
     (4%positive, OAtom (AStr "Grades"));
     (5%positive, OAtom (AStr "bufferpool"));
     (6%positive, OInst PoolClass 7%positive);
     (7%positive, ODict [(8%positive, 1%positive)]);
     (8%positive, OAtom (AStr "owner"))].

(** A database opened on [db], holding the table [grades], whose pool has
    one modified page. *)
Definition dirty_frame : frame :=
  {| page_id := "Grades/0/base/0"; page_bytes := []; pin_count := 0;
     dirty := true; recency := 1 |}.

Definition dirty_world : world :=
  {| objects := grades_heap;
     db := {| tables := [("Grades", grades_addr)];
              db_path := Some "db";
              bufferpool := {| capacity := 10; frames := [dirty_frame] |} |};
     disk := [("db", [])];
     console := [] |}.

(** The database of [dirty_world] after its close. *)
Definition saved_world : world :=
  {| objects := grades_heap;
     db := {| tables := [("Grades", grades_addr)];
              db_path := Some "db";
              bufferpool := Bufferpool_new 10 |};
     disk := [("db", [("Grades.tbl", grades_blob)])];
     console := [] |}.

(** A database opened on [db] that holds the table [grades_used]. *)
Definition used_world : world :=
  {| objects := used_heap;
     db := {| tables := [("Grades", used_addr)];
              db_path := Some "db";
              bufferpool := Bufferpool_new 10 |};
     disk := [("db", [])];
     console := [] |}.

(** Two tables after inserts and an update: [Grades] with two records,
    [Courses] with one, their pages lists of values and their indexes
    keyed by strings; the directory holds a file that is no table. *)
Definition grades_filled : pyval :=
  PInst TableClass
    [(AStr "name", PStr "Grades");
     (AStr "num_columns", PAtom (AInt 4));
     (AStr "key", PAtom (AInt 0));
     (AStr "next_rid", PAtom (AInt 2));
     (AStr "index",
      PInst IndexClass
        [(AStr "entries",
          PDict [(AStr "ann", PAtom (AInt 0)); (AStr "bob", PAtom (AInt 1))])]);
     (AStr "base_pages",
      PList [PList [PStr "ann"; PAtom (AInt 90); PAtom (AInt 85);
                    PAtom (AFloat 0)];
             PList [PStr "bob"; PAtom (AInt 70); PAtom ANone;
                    PAtom (ABool true)]]);
     (AStr "tail_pages",
      PList [PList [PAtom (AInt 0); PAtom (AInt 95)]])].

Definition courses_filled : pyval :=
  PInst TableClass
    [(AStr "name", PStr "Courses");
     (AStr "num_columns", PAtom (AInt 2));
     (AStr "key", PAtom (AInt 0));
     (AStr "next_rid", PAtom (AInt 1));
     (AStr "index",
      PInst IndexClass [(AStr "entries", PDict [(AStr "ecs165", PAtom (AInt 0))])]);
     (AStr "base_pages", PList [PList [PStr "ecs165"; PStr "Databases"]]);
     (AStr "tail_pages", PList [])].

Definition filled_heap : heap :=
  Eval vm_compute in
    (alloc courses_filled (alloc grades_filled ∅).2).2.

Definition filled_grades : addr :=
  Eval vm_compute in (alloc grades_filled ∅).1.

Definition filled_courses : addr :=
  Eval vm_compute in (alloc courses_filled (alloc grades_filled ∅).2).1.

Definition filled_grades_blob : bytes :=
  Eval vm_compute in
    match save filled_heap filled_grades with Ok b => b | _ => [] end.

Definition filled_courses_blob : bytes :=
  Eval vm_compute in
    match save filled_heap filled_courses with Ok b => b | _ => [] end.

Definition filled_world : world :=
  {| objects := filled_heap;
     db := {| tables := [("Grades", filled_grades); ("Courses", filled_courses)];
              db_path := Some "db";
              bufferpool := Bufferpool_new 10 |};
     disk := [("db", [("notes.txt", [])])];
     console := [] |}.

(** A table [T] saved earlier, whose page directory has since got a key
    that is a tuple: the serializer turns the key into a list, which
    cannot be a dict key. *)
Definition tuple_key_world : world :=
  {| objects :=
       list_to_map
         [(1%positive, OInst TableClass 2%positive);
          (2%positive, ODict [(3%positive, 4%positive)]);
          (3%positive, OAtom (AStr "page_directory"));
          (4%positive, ODict [(5%positive, 6%positive)]);
          (5%positive, OTuple [7%positive; 7%positive]);
          (6%positive, OAtom (AInt 1));
          (7%positive, OAtom (AInt 0))];
     db := {| tables := [("T", 1%positive)];
              db_path := Some "db";
              bufferpool := Bufferpool_new 10 |};
     disk := [("db", [("T.tbl", grades_blob)])];
     console := [] |}.

(** A directory with an empty table file and a saved table. *)
Definition half_world : world :=
  {| objects := ∅;
     db := Database_init 10;
     disk := [("db", [("Broken.tbl", []); ("Grades.tbl", grades_blob);
                      ("notes.txt", [])])];
     console := [] |}.

Definition fresh_world : world :=
  {| objects := ∅; db := Database_init 10; disk := []; console := [] |}.

(** A database with three tables, the second of which cannot be
    converted; the third was saved earlier. *)
Definition mixed_heap : heap :=
  Eval vm_compute in (alloc grades (objects tuple_key_world)).2.

Definition mixed_grades : addr :=
  Eval vm_compute in (alloc grades (objects tuple_key_world)).1.

Definition mixed_world : world :=
  {| objects := mixed_heap;
     db := {| tables := [("Grades", mixed_grades); ("T", 1%positive);
                         ("Later", mixed_grades)];
              db_path := Some "db";
              bufferpool := Bufferpool_new 10 |};
     disk := [("db", [("Later.tbl", [xc0]); ("notes.txt", [])])];
     console := [] |}.

(** A directory whose second table file is not a msgpack value. *)
Definition corrupt_world : world :=
  {| objects := ∅;
     db := {| tables := [("Old", 1%positive)]; db_path := None;
              bufferpool := Bufferpool_new 10 |};
     disk := [("db", [("Grades.tbl", grades_blob); ("Bad.tbl", [xc1])])];
     console := [] |}.

(** A table that refers to the database that owns it. *)
Definition owned_heap : heap :=
  list_to_map
    [(1%positive, OInst TableClass 2%positive);
     (2%positive, ODict [(3%positive, 4%positive); (5%positive, 6%positive)]);
     (3%positive, OAtom (AStr "name"));
     (4%positive, OAtom (AStr "Grades"));
     (5%positive, OAtom (AStr "db"));
     (6%positive, OInst {| cname := "Database"; ckind := KPlain |} 7%positive);
     (7%positive, ODict [])].

(** Classes whose [Table] cannot be constructed without arguments. *)
Definition strict_classes : Classes := {|
  Table_new name num_columns key_index :=
    Ok (Table_fields (AStr name) num_columns key_index);
  Table_default :=
    Raise (TypeError "Table.__init__() missing 3 required positional arguments");
  Index_default := Ok Index_fields
|}.

(** ** C1: saving and loading a table *)

(** C1 (as amended): let the table names be file names, let the
    database have a directory that lists each file once and holds no
    table file other than those of the registered tables, and let every
    registered table have a durable value (scalars, lists, string-keyed
    dicts and instances of [Table] and [Index]) that packs.  Then [close]
    succeeds, and [open] on the directory it leaves,
    from any database object, succeeds; for every name registered before
    the close, the table's file holds the packed conversion of the
    table, loading these bytes (rehydrate after unpack) gives the table's
    value back, and [get_table] returns a table with exactly this value;
    for every other name [get_table] returns [None]. *)
Theorem close_open_restores `{Msgpack} `{Classes}
    (w : world) (path : string) (files : directory) :
  forallb file_name (tables (db w)).*1 = true ->
  db_path (db w) = Some path -> path <> "" ->
  dict_get str_eqb (disk w) path = Some files ->
  NoDup files.*1 ->
  (forall f, f ∈ files.*1 -> endswith f ".tbl" = true ->
             f ∈ tbl_file <$> (tables (db w)).*1) ->
  NoDup (tables (db w)).*1 ->
  Forall (fun e => exists v b, value_of (objects w) e.2 = Some v
                               /\ durable v = true
                               /\ save (objects w) e.2 = Ok b)
         (tables (db w)) ->
  exists w1,
    Database_close w = (Ok (), w1)
    /\ forall w0, disk w0 = disk w1 ->
       exists w2,
         Database_open path w0 = (Ok (), w2)
         /\ forall name,
              match dict_get str_eqb (tables (db w)) name with
              | Some t =>
                  exists v b t',
                    value_of (objects w) t = Some v
                    /\ read_file (disk w1) path (tbl_file name) = Ok b
                    /\ save (objects w) t = Ok b
                    /\ load b = Ok v
                    /\ Database_get_table name w2 = (Ok (Some t'), w2)
                    /\ value_of (objects w2) t' = Some v
              | None => Database_get_table name w2 = (Ok None, w2)
              end.
Proof.
  intros _ Hpath Hne Hdir Hndf Hown Hndt Htabs.
  set (blob_of := fun e : string * addr =>
         match save (objects w) e.2 with Ok b => b | _ => [] end).
  assert (Hsaves : Forall2 (fun e b => save (objects w) e.2 = Ok b)
                     (tables (db w)) (blob_of <$> tables (db w))).
  { apply Forall2_fmap_r, Forall_Forall2_diag.
    eapply Forall_impl; [exact Htabs|].
    intros e (v & b & _ & _ & Hs). unfold blob_of. simpl. by rewrite Hs. }
  destruct (close_loop path (objects w) _ _ Hsaves Hndt w eq_refl)
    as (fs' & Hclose & Hreads & Hdir' & _); [by rewrite Hdir|].
  pose proof (close_listing path _ _ _ Hclose) as [Hin Hnd].
  cbn [disk with_disk] in Hin, Hnd.
  assert (Hls : listdir (disk w) path = files.*1).
  { unfold listdir. by rewrite Hdir. }
  rewrite Hls in Hin, Hnd. specialize (Hnd Hndf).
  assert (Hfiles : Forall (fun e => exists v b,
            value_of (objects w) e.2 = Some v
            /\ read_file fs' path (tbl_file e.1) = Ok b
            /\ save (objects w) e.2 = Ok b
            /\ load b = Ok v /\ b <> []) (tables (db w))).
  { apply Forall2_fmap_r, Forall2_same in Hreads.
    rewrite Forall_forall in Htabs, Hreads. apply Forall_forall.
    intros e He. destruct (Htabs e He) as (v & b & Hv & Hd & Hs).
    specialize (Hreads e He). simpl in Hreads. unfold blob_of in Hreads.
    rewrite Hs in Hreads. exists v, b.
    split; [done|]. split; [done|]. split; [done|].
    split; [by eapply load_save|by eapply save_nonempty]. }
  exists (with_disk fs' w). split.
  { unfold Database_close. by rewrite Hpath, str_eqb_ne. }
  intros w0 Hdisk0. cbn [disk with_disk] in Hdisk0.
  assert (Hcond : Forall (fun f => endswith f ".tbl" = true ->
            read_file fs' path f = Ok []
            \/ exists data table, read_file fs' path f = Ok data
                                  /\ load data = Ok table)
            (listdir fs' path)).
  { apply Forall_forall. intros f Hf He. right.
    assert (Hreg : f ∈ tbl_file <$> (tables (db w)).*1).
    { apply Hin in Hf as [Hf|Hf]; [by apply Hown|done]. }
    apply list_elem_of_fmap in Hreg as (name & -> & Hname).
    apply list_elem_of_fmap in Hname as ([name' t] & -> & Hent).
    rewrite Forall_forall in Hfiles.
    destruct (Hfiles _ Hent) as (v & b & _ & Hr & _ & Hl & _). eauto. }
  destruct (open_loop path fs' _ Hnd Hcond
              (with_tables [] (with_path path w0)) Hdisk0)
    as (w' & Hopen & Hd' & Hsub & Hkeep & Hloaded).
  exists (print "Database loaded from disk." w'). split.
  { unfold Database_open. cbn [disk with_path]. rewrite Hdisk0.
    unfold path_exists. rewrite bool_decide_eq_true_2 by done.
    cbn [negb]. cbn [disk with_tables with_path]. rewrite Hdisk0.
    by rewrite Hopen. }
  intros name. unfold Database_get_table. cbn [tables db print objects].
  destruct (dict_get str_eqb (tables (db w)) name) as [t|] eqn:Hget.
  - apply dict_get_elem in Hget. rewrite Forall_forall in Hfiles.
    destruct (Hfiles _ Hget) as (v & b & Hv & Hr & Hs & Hl & Hnb).
    cbn [fst snd] in *.
    destruct (Hloaded (tbl_file name) b v) as (t' & Ht' & Hval); try done.
    { apply Hin. right. apply list_elem_of_fmap. exists name. split; [done|].
      apply list_elem_of_fmap. by exists (name, t). }
    { apply endswith_tbl_file. }
    rewrite drop_last4_tbl_file in Ht'. exists v, b, t'. rewrite Ht'.
    repeat (split; [done|]). by apply Hval.
  - rewrite Hkeep; [done|]. intros Hf. apply Hin in Hf as [Hf|Hf].
    + apply Hown in Hf; [|apply endswith_tbl_file].
      apply list_elem_of_fmap in Hf as (name' & ->%tbl_file_inj & Hname).
      apply dict_get_is_Some in Hname. rewrite Hget in Hname.
      by destruct Hname.
    + apply list_elem_of_fmap in Hf as (name' & ->%tbl_file_inj & Hname).
      apply dict_get_is_Some in Hname. rewrite Hget in Hname.
      by destruct Hname.
Qed.

Lemma close_open_restores_witness :
  exists w1 w2 g c,
    Database_close filled_world = (Ok (), w1)
    /\ Database_open "db" w1 = (Ok (), w2)
    /\ Database_get_table "Grades" w2 = (Ok (Some g), w2)
    /\ value_of (objects w2) g = Some grades_filled
    /\ Database_get_table "Courses" w2 = (Ok (Some c), w2)
    /\ value_of (objects w2) c = Some courses_filled
    /\ Database_get_table "notes" w2 = (Ok None, w2).
Proof.
  destruct (close_open_restores filled_world "db" [("notes.txt", [])])
    as (w1 & Hclose & Hopen).
  - vm_compute. reflexivity.
  - reflexivity.
  - discriminate.
  - reflexivity.
  - apply NoDup_singleton.
  - intros f Hf He. exfalso. apply list_elem_of_singleton in Hf. subst f.
    revert He. vm_compute. discriminate.
  - change (NoDup ["Grades"; "Courses"]).
    repeat (apply NoDup_cons; split;
            [intros Hin;
             repeat (apply elem_of_cons in Hin as [Hin|Hin]; [discriminate|]);
             by apply elem_of_nil in Hin|]).
    apply NoDup_nil_2.
  - apply Forall_cons_2; [|apply Forall_cons_2; [|apply Forall_nil_2]].
    + exists grades_filled, filled_grades_blob.
      split; [vm_compute; reflexivity|]. split; vm_compute; reflexivity.
    + exists courses_filled, filled_courses_blob.
      split; [vm_compute; reflexivity|]. split; vm_compute; reflexivity.
  - destruct (Hopen w1 eq_refl) as (w2 & Hopen2 & Hall).
    pose proof (Hall "Grades") as Hg. pose proof (Hall "Courses") as Hc.
    pose proof (Hall "notes") as Hn.
    change (dict_get str_eqb (tables (db filled_world)) "Grades")
      with (Some filled_grades) in Hg.
    change (dict_get str_eqb (tables (db filled_world)) "Courses")
      with (Some filled_courses) in Hc.
    change (dict_get str_eqb (tables (db filled_world)) "notes")
      with (@None addr) in Hn.
    destruct Hg as (vg & bg & g & Hvg & _ & _ & _ & Hgetg & Hvalg).
    destruct Hc as (vc & bc & c & Hvc & _ & _ & _ & Hgetc & Hvalc).
    exists w1, w2, g, c. split; [exact Hclose|]. split; [exact Hopen2|].
    split; [exact Hgetg|]. split.
    { rewrite Hvalg, <- Hvg. vm_compute. reflexivity. }
    split; [exact Hgetc|]. split; [|exact Hn].
    rewrite Hvalc, <- Hvc. vm_compute. reflexivity.
Defined.

(** The claim as stated fails on a table that holds a page: the
    composition, and a close followed by an open, turn the page into a
    plain mapping. *)
Lemma save_load_page_counterexample :
  value_of used_heap used_addr = Some grades_used
  /\ (b ← save used_heap used_addr; load b) = Ok grades_reloaded
  /\ (let '(closed, w1) := Database_close used_world in
      let '(opened, w2) := Database_open "db" w1 in
      (closed, opened,
       t ← dict_get str_eqb (tables (db w2)) "Grades"; value_of (objects w2) t))
     = (Ok (), Ok (), Some grades_reloaded)
  /\ grades_reloaded <> grades_used.
Proof.
  split; [vm_compute; reflexivity|]. split; [vm_compute; reflexivity|].
  split; [vm_compute; reflexivity|]. discriminate.
Qed.

(** Two more values outside the durable ones.  A tuple comes back as a
    list; a dict with an integer key is saved, and the saved bytes are
    refused by [unpackb], which accepts string keys only. *)
Example tuple_comes_back_as_list :
  (let '(a, h) := alloc (PTuple [PAtom (AInt 1); PAtom (AInt 2)]) ∅ in
   b ← save h a; load b)
  = Ok (PList [PAtom (AInt 1); PAtom (AInt 2)]).
Proof. vm_compute. reflexivity. Qed.

Example int_keyed_dict_not_loaded :
  (let '(a, h) := alloc (PDict [(AInt 7, PAtom (AInt 0))]) ∅ in
   match save h a with
   | Ok b => match load b with Raise (ValueError _) => true | _ => false end
   | _ => false
   end) = true.
Proof. vm_compute. reflexivity. Qed.

(** ** C2: the walk terminates, with a bounded result *)

(** C2 (as amended): for every object graph, every object in it and
    every [seen] set, the walk terminates: a budget larger than the
    number of objects not yet seen is never exhausted.  An object
    already in [seen] yields the placeholder, and nothing is visited
    below it.  The walk either returns or raises the [TypeError] of a
    dict key whose conversion cannot be hashed.  Whatever it returns is
    at most as deep as there are objects left to see, and no larger than
    [size_bound]; [seen] is then as it was.  And it does return, rather
    than raise, when every dict key is a basic value or an object without
    [__dict__]. *)
Theorem convert_terminates_bounded (h : heap) (a : addr) (seen : gset addr)
    (fuel : nat) :
  (a ∈ seen ->
     forall n, convert_to_serializable (S n) h a seen
               = (Ok (marker (deref h a)), seen))
  /\ ((size (dom h ∖ seen) < fuel)%nat ->
      match convert_to_serializable fuel h a seen with
      | (Ok v, seen') =>
          seen' = seen
          /\ (depth v <= size (dom h ∖ seen))%nat
          /\ (nodes v <= size_bound (width h) (size (dom h ∖ seen)))%nat
      | (Raise e, _) => unhashable e
      | (OutOfFuel, _) => False
      end)
  /\ ((size (dom h ∖ seen) < fuel)%nat -> hashable_keys h = true ->
      exists v, convert_to_serializable fuel h a seen = (Ok v, seen)).
Proof.
  split; [|split].
  - intros Hin n. simpl. by destruct (decide (a ∈ seen)).
  - intros Hfuel. pose proof (convert_within h fuel a seen Hfuel) as Hw.
    pose proof (convert_leaves h fuel a seen) as Hl.
    destruct (convert_to_serializable fuel h a seen) as [[v| |] s];
      [done| |done]. by destruct Hl.
  - intros Hfuel Hh. by apply convert_returns.
Qed.

Lemma convert_terminates_bounded_witness :
  (size (dom cyclic_heap ∖ ∅) < enough cyclic_heap)%nat
  /\ hashable_keys cyclic_heap = true
  /\ serialize cyclic_heap 1%positive
     = Ok (tagged "Table"
             (PDict [(AStr "name", PStr "Grades");
                     (AStr "bufferpool",
                      tagged "Bufferpool"
                        (PDict [(AStr "owner", PStr "<recursion: Table>")]))]))
  /\ convert_to_serializable 1 cyclic_heap 1%positive {[1%positive]}
     = (Ok (PStr "<recursion: Table>"), {[1%positive]})
  /\ exists v, convert_to_serializable (enough cyclic_heap) cyclic_heap
                 1%positive ∅ = (Ok v, ∅).
Proof.
  assert (Hfuel : (size (dom cyclic_heap ∖ ∅) < enough cyclic_heap)%nat)
    by (vm_compute; lia).
  split; [exact Hfuel|]. split; [vm_compute; reflexivity|].
  split; [vm_compute; reflexivity|]. split.
  - apply (convert_terminates_bounded cyclic_heap 1%positive {[1%positive]} 1).
    by apply elem_of_singleton.
  - apply (convert_terminates_bounded cyclic_heap 1%positive ∅ _); [exact Hfuel|].
    vm_compute. reflexivity.
Defined.

(** The claim as stated fails on a table one of whose dicts has a tuple
    as a key: the walk produces no result, it raises. *)
Lemma convert_tuple_key_counterexample :
  deref (objects tuple_key_world) 5%positive
  = OTuple [7%positive; 7%positive]
  /\ (size (dom (objects tuple_key_world) ∖ ∅)
      < enough (objects tuple_key_world))%nat
  /\ convert_to_serializable (enough (objects tuple_key_world))
       (objects tuple_key_world) 1%positive ∅
     = (Raise (TypeError "unhashable type: 'list'"),
        {[1%positive; 2%positive; 4%positive]}).
Proof.
  split; [reflexivity|]. split; [vm_compute; lia|]. vm_compute. reflexivity.
Qed.

(** ** C3: [close] *)

(** C3 (as amended): [close] raises [ValueError] ("Database path is not
    set.") when [db_path] is [None] or empty, and changes nothing.
    Otherwise, when the table names are file names, the directory exists
    and every table converts and packs, it leaves in each table's file that table's packed bytes, in
    no other file any change, and the database object (its table mapping
    and its buffer pool, which it never flushes) as it was. *)
Theorem close_writes_tables `{Msgpack} (w : world) :
  (path_unset (db_path (db w)) = true ->
     Database_close w = (Raise path_not_set, w))
  /\ (forall (path : string) (blobs : list bytes),
      forallb file_name (tables (db w)).*1 = true ->
      db_path (db w) = Some path -> path <> "" ->
      is_Some (dict_get str_eqb (disk w) path) ->
      NoDup (tables (db w)).*1 ->
      Forall2 (fun e b => save (objects w) e.2 = Ok b) (tables (db w)) blobs ->
      exists w',
        Database_close w = (Ok (), w')
        /\ db w' = db w /\ objects w' = objects w /\ console w' = console w
        /\ Forall2 (fun e b => read_file (disk w') path (tbl_file e.1) = Ok b)
             (tables (db w)) blobs
        /\ forall p n, (p <> path \/ n ∉ tbl_file <$> (tables (db w)).*1) ->
             read_file (disk w') p n = read_file (disk w) p n).
Proof.
  split.
  - unfold Database_close, path_unset.
    destruct (db_path (db w)) as [path|]; [|done]. by intros ->.
  - intros path blobs _ Hpath Hne Hdir Hnd Hblobs. unfold Database_close.
    rewrite Hpath, (str_eqb_ne path "" Hne).
    destruct (close_loop path (objects w) _ blobs Hblobs Hnd w eq_refl Hdir)
      as (fs' & -> & Hreads & _ & Hother).
    exists (with_disk fs' w). by repeat split.
Qed.

Lemma close_writes_tables_witness :
  exists w',
    Database_close dirty_world = (Ok (), w')
    /\ db w' = db dirty_world
    /\ read_file (disk w') "db" "Grades.tbl" = Ok grades_blob.
Proof.
  destruct (close_writes_tables dirty_world) as [_ Hclose].
  destruct (Hclose "db" [grades_blob]) as (w' & Hw & Hdb & _ & _ & Hfiles & _).
  - vm_compute. reflexivity.
  - reflexivity.
  - discriminate.
  - vm_compute. eexists. reflexivity.
  - apply NoDup_singleton.
  - constructor; [vm_compute; reflexivity|constructor].
  - exists w'. split; [exact Hw|]. split; [exact Hdb|].
    inversion Hfiles as [|? ? ? ? Hfile]. exact Hfile.
Defined.

(** The claim as stated fails: [close] succeeds and the pool's modified
    page is still marked dirty; nothing was flushed. *)
Lemma close_no_flush_counterexample :
  exists w',
    Database_close dirty_world = (Ok (), w')
    /\ dirty <$> frames (bufferpool (db w')) = [true]
    /\ bufferpool (db w') <> flush_all (bufferpool (db dirty_world)).
Proof.
  eexists. split; [vm_compute; reflexivity|]. split; [reflexivity|].
  discriminate.
Qed.

(** ** C4 and C5: [create_table] *)

(** C4: [create_table] with a key index outside [0, num_columns) fails
    with [InvalidKeyIndex] and registers no table: nothing is changed.
    The method has no check of its own; it calls the [Table]
    constructor first, and whatever the constructor raises comes out
    before the mapping is assigned.  The constructor is not among the
    sources; in the design document a table cannot be created with such
    a key index, so it is the constructor that refuses it.  With a key
    index in the range the table is registered. *)
Theorem create_table_invalid_key_index (name : string)
    (num_columns key_index : Z) (w : world) :
  (forall (C : Classes) (e : exn),
     @Table_new C name num_columns key_index = Raise e ->
     @Database_create_table C name num_columns key_index w = (Raise e, w))
  /\ (~ (0 <= key_index < num_columns) ->
      @Database_create_table lstore_classes name num_columns key_index w
      = (Raise InvalidKeyIndex, w))
  /\ (0 <= key_index < num_columns ->
      exists t w',
        @Database_create_table lstore_classes name num_columns key_index w
        = (Ok t, w')
        /\ Database_get_table name w' = (Ok (Some t), w')).
Proof.
  split; [|split].
  - intros C e He. unfold Database_create_table. by rewrite He.
  - intros Hout. unfold Database_create_table.
    change (@Table_new lstore_classes name num_columns key_index)
      with (if (0 <=? key_index) && (key_index <? num_columns)
            then Ok (Table_fields (AStr name) num_columns key_index)
            else Raise InvalidKeyIndex).
    destruct (Z.leb_spec 0 key_index); destruct (Z.ltb_spec key_index num_columns);
      cbn [andb]; try reflexivity. lia.
  - intros [H0 H1]. unfold Database_create_table.
    change (@Table_new lstore_classes name num_columns key_index)
      with (if (0 <=? key_index) && (key_index <? num_columns)
            then Ok (Table_fields (AStr name) num_columns key_index)
            else Raise InvalidKeyIndex).
    apply Z.leb_le in H0. apply Z.ltb_lt in H1. rewrite H0, H1. cbn [andb].
    destruct (alloc _ (objects w)) as [t h'] eqn:Ha. eexists t, _.
    split; [reflexivity|].
    unfold Database_get_table. cbn [db tables with_tables with_objects].
    by rewrite dict_get_set_eq.
Qed.

Lemma create_table_invalid_key_index_witness :
  ~ (0 <= 5 < 2)
  /\ Database_create_table "T" 2 5 fresh_world = (Raise InvalidKeyIndex, fresh_world)
  /\ Database_get_table "T" fresh_world = (Ok None, fresh_world).
Proof.
  split; [lia|]. split; [|reflexivity].
  destruct (create_table_invalid_key_index "T" 2 5 fresh_world) as (_ & Hbad & _).
  apply Hbad. lia.
Defined.

(** C5 (as amended): [create_table] with a name that is already
    registered raises nothing: it builds a new table and puts it in the
    mapping in place of the one registered before, which the name no
    longer reaches; the other names keep their tables. *)
Theorem create_table_replaces `{Classes} (name : string)
    (num_columns key_index : Z) (w : world) (old : addr)
    (d : list (atom * pyval)) :
  dict_get str_eqb (tables (db w)) name = Some old ->
  old ∈ dom (objects w) ->
  Table_new name num_columns key_index = Ok d ->
  exists t w',
    Database_create_table name num_columns key_index w = (Ok t, w')
    /\ t <> old
    /\ dict_get str_eqb (tables (db w')) name = Some t
    /\ forall other, other <> name ->
         dict_get str_eqb (tables (db w')) other
         = dict_get str_eqb (tables (db w)) other.
Proof.
  intros Hold Hdom Hd. unfold Database_create_table. rewrite Hd.
  destruct (alloc_inst_fresh TableClass d (objects w)) as [Hfresh _].
  destruct (alloc (PInst TableClass d) (objects w)) as [t h'].
  eexists t, _. split; [done|]. cbn [db tables with_tables with_objects fst] in *.
  split; [by intros ->|]. split; [by rewrite dict_get_set_eq|].
  intros other Hne. by apply dict_get_set_ne.
Qed.

Lemma create_table_replaces_witness :
  exists t w',
    Database_create_table "Grades" 3 1 saved_world = (Ok t, w')
    /\ t <> grades_addr
    /\ dict_get str_eqb (tables (db w')) "Grades" = Some t.
Proof.
  destruct (create_table_replaces "Grades" 3 1 saved_world grades_addr
              (Table_fields (AStr "Grades") 3 1))
    as (t & w' & Hw & Hne & Hreg & _).
  - reflexivity.
  - vm_compute. reflexivity.
  - reflexivity.
  - exists t, w'. split; [exact Hw|]. split; [exact Hne|exact Hreg].
Defined.

(** The claim as stated fails: the second [create_table("Grades", ...)]
    returns a table, and [get_table("Grades")] is then that table, with
    three columns, not the one registered before. *)
Lemma create_table_duplicate_counterexample :
  Database_get_table "Grades" saved_world = (Ok (Some grades_addr), saved_world)
  /\ exists t w',
       Database_create_table "Grades" 3 1 saved_world = (Ok t, w')
       /\ Database_get_table "Grades" w' = (Ok (Some t), w')
       /\ t <> grades_addr
       /\ value_of (objects w') t
          = Some (PInst TableClass (Table_fields (AStr "Grades") 3 1)).
Proof.
  split; [reflexivity|]. eexists _, _.
  split; [vm_compute; reflexivity|]. split; [vm_compute; reflexivity|].
  split; [vm_compute; discriminate|vm_compute; reflexivity].
Qed.

(** ** C6: which tagged mappings become instances *)

(** C6: a mapping with a [__custom_type__] entry is rehydrated into an
    instance only when the entry is the string "Table" or "Index", and
    then into an instance of that class; with any other tag the result is
    a dict with the same keys, its values rehydrated.  So an object that
    the generic [__dict__] branch of the serializer flattened (a page, a
    buffer pool) comes back as the tagged dict, not as an instance. *)
Theorem rehydrate_only_table_index `{Classes} (d : list (atom * pyval))
    (typ : pyval) :
  dict_get key_eqb d (AStr "__custom_type__") = Some typ ->
  (forall c kvs, rehydrate (PDict d) = Ok (PInst c kvs) ->
     (typ = PStr "Table" /\ c = TableClass)
     \/ (typ = PStr "Index" /\ c = IndexClass))
  /\ (typ <> PStr "Table" -> typ <> PStr "Index" ->
      rehydrate (PDict d)
      = PDict <$> omapM (fun kv => v ← rehydrate kv.2; Ok (kv.1, v)) d)
  /\ (forall (h : heap) (a dict : addr) (c : pyclass) (fuel : nat)
        (seen seen' : gset addr) (v r : pyval),
      deref h a = OInst c dict -> ckind c = KPlain ->
      cname c <> "Table" -> cname c <> "Index" -> a ∉ seen ->
      convert_to_serializable fuel h a seen = (Ok v, seen') ->
      rehydrate v = Ok r ->
      exists state, r = tagged (cname c) state).
Proof.
  intros Htag. split; [|split].
  - intros c kvs. rewrite rehydrate_dict. cbv zeta. rewrite Htag.
    destruct (is_str typ "Table") eqn:Ht.
    { intros [kvs' [= ->]]%construct_inst. left. by apply is_str_eq in Ht. }
    destruct (is_str typ "Index") eqn:Hi.
    { intros [kvs' [= ->]]%construct_inst. right. by apply is_str_eq in Hi. }
    by intros [d' ?]%fmap_PDict_Ok.
  - intros Ht Hi. rewrite rehydrate_dict. cbv zeta. rewrite Htag.
    destruct (is_str typ "Table") eqn:Ht'; [by apply is_str_eq in Ht'|].
    destruct (is_str typ "Index") eqn:Hi'; [by apply is_str_eq in Hi'|].
    done.
  - intros h a dict c fuel seen seen' v r Ha Hk Ht Hi Hnot Hconv Hr.
    destruct fuel as [|n]; [done|]. simpl in Hconv.
    destruct (decide (a ∈ seen)); [done|]. rewrite Ha in Hconv.
    unfold tag_of in Hconv. rewrite Hk in Hconv.
    destruct (convert_to_serializable n h dict _) as [[st| |] s]; try done.
    injection Hconv as <- <-. rewrite rehydrate_tagged in Hr.
    rewrite !bool_decide_eq_false_2 in Hr by done.
    destruct (rehydrate st) as [st'| |]; simpl in Hr; try done.
    injection Hr as <-. by eexists.
Qed.

Lemma rehydrate_only_table_index_witness :
  rehydrate (tagged "Page" (PDict [(AStr "num_records", PAtom (AInt 1))]))
  = Ok (tagged "Page" (PDict [(AStr "num_records", PAtom (AInt 1))])).
Proof.
  pose proof (rehydrate_only_table_index
    [(AStr "__custom_type__", PStr "Page");
     (AStr "state", PDict [(AStr "num_records", PAtom (AInt 1))])]
    (PStr "Page") eq_refl) as (_ & Hplain & _).
  unfold tagged. rewrite Hplain; [reflexivity|discriminate|discriminate].
Defined.

(** ** C7: how a table's file is written *)

(** C7 (as amended): [close] runs [save_table] on each table in turn, and
    [save_table] writes in place: opening the table's file empties the
    file at its final path, before the table is converted; the packed
    bytes are then written into that same file.  No other file, temporary
    or not, is created or changed.  When converting or packing raises,
    the file at the final path stays empty. *)
Theorem save_table_in_place `{Msgpack} (path name : string) (t : addr)
    (w : world) (fs1 : fsys) :
  open_wb (disk w) path (tbl_file name) = Ok fs1 ->
  read_file fs1 path (tbl_file name) = Ok []
  /\ (forall blob, save (objects w) t = Ok blob ->
        save_table path (name, t) w
        = (Ok (), with_disk (write_file fs1 path (tbl_file name) blob) w)
        /\ read_file (write_file fs1 path (tbl_file name) blob) path
             (tbl_file name) = Ok blob)
  /\ (forall e, save (objects w) t = Raise e ->
        save_table path (name, t) w = (Raise e, with_disk fs1 w))
  /\ (forall p n r w', save_table path (name, t) w = (r, w') ->
        p <> path \/ n <> tbl_file name ->
        read_file (disk w') p n = read_file (disk w) p n)
  /\ (forall p, db_path (db w) = Some p -> p <> "" ->
        Database_close w = for_each (save_table p) (tables (db w)) w).
Proof.
  intros Hopen. pose proof Hopen as (Hempty & Hdir1 & Hother1)%read_open_wb.
  split; [done|]. split; [|split; [|split]].
  - intros blob Hblob. split.
    { unfold save_table. rewrite Hopen. cbn [objects with_disk].
      by rewrite Hblob. }
    destruct (read_write_file fs1 path (tbl_file name) blob Hdir1) as (Hr & _).
    by rewrite Hempty in Hr.
  - intros e He. unfold save_table. rewrite Hopen. cbn [objects with_disk].
    by rewrite He.
  - intros p n r w'. unfold save_table. rewrite Hopen. cbn [objects with_disk].
    destruct (save (objects w) t) as [blob| |]; intros [= <- <-] Hne;
      cbn [disk with_disk]; try by apply Hother1.
    destruct (read_write_file fs1 path (tbl_file name) blob Hdir1)
      as (_ & _ & Hother2).
    by rewrite Hother2, Hother1.
  - intros p Hp Hne. unfold Database_close.
    by rewrite Hp, (str_eqb_ne p "" Hne).
Qed.

Lemma save_table_in_place_witness :
  exists fs1,
    open_wb (disk dirty_world) "db" (tbl_file "Grades") = Ok fs1
    /\ read_file fs1 "db" (tbl_file "Grades") = Ok [].
Proof.
  eexists. split; [vm_compute; reflexivity|].
  apply (save_table_in_place "db" "Grades" grades_addr dirty_world).
  vm_compute. reflexivity.
Defined.

(** The claim as stated fails: the conversion raises after the file was
    emptied, and the table's file, which held a complete blob, is left
    with no byte of the old or of the new state. *)
Lemma close_truncates_counterexample :
  read_file (disk tuple_key_world) "db" "T.tbl" = Ok grades_blob
  /\ grades_blob <> []
  /\ exists w',
       Database_close tuple_key_world
       = (Raise (TypeError "unhashable type: 'list'"), w')
       /\ read_file (disk w') "db" "T.tbl" = Ok [].
Proof.
  split; [reflexivity|]. split; [discriminate|].
  eexists. split; vm_compute; reflexivity.
Qed.

(** ** C8: an empty table file *)

(** C8: a [.tbl] file of zero bytes is skipped: loading it leaves the
    tables, the objects and the files as they are and prints the warning,
    and the loop goes on with the next file.  So on a directory whose
    table files are empty or load, [open] succeeds and leaves the files
    as they are; for every empty table file the warning is recorded and
    no table is registered under its name; and every table file that is
    not empty, whether listed before or after an empty one, is loaded
    and registered under its name. *)
Theorem open_skips_empty_file `{Msgpack} `{Classes} (path : string) (w : world)
    (files : directory) :
  (forall f, endswith f ".tbl" = true -> read_file (disk w) path f = Ok [] ->
     load_table path f w = (Ok (), print (empty_warning f) w))
  /\ (dict_get str_eqb (disk w) path = Some files ->
      NoDup files.*1 ->
      Forall (fun f => endswith f ".tbl" = true ->
                read_file (disk w) path f = Ok []
                \/ exists data table, read_file (disk w) path f = Ok data
                                      /\ load data = Ok table)
        files.*1 ->
      exists w',
        Database_open path w = (Ok (), w')
        /\ disk w' = disk w
        /\ (forall name,
              read_file (disk w) path (tbl_file name) = Ok [] ->
              empty_warning (tbl_file name) ∈ console w'
              /\ Database_get_table name w' = (Ok None, w'))
        /\ (forall name b data,
              read_file (disk w) path (tbl_file name) = Ok (b :: data) ->
              exists t v,
                load (b :: data) = Ok v
                /\ Database_get_table name w' = (Ok (Some t), w')
                /\ value_of (objects w') t = Some v)).
Proof.
  split; [intros f; apply load_table_empty|].
  intros Hdir Hnd Hcond.
  destruct (open_names path w files Hdir Hnd Hcond) as (w' & Hopen & Hall).
  assert (Hls : listdir (disk w) path = files.*1).
  { unfold listdir. by rewrite Hdir. }
  rewrite <- Hls in Hcond.
  destruct (load_loop path (disk w) _ Hcond
              (with_tables [] (with_path path w)) eq_refl)
    as (w1 & Hloop & Hdisk & _ & Hwarn).
  assert (Hw' : w' = print "Database loaded from disk." w1).
  { revert Hopen. unfold Database_open. cbn [disk with_path]. unfold path_exists.
    rewrite bool_decide_eq_true_2 by (by rewrite Hdir).
    cbn [negb]. cbn [disk with_tables with_path]. rewrite Hloop. congruence. }
  exists w'. split; [exact Hopen|]. split; [by rewrite Hw'|]. split.
  - intros name Hr. pose proof (Hall name) as Hn. rewrite Hr in Hn.
    split; [|exact Hn]. rewrite Hw'. cbn [console print].
    apply elem_of_app. left.
    apply Hwarn; [|apply endswith_tbl_file|exact Hr].
    rewrite Hls. apply read_file_Ok in Hr as (files' & Hdir' & Hfile).
    rewrite Hdir in Hdir'. injection Hdir' as <-.
    by eapply dict_get_Some_key.
  - intros name b data Hr. pose proof (Hall name) as Hn. by rewrite Hr in Hn.
Qed.

Lemma open_skips_empty_file_witness :
  exists w' t,
    Database_open "db" half_world = (Ok (), w')
    /\ empty_warning "Broken.tbl" ∈ console w'
    /\ Database_get_table "Broken" w' = (Ok None, w')
    /\ Database_get_table "Grades" w' = (Ok (Some t), w')
    /\ value_of (objects w') t = Some grades.
Proof.
  destruct (open_skips_empty_file "db" half_world
              [("Broken.tbl", []); ("Grades.tbl", grades_blob); ("notes.txt", [])])
    as [_ Hopen].
  destruct Hopen as (w' & Hw & _ & Hempty & Hfull).
  - reflexivity.
  - change (NoDup ["Broken.tbl"; "Grades.tbl"; "notes.txt"]).
    repeat (apply NoDup_cons; split;
            [intros Hin;
             repeat (apply elem_of_cons in Hin as [Hin|Hin]; [discriminate|]);
             by apply elem_of_nil in Hin|]).
    apply NoDup_nil_2.
  - change (Forall (fun f => endswith f ".tbl" = true ->
                read_file (disk half_world) "db" f = Ok []
                \/ exists data table, read_file (disk half_world) "db" f = Ok data
                                      /\ load data = Ok table)
              ["Broken.tbl"; "Grades.tbl"; "notes.txt"]).
    apply Forall_cons_2; [|apply Forall_cons_2; [|apply Forall_cons_2;
                                                   [|apply Forall_nil_2]]].
    + intros _. left. reflexivity.
    + intros _. right. exists grades_blob, grades.
      split; vm_compute; reflexivity.
    + intros He. vm_compute in He. discriminate.
  - destruct (Hempty "Broken" eq_refl) as [Hwarn Hnone].
    assert (Hg : exists b data, grades_blob = b :: data).
    { vm_compute. eauto. }
    destruct Hg as (b & data & Hg).
    destruct (Hfull "Grades" b data) as (t & v & Hl & Hget & Hval).
    { rewrite <- Hg. reflexivity. }
    exists w', t. split; [exact Hw|]. split; [exact Hwarn|].
    split; [exact Hnone|]. split; [exact Hget|].
    rewrite Hval. f_equal.
    assert (Hload : load grades_blob = Ok grades) by (vm_compute; reflexivity).
    rewrite Hg, Hl in Hload. by injection Hload.
Defined.

(** ** C9: [drop_table] *)

(** C9: [drop_table] on a table that was created and never saved.  The
    method deletes the entry and then calls [os.remove] without looking
    whether the file is there (line 232): the table is gone from the
    mapping, and the call ends in the [FileNotFoundError] of [os.remove];
    on a database that was never opened it ends in the [TypeError] of
    [os.path.join(None, ...)].  So it is when the table is created
    through [create_table] in a database just opened. *)
Theorem drop_table_unsaved_raises :
  Database_drop_table "Grades" dirty_world
  = (Raise (FileNotFoundError "Grades.tbl"), with_tables [] dirty_world)
  /\ (let '(opened, w1) := Database_open "db" fresh_world in
      let '(created, w2) := Database_create_table "T" 2 0 w1 in
      let '(dropped, w3) := Database_drop_table "T" w2 in
      (opened, dropped, tables (db w3), disk w3))
     = (Ok (), Raise (FileNotFoundError "T.tbl"), [], [("db", [])])
  /\ (let '(created, w1) := Database_create_table "T" 2 0 fresh_world in
      let '(dropped, w2) := Database_drop_table "T" w1 in
      (dropped, tables (db w2)))
     = (Raise (TypeError "expected str, bytes or os.PathLike object, not NoneType"),
        []).
Proof.
  split; [vm_compute; reflexivity|]. split; vm_compute; reflexivity.
Qed.

(** ** C10: [get_table] *)

(** C10: [get_table] raises nothing and changes nothing; it returns the
    table registered under the name, or [None].  [open] on a path that
    does not exist creates the directory and leaves the table mapping as
    it was; for a database that was just constructed, [get_table] then
    returns [None] for every name. *)
Theorem get_table_total `{Msgpack} `{Classes} (name : string) (w : world) :
  Database_get_table name w = (Ok (dict_get str_eqb (tables (db w)) name), w)
  /\ (forall path, path <> "" -> path_exists (disk w) path = false ->
      exists w',
        Database_open path w = (Ok (), w')
        /\ path_exists (disk w') path = true
        /\ tables (db w') = tables (db w)
        /\ forall size, db w = Database_init size ->
             forall n, Database_get_table n w' = (Ok None, w')).
Proof.
  split; [done|]. intros path Hne Hfresh. unfold Database_open.
  cbn [disk with_path]. rewrite Hfresh. cbn [negb]. unfold makedirs.
  rewrite (str_eqb_ne path "" Hne). eexists. split; [done|].
  cbn [disk db tables print with_disk with_path]. split; [|split; [done|]].
  - unfold path_exists. rewrite dict_get_set_eq. by apply bool_decide_eq_true_2.
  - intros size Hdb n. unfold Database_get_table.
    cbn [db tables print with_disk with_path]. by rewrite Hdb.
Qed.

Lemma get_table_total_witness :
  exists w',
    Database_open "db" fresh_world = (Ok (), w')
    /\ Database_get_table "anything" w' = (Ok None, w').
Proof.
  destruct (get_table_total "anything" fresh_world) as [_ Hopen].
  destruct (Hopen "db") as (w' & Hw & _ & _ & Hnone);
    [discriminate|reflexivity|].
  exists w'. split; [exact Hw|]. apply (Hnone 10). reflexivity.
Defined.

(** * Part V: further properties of the code *)

(** ** The serializer *)

(** X1: on an object graph without a cycle whose dict keys are basic
    values, no two of one dict equal, the serializer returns the
    flattening [ser] of the graph's value: tuples and sets as lists, an
    instance as the mapping tagged with its class, an object without
    [__dict__] as its string, every reference to a shared object
    converted in full, and no placeholder anywhere. *)
Theorem serialize_acyclic (h : heap) (a : addr) (v : pyval) :
  value_of h a = Some v -> keys_ok v = true ->
  convert_to_serializable (enough h) h a ∅ = (Ok (ser v), ∅).
Proof.
  intros Hv Hk. by apply (convert_ser h (enough h) a ∅ v Hv Hk).
Qed.

Lemma serialize_acyclic_witness :
  convert_to_serializable (enough used_heap) used_heap used_addr ∅
  = (Ok (ser grades_used), ∅).
Proof.
  apply serialize_acyclic; vm_compute; reflexivity.
Defined.

(** X2: whatever the serializer returns is plain data: scalars, lists
    and dicts only, for every object graph, every [seen] set and every
    recursion budget. *)
Theorem convert_returns_plain_data (fuel : nat) (h : heap) (a : addr)
    (seen seen' : gset addr) (v : pyval) :
  convert_to_serializable fuel h a seen = (Ok v, seen') ->
  plain_data v = true.
Proof.
  revert a seen seen' v.
  induction fuel as [|n IH]; intros a seen seen' v; [done|]. simpl.
  destruct (decide (a ∈ seen)); [by intros [= <- <-]|].
  destruct (deref h a) as [x|items|items|items|items|c d|t r].
  - by intros [= <- <-].
  - destruct (conv_list _ items _) as [[l| |] s] eqn:Hl; try done.
    intros [= <- <-]. simpl. eapply conv_list_plain; [|exact Hl].
    intros x s0 v0 s1. apply IH.
  - destruct (conv_list _ items _) as [[l| |] s] eqn:Hl; try done.
    intros [= <- <-]. simpl. eapply conv_list_plain; [|exact Hl].
    intros x s0 v0 s1. apply IH.
  - destruct (conv_list _ items _) as [[l| |] s] eqn:Hl; try done.
    intros [= <- <-]. simpl. eapply conv_list_plain; [|exact Hl].
    intros x s0 v0 s1. apply IH.
  - destruct (conv_items _ items _ _) as [[l| |] s] eqn:Hl; try done.
    intros [= <- <-]. simpl. eapply conv_items_plain; [| |exact Hl]; [|done].
    intros x s0 v0 s1. apply IH.
  - destruct (convert_to_serializable n h d _) as [[st| |] s] eqn:Hd; try done.
    intros [= <- <-]. simpl. by rewrite (IH _ _ _ _ Hd).
  - by intros [= <- <-].
Qed.

Lemma convert_returns_plain_data_witness :
  exists v,
    convert_to_serializable (enough cyclic_heap) cyclic_heap 1%positive ∅
    = (Ok v, ∅)
    /\ plain_data v = true.
Proof.
  eexists. split; [vm_compute; reflexivity|].
  apply (convert_returns_plain_data (enough cyclic_heap) cyclic_heap
           1%positive ∅ ∅).
  vm_compute. reflexivity.
Defined.

(** X3: the serializer raises only the [TypeError] of a converted dict
    key that cannot be hashed, and it then leaves the [seen] set as it
    is at that point: everything the caller passed in is still in it, and
    so is the object being converted, which no [seen.remove] has taken
    out. *)
Theorem convert_raise_leaves_seen (fuel : nat) (h : heap) (a : addr)
    (seen seen' : gset addr) (e : exn) :
  convert_to_serializable fuel h a seen = (Raise e, seen') ->
  unhashable e /\ seen ⊆ seen' /\ a ∈ seen'.
Proof.
  intros Hc. pose proof (convert_leaves h fuel a seen) as Hl.
  by rewrite Hc in Hl.
Qed.

Lemma convert_raise_leaves_seen_witness :
  convert_to_serializable 8 (objects tuple_key_world) 1%positive ∅
  = (Raise (TypeError "unhashable type: 'list'"),
     {[1%positive; 2%positive; 4%positive]})
  /\ 1%positive ∈ ({[1%positive; 2%positive; 4%positive]} : gset addr).
Proof.
  split; [vm_compute; reflexivity|].
  apply (convert_raise_leaves_seen 8 (objects tuple_key_world) 1%positive ∅
           _ (TypeError "unhashable type: 'list'")).
  vm_compute. reflexivity.
Defined.

(** ** [rehydrate] *)

(** X4: [rehydrate] returns unchanged every value in which no dict it
    visits has the key ["__custom_type__"]: scalars and plain containers
    pass through as they are. *)
Theorem rehydrate_untagged `{Classes} (v : pyval) :
  untagged v = true -> rehydrate v = Ok v.
Proof. apply rehydrate_same. Qed.

Lemma rehydrate_untagged_witness :
  rehydrate (PDict [(AStr "rows", PList [PAtom (AInt 1); PTuple []]);
                    (AInt 3, PDict [])])
  = Ok (PDict [(AStr "rows", PList [PAtom (AInt 1); PTuple []]);
               (AInt 3, PDict [])]).
Proof. apply rehydrate_untagged. reflexivity. Defined.

(** X5: [rehydrate] is idempotent: rehydrating what it returned returns
    the same value again, whatever the classes' constructors do. *)
Theorem rehydrate_idempotent `{Classes} (v r : pyval) :
  rehydrate v = Ok r -> rehydrate r = Ok r.
Proof. apply rehydrate_twice. Qed.

Lemma rehydrate_idempotent_witness :
  rehydrate grades_reloaded = Ok grades_reloaded.
Proof.
  apply (rehydrate_idempotent (ser grades_used)). vm_compute. reflexivity.
Defined.

(** X6: what a save followed by a load returns.  For an object graph
    without a cycle in which every dict and every instance has string
    keys, other than the tag key and no two equal, and whose saved bytes
    exist, loading the bytes returns [reloaded] of the graph's value:
    the same scalars, lists for tuples and sets, the string of every
    object without [__dict__], a [Table] or [Index] for every instance
    tagged so (the fresh instance's attributes updated with the saved
    ones), and the tagged mapping for every other instance. *)
Theorem load_save_reloaded `{Msgpack} `{Classes}
    (table_init index_init : list (atom * pyval))
    (h : heap) (a : addr) (v : pyval) (b : bytes) :
  Table_default = Ok table_init -> Index_default = Ok index_init ->
  value_of h a = Some v -> storable v = true ->
  save h a = Ok b ->
  load b = Ok (reloaded table_init index_init v).
Proof. apply load_save_back. Qed.

Lemma load_save_reloaded_witness :
  exists b, save used_heap used_addr = Ok b /\ load b = Ok grades_reloaded.
Proof.
  destruct (save used_heap used_addr) as [b| |] eqn:Hb;
    [|exfalso; revert Hb; vm_compute; discriminate..].
  exists b. split; [done|].
  change grades_reloaded
    with (reloaded (Table_fields ANone 0 0) Index_fields grades_used).
  apply (load_save_reloaded _ _ used_heap used_addr); try done;
    vm_compute; reflexivity.
Defined.

(** ** [close] *)

(** X7: when the table names are file names, whatever [close] returns,
    a value or an exception, it has changed nothing in memory (the
    objects, the database object, the printed lines) and no file other
    than the table files of the registered names in the database
    directory. *)
Theorem close_changes_only_table_files `{Msgpack} (w w' : world)
    (r : outcome unit) :
  forallb file_name (tables (db w)).*1 = true ->
  Database_close w = (r, w') ->
  objects w' = objects w /\ db w' = db w /\ console w' = console w
  /\ forall p n,
       (db_path (db w) <> Some p \/ n ∉ tbl_file <$> (tables (db w)).*1) ->
       read_file (disk w') p n = read_file (disk w) p n.
Proof.
  intros _. unfold Database_close. destruct (db_path (db w)) as [path|];
    [|by intros [= <- <-]].
  destruct (str_eqb path ""); [by intros [= <- <-]|].
  intros (Ho & Hd & Hc & Hf)%close_frame. repeat (split; [done|]).
  intros p n [Hp|Hn]; apply Hf; [|by right]. left. by intros ->.
Qed.

Lemma close_changes_only_table_files_witness :
  exists e w',
    Database_close mixed_world = (Raise e, w')
    /\ read_file (disk w') "db" "notes.txt" = Ok []
    /\ objects w' = objects mixed_world.
Proof.
  destruct (Database_close mixed_world) as [[[]| |] w'] eqn:Hc;
    [exfalso; revert Hc; vm_compute; discriminate| |
     exfalso; revert Hc; vm_compute; discriminate].
  destruct (close_changes_only_table_files mixed_world w' (Raise e) eq_refl Hc)
    as (Ho & _ & _ & Hf).
  exists e, w'. split; [done|]. split; [|done]. rewrite Hf; [reflexivity|].
  right. intros (n & Heq & Hin)%list_elem_of_fmap.
  change (n ∈ ["Grades"; "T"; "Later"]) in Hin.
  repeat (apply elem_of_cons in Hin as [->|Hin]; [discriminate|]).
  by apply elem_of_nil in Hin.
Defined.

(** X8: [close] stops at the first table that fails to convert or
    pack.  When the table names are file names and the directory
    exists, the tables before it are written, the failing table's file is
    left empty, the files of the tables after it, and every other file,
    are as they were, and the exception comes out. *)
Theorem close_stops_at_first_failure `{Msgpack} (w : world) (path : string)
    (pre post : list (string * addr)) (name : string) (t : addr)
    (blobs : list bytes) (e : exn) :
  forallb file_name (tables (db w)).*1 = true ->
  db_path (db w) = Some path -> path <> "" ->
  is_Some (dict_get str_eqb (disk w) path) ->
  tables (db w) = pre ++ (name, t) :: post ->
  NoDup (tables (db w)).*1 ->
  Forall2 (fun e b => save (objects w) e.2 = Ok b) pre blobs ->
  save (objects w) t = Raise e ->
  exists w',
    Database_close w = (Raise e, w')
    /\ Forall2 (fun e b => read_file (disk w') path (tbl_file e.1) = Ok b)
         pre blobs
    /\ read_file (disk w') path (tbl_file name) = Ok []
    /\ Forall (fun e => read_file (disk w') path (tbl_file e.1)
                        = read_file (disk w) path (tbl_file e.1)) post
    /\ forall p n, (p <> path \/ n ∉ tbl_file <$> (pre.*1 ++ [name])) ->
         read_file (disk w') p n = read_file (disk w) p n.
Proof. intros _. apply close_partial. Qed.

Lemma close_stops_at_first_failure_witness :
  exists e w',
    Database_close mixed_world = (Raise e, w')
    /\ read_file (disk w') "db" "Grades.tbl" = Ok grades_blob
    /\ read_file (disk w') "db" "T.tbl" = Ok []
    /\ read_file (disk w') "db" "Later.tbl" = Ok [xc0].
Proof.
  destruct (close_stops_at_first_failure mixed_world "db"
              [("Grades", mixed_grades)] [("Later", mixed_grades)]
              "T" 1%positive [grades_blob]
              (TypeError "unhashable type: 'list'"))
    as (w' & Hc & Hpre & Hempty & Hpost & _).
  - reflexivity.
  - reflexivity.
  - discriminate.
  - by eexists.
  - reflexivity.
  - change (NoDup ["Grades"; "T"; "Later"]).
    repeat (apply NoDup_cons; split;
            [intros Hin;
             repeat (apply elem_of_cons in Hin as [Hin|Hin]; [discriminate|]);
             by apply elem_of_nil in Hin|]).
    apply NoDup_nil_2.
  - constructor; [vm_compute; reflexivity|constructor].
  - vm_compute. reflexivity.
  - eexists _, w'. split; [exact Hc|].
    apply Forall2_cons_1 in Hpre as [Hg _].
    apply Forall_cons in Hpost as [Hl _].
    split; [exact Hg|]. split; [exact Hempty|].
    etrans; [exact Hl|reflexivity].
Defined.

(** X9: a second [close], right after one that succeeded, succeeds and
    leaves the files exactly as they are. *)
Theorem close_twice `{Msgpack} (w w1 : world) :
  NoDup (tables (db w)).*1 ->
  Database_close w = (Ok (), w1) ->
  Database_close w1 = (Ok (), w1).
Proof.
  intros Hnd. unfold Database_close.
  destruct (db_path (db w)) as [path|] eqn:Hpath; [|done].
  destruct (str_eqb path "") eqn:Hne; [done|]. intros Hloop.
  pose proof (close_frame path _ _ _ _ Hloop) as (_ & Hdb & _).
  rewrite Hdb, Hpath, Hne. apply close_again.
  by apply (close_loop_inv path _ Hnd w).
Qed.

Lemma close_twice_witness :
  exists w1,
    Database_close dirty_world = (Ok (), w1)
    /\ Database_close w1 = (Ok (), w1)
    /\ read_file (disk w1) "db" "Grades.tbl" = Ok grades_blob.
Proof.
  destruct (Database_close dirty_world) as [[[]| |] w1] eqn:Hc;
    [|exfalso; revert Hc; vm_compute; discriminate..].
  exists w1. split; [reflexivity|]. split.
  - apply (close_twice dirty_world w1); [apply NoDup_singleton|exact Hc].
  - revert Hc. vm_compute. by intros [= <-].
Defined.

(** ** [open] *)

(** X10: what [open] leaves in memory is decided by the directory alone.
    When the directory exists and each of its table files is empty or
    loads, [open] succeeds, whatever tables the database held before, and
    then a name is registered exactly when the directory has a file
    [name.tbl] that is not empty; the table registered has the value
    that loading the file gives. *)
Theorem open_registers_table_files `{Msgpack} `{Classes} (path : string)
    (w : world) (files : directory) :
  dict_get str_eqb (disk w) path = Some files ->
  NoDup files.*1 ->
  Forall (fun f => endswith f ".tbl" = true ->
            read_file (disk w) path f = Ok []
            \/ exists data table, read_file (disk w) path f = Ok data
                                  /\ load data = Ok table) files.*1 ->
  exists w',
    Database_open path w = (Ok (), w')
    /\ forall name,
         match read_file (disk w) path (tbl_file name) with
         | Ok (b :: data) =>
             exists t v,
               load (b :: data) = Ok v
               /\ Database_get_table name w' = (Ok (Some t), w')
               /\ value_of (objects w') t = Some v
         | _ => Database_get_table name w' = (Ok None, w')
         end.
Proof. apply open_names. Qed.

Lemma open_registers_table_files_witness :
  exists w' t,
    Database_open "db" half_world = (Ok (), w')
    /\ Database_get_table "Grades" w' = (Ok (Some t), w')
    /\ value_of (objects w') t = Some grades
    /\ Database_get_table "Broken" w' = (Ok None, w')
    /\ Database_get_table "notes" w' = (Ok None, w').
Proof.
  destruct (open_registers_table_files "db" half_world
              [("Broken.tbl", []); ("Grades.tbl", grades_blob);
               ("notes.txt", [])]) as (w' & Hopen & Hnames).
  - reflexivity.
  - change (NoDup ["Broken.tbl"; "Grades.tbl"; "notes.txt"]).
    repeat (apply NoDup_cons; split;
            [intros Hin;
             repeat (apply elem_of_cons in Hin as [Hin|Hin]; [discriminate|]);
             by apply elem_of_nil in Hin|]).
    apply NoDup_nil_2.
  - change (Forall (fun f => endswith f ".tbl" = true ->
              read_file (disk half_world) "db" f = Ok []
              \/ exists data table, read_file (disk half_world) "db" f = Ok data
                                    /\ load data = Ok table)
              ["Broken.tbl"; "Grades.tbl"; "notes.txt"]).
    apply Forall_cons_2; [|apply Forall_cons_2; [|apply Forall_cons_2;
      [|apply Forall_nil_2]]].
    + intros _. by left.
    + intros _. right. exists grades_blob, grades.
      split; vm_compute; reflexivity.
    + intros He. exfalso. revert He. vm_compute. discriminate.
  - pose proof (Hnames "Grades") as Hg.
    pose proof (Hnames "Broken") as Hb.
    pose proof (Hnames "notes") as Hn.
    change (read_file (disk half_world) "db" (tbl_file "Grades"))
      with (Ok grades_blob) in Hg.
    change (read_file (disk half_world) "db" (tbl_file "Broken"))
      with (@Ok bytes []) in Hb.
    change (read_file (disk half_world) "db" (tbl_file "notes"))
      with (@Raise bytes (FileNotFoundError "notes.tbl")) in Hn.
    unfold grades_blob in Hg. cbv iota in Hg.
    destruct Hg as (t & v & Hl & Hget & Hval).
    exists w', t. split; [exact Hopen|]. split; [exact Hget|].
    split; [|split; [exact Hb|exact Hn]].
    rewrite Hval. f_equal.
    assert (Hload : load grades_blob = Ok grades) by (vm_compute; reflexivity).
    unfold grades_blob in Hload. rewrite Hload in Hl. by injection Hl.
Defined.

(** X11: whatever [open] returns, a value or an exception, the database
    path is the one it was given afterwards, no file has been changed
    (on a path that does not exist the directory is created, empty), no
    object has been lost, and the buffer pool is the same. *)
Theorem open_writes_no_file `{Msgpack} `{Classes} (path : string)
    (w w' : world) (r : outcome unit) :
  Database_open path w = (r, w') ->
  db_path (db w') = Some path
  /\ bufferpool (db w') = bufferpool (db w)
  /\ objects w ⊆ objects w'
  /\ forall p n, read_file (disk w') p n = read_file (disk w) p n.
Proof.
  unfold Database_open. cbn [disk with_path].
  destruct (path_exists (disk w) path) eqn:Hex; cbn [negb].
  - destruct (for_each _ _ _) as [r1 w1] eqn:Hloop.
    apply open_frame in Hloop as (Hd & Ho & Hp & Hb).
    cbn [disk objects db db_path bufferpool with_tables with_path] in *.
    by destruct r1 as [[]| |]; intros [= <- <-];
      cbn [disk objects db db_path bufferpool print]; rewrite ?Hd.
  - unfold makedirs. destruct (str_eqb path ""); [by intros [= <- <-]|].
    intros [= <- <-]. cbn [disk objects db db_path bufferpool print with_disk
                            with_path].
    repeat (split; [done|]). intros p n. unfold read_file.
    apply bool_decide_eq_false_1 in Hex.
    destruct (decide (path = p)) as [<-|Hne].
    + rewrite dict_get_set_eq. simpl.
      destruct (dict_get str_eqb (disk w) path) as [fl|]; [|done].
      exfalso. apply Hex. by eexists.
    + by rewrite dict_get_set_ne.
Qed.

Lemma open_writes_no_file_witness :
  exists e w',
    Database_open "db" corrupt_world = (Raise e, w')
    /\ db_path (db w') = Some "db"
    /\ read_file (disk w') "db" "Bad.tbl" = Ok [xc1].
Proof.
  destruct (Database_open "db" corrupt_world) as [[[]| |] w'] eqn:Ho;
    [exfalso; revert Ho; vm_compute; discriminate| |
     exfalso; revert Ho; vm_compute; discriminate].
  destruct (open_writes_no_file _ _ _ _ Ho) as (Hp & _ & _ & Hf).
  exists e, w'. split; [done|]. split; [done|]. by rewrite Hf.
Defined.

(** X12: a dropped table stays dropped.  After [drop_table] of a
    registered table whose file exists, an [open] of the same directory
    (whose other table files are empty or load) succeeds and registers
    nothing under the name. *)
Theorem dropped_table_stays_dropped `{Msgpack} `{Classes} (name : string)
    (w : world) (t : addr) (path : string) (files : directory) :
  dict_get str_eqb (tables (db w)) name = Some t ->
  db_path (db w) = Some path ->
  dict_get str_eqb (disk w) path = Some files -> NoDup files.*1 ->
  is_Some (dict_get str_eqb files (tbl_file name)) ->
  Forall (fun f => f <> tbl_file name -> endswith f ".tbl" = true ->
            read_file (disk w) path f = Ok []
            \/ exists data table, read_file (disk w) path f = Ok data
                                  /\ load data = Ok table) files.*1 ->
  exists w1 w2,
    Database_drop_table name w = (Ok (), w1)
    /\ Database_open path w1 = (Ok (), w2)
    /\ Database_get_table name w2 = (Ok None, w2).
Proof.
  intros Ht Hpath Hdir Hnd [data Hfile] Hcond.
  set (fs1 := dict_set str_eqb (disk w) path
                (dict_del str_eqb files (tbl_file name))).
  assert (Hrm : remove (disk w) path (tbl_file name) = Ok fs1).
  { unfold remove. by rewrite Hdir, Hfile. }
  destruct (read_remove _ _ _ _ _ Hdir Hnd Hrm) as [Hgone Hother].
  assert (Hls : listdir fs1 path = (dict_del str_eqb files (tbl_file name)).*1).
  { apply listdir_set. }
  assert (Hnot : tbl_file name ∉ listdir fs1 path).
  { rewrite Hls. apply dict_get_None_key. by apply dict_get_del_eq. }
  assert (Hcond1 : Forall (fun f => endswith f ".tbl" = true ->
            read_file fs1 path f = Ok []
            \/ exists data table, read_file fs1 path f = Ok data
                                  /\ load data = Ok table) (listdir fs1 path)).
  { apply Forall_forall. intros f Hin He.
    assert (Hne : f <> tbl_file name) by (by intros ->).
    rewrite Hother by (by right). rewrite Forall_forall in Hcond.
    apply Hcond; [|done|done]. rewrite Hls in Hin.
    by apply dict_del_keys in Hin. }
  set (w1 := with_disk fs1 (with_tables (dict_del str_eqb (tables (db w)) name) w)).
  destruct (open_loop path fs1 _ (eq_ind_r (fun l => NoDup l)
              (dict_del_NoDup files (tbl_file name) Hnd) Hls) Hcond1
              (with_tables [] (with_path path w1)) eq_refl)
    as (w' & Hopen & _ & _ & Hkeep & _).
  exists w1, (print "Database loaded from disk." w'). split; [|split].
  - unfold Database_drop_table. rewrite Ht. cbn [db db_path disk with_tables].
    by rewrite Hpath, Hrm.
  - unfold Database_open. cbn [disk with_path]. unfold path_exists.
    rewrite bool_decide_eq_true_2
      by (subst w1 fs1; cbn [disk with_disk]; by rewrite dict_get_set_eq).
    cbn [negb]. cbn [disk with_tables with_path].
    change (disk w1) with fs1. by rewrite Hopen.
  - unfold Database_get_table. cbn [tables db print]. by rewrite (Hkeep name Hnot).
Qed.

Lemma dropped_table_stays_dropped_witness :
  exists w1 w2,
    Database_drop_table "Grades" saved_world = (Ok (), w1)
    /\ Database_open "db" w1 = (Ok (), w2)
    /\ Database_get_table "Grades" w2 = (Ok None, w2).
Proof.
  apply (dropped_table_stays_dropped "Grades" saved_world grades_addr "db"
           [("Grades.tbl", grades_blob)]).
  - reflexivity.
  - reflexivity.
  - reflexivity.
  - apply NoDup_singleton.
  - by eexists.
  - apply Forall_cons_2; [|apply Forall_nil_2]. intros Hne. by destruct Hne.
Defined.

(** ** The [default] hook *)

(** X13: for an object with a [__dict__], [default] returns a new dict,
    which is no object that existed before: the entries of the object's
    [__dict__] other than the one under ['db'], in their order, with the
    same key and value objects.  The object and its [__dict__] are as
    they were.  For any other object it raises [TypeError] and changes
    nothing. *)
Theorem default_copies_without_db (h : heap) (a : addr) :
  (forall c d items,
     deref h a = OInst c d -> deref h d = ODict items ->
     (length (filter (fun kv => Hook.is_db h kv.1 = true) items) <= 1)%nat ->
     exists state h',
       Hook.default h a = (Ok state, h')
       /\ (state ∉ dom h)
       /\ deref h' state
          = ODict (filter (fun kv => Hook.is_db h kv.1 = false) items)
       /\ deref h' a = OInst c d /\ deref h' d = ODict items
       /\ h ⊆ h')
  /\ ((forall c d, deref h a <> OInst c d) ->
      exists msg, Hook.default h a = (Raise (TypeError msg), h)).
Proof.
  split.
  - intros c d items Ha Hd Hone. unfold Hook.default. rewrite Ha, Hd.
    destruct (new_object (ODict (Hook.pop_db h items)) h) as [state h'] eqn:Hn.
    apply new_object_inv in Hn as (Hfresh & Hlook & Hsub).
    exists state, h'. split; [done|]. split; [done|].
    assert (Hkeep : forall p o, deref h p = o -> o <> OAtom ANone ->
              deref h' p = o).
    { intros p o Hp Ho. unfold deref in *.
      destruct (h !! p) as [o'|] eqn:Hhp; [|by subst].
      by rewrite (lookup_weaken _ _ _ _ Hhp Hsub). }
    split; [|split; [by apply Hkeep|split; [by apply Hkeep|done]]].
    unfold deref. rewrite Hlook. simpl. by rewrite pop_db_filter.
  - intros Hno. unfold Hook.default.
    destruct (deref h a) as [x|l|l|l|items|c d|t r] eqn:Ha;
      try (by eexists). by destruct (Hno c d).
Qed.

Lemma default_copies_without_db_witness :
  exists state h',
    Hook.default owned_heap 1%positive = (Ok state, h')
    /\ deref h' state = ODict [(3%positive, 4%positive)]
    /\ deref h' 2%positive
       = ODict [(3%positive, 4%positive); (5%positive, 6%positive)]
    /\ state <> 2%positive.
Proof.
  destruct (default_copies_without_db owned_heap 1%positive) as [Hinst _].
  destruct (Hinst TableClass 2%positive
              [(3%positive, 4%positive); (5%positive, 6%positive)])
    as (state & h' & Hd & Hfresh & Hstate & _ & Hdict & _).
  - reflexivity.
  - reflexivity.
  - vm_compute. lia.
  - exists state, h'. split; [exact Hd|]. split; [exact Hstate|].
    split; [exact Hdict|]. intros ->. apply Hfresh. vm_compute.
    reflexivity.
Defined.

(** ** A close and an open *)

(** X14: what a restart makes of the tables.  Let the table names be
    file names, let the directory list each file once and hold no table
    file other than those of the registered tables, and let every registered table have a value
    without a cycle, with string keys other than the tag key in every
    dict and instance, that packs.  Then [close] succeeds, [open] on the
    directory it leaves succeeds from any database object, and
    [get_table] then returns, for every name that was registered, a
    table whose value is [reloaded] of the one saved, and [None] for
    every other name. *)
Theorem close_open_reloaded `{Msgpack} `{Classes}
    (table_init index_init : list (atom * pyval))
    (w : world) (path : string) (files : directory) :
  forallb file_name (tables (db w)).*1 = true ->
  Table_default = Ok table_init -> Index_default = Ok index_init ->
  db_path (db w) = Some path -> path <> "" ->
  dict_get str_eqb (disk w) path = Some files ->
  NoDup files.*1 ->
  (forall f, f ∈ files.*1 -> endswith f ".tbl" = true ->
             f ∈ tbl_file <$> (tables (db w)).*1) ->
  NoDup (tables (db w)).*1 ->
  Forall (fun e => exists v b, value_of (objects w) e.2 = Some v
                               /\ storable v = true
                               /\ save (objects w) e.2 = Ok b)
         (tables (db w)) ->
  exists w1,
    Database_close w = (Ok (), w1)
    /\ forall w0, disk w0 = disk w1 ->
       exists w2,
         Database_open path w0 = (Ok (), w2)
         /\ forall name,
              match dict_get str_eqb (tables (db w)) name with
              | Some t =>
                  exists v t',
                    value_of (objects w) t = Some v
                    /\ Database_get_table name w2 = (Ok (Some t'), w2)
                    /\ value_of (objects w2) t'
                       = Some (reloaded table_init index_init v)
              | None => Database_get_table name w2 = (Ok None, w2)
              end.
Proof. intros _. apply restart. Qed.

Lemma close_open_reloaded_witness :
  exists w1 w2 t',
    Database_close used_world = (Ok (), w1)
    /\ Database_open "db" w1 = (Ok (), w2)
    /\ Database_get_table "Grades" w2 = (Ok (Some t'), w2)
    /\ value_of (objects w2) t' = Some grades_reloaded.
Proof.
  destruct (close_open_reloaded (Table_fields ANone 0 0) Index_fields
              used_world "db" [])
    as (w1 & Hclose & Hopen).
  - reflexivity.
  - reflexivity.
  - reflexivity.
  - reflexivity.
  - discriminate.
  - reflexivity.
  - apply NoDup_nil_2.
  - intros f Hf. by apply elem_of_nil in Hf.
  - apply NoDup_singleton.
  - apply Forall_cons_2; [|apply Forall_nil_2].
    destruct (save used_heap used_addr) as [b| |] eqn:Hb;
      [|exfalso; revert Hb; vm_compute; discriminate..].
    exists grades_used, b.
    split; [vm_compute; reflexivity|]. split; [vm_compute; reflexivity|].
    exact Hb.
  - destruct (Hopen w1 eq_refl) as (w2 & Hopen2 & Hall).
    specialize (Hall "Grades").
    change (dict_get str_eqb (tables (db used_world)) "Grades")
      with (Some used_addr) in Hall.
    destruct Hall as (v & t' & Hv & Hget & Hval).
    exists w1, w2, t'. split; [exact Hclose|]. split; [exact Hopen2|].
    split; [exact Hget|]. rewrite Hval. f_equal.
    assert (Hu : value_of (objects used_world) used_addr = Some grades_used)
      by (vm_compute; reflexivity).
    rewrite Hu in Hv. injection Hv as <-. vm_compute. reflexivity.
Defined.
(** X15: the scenario of a first run.  [open] on a path that does not
    exist, then [create_table], then [close]: each succeeds when the
    table name is a file name and the constructor returns a table that
    can be stored and packs, and an
    [open] of the directory afterwards, from any database object,
    registers the table under its name, with the value [reloaded] of
    the one created, and no other name. *)
Theorem created_table_survives_restart `{Msgpack} `{Classes}
    (table_init index_init d : list (atom * pyval))
    (w : world) (path name : string) (num_columns key_index : Z)
    (b : bytes) :
  file_name name = true ->
  Table_default = Ok table_init -> Index_default = Ok index_init ->
  path <> "" -> path_exists (disk w) path = false ->
  tables (db w) = [] ->
  Table_new name num_columns key_index = Ok d ->
  storable (PInst TableClass d) = true ->
  packb (ser (PInst TableClass d)) = Ok b ->
  exists w1 t w2 w3,
    Database_open path w = (Ok (), w1)
    /\ Database_create_table name num_columns key_index w1 = (Ok t, w2)
    /\ Database_close w2 = (Ok (), w3)
    /\ forall w0, disk w0 = disk w3 ->
       exists w4 t',
         Database_open path w0 = (Ok (), w4)
         /\ Database_get_table name w4 = (Ok (Some t'), w4)
         /\ value_of (objects w4) t'
            = Some (reloaded table_init index_init (PInst TableClass d))
         /\ forall other, other <> name ->
              Database_get_table other w4 = (Ok None, w4).
Proof.
  intros _ Htd Hid Hne Hfresh Hnone Hnew Hst Hpack.
  set (w1 := print "Database directory created."
               (with_disk (dict_set str_eqb (disk w) path []) (with_path path w))).
  destruct (alloc (PInst TableClass d) (objects w1)) as [t h'] eqn:Hal.
  set (w2 := with_tables (dict_set str_eqb (tables (db w1)) name t)
               (with_objects h' w1)).
  assert (Htabs : tables (db w2) = [(name, t)]).
  { subst w2 w1. cbn [tables db with_tables with_objects print with_disk
                       with_path]. by rewrite Hnone. }
  assert (Hval : value_of (objects w2) t = Some (PInst TableClass d)).
  { by apply (value_of_alloc _ _ _ _ _ Hal). }
  destruct (restart table_init index_init w2 path []) as (w3 & Hclose & Hopen);
    try done.
  - subst w2 w1. cbn [disk with_tables with_objects print with_disk].
    apply dict_get_set_eq.
  - apply NoDup_nil_2.
  - intros f Hf. by apply elem_of_nil in Hf.
  - rewrite Htabs. apply NoDup_singleton.
  - rewrite Htabs. apply Forall_cons_2; [|apply Forall_nil_2].
    exists (PInst TableClass d), b. split; [done|]. split; [done|].
    unfold save. cbn [snd].
    by rewrite (serialize_ser _ _ _ Hval (storable_keys_ok _ Hst)).
  - exists w1, t, w2, w3. split; [|split; [|split; [done|]]].
    + unfold Database_open. cbn [disk with_path]. rewrite Hfresh. cbn [negb].
      unfold makedirs. by rewrite (str_eqb_ne path "" Hne).
    + unfold Database_create_table. rewrite Hnew. by rewrite Hal.
    + intros w0 Hw0. destruct (Hopen w0 Hw0) as (w4 & Ho & Hnames).
      pose proof (Hnames name) as Hn. rewrite Htabs in Hn. simpl in Hn.
      rewrite str_eqb_refl in Hn. destruct Hn as (v & t' & Hv & Hg & Hr).
      exists w4, t'. split; [done|]. split; [done|].
      change (value_of h' t) with (value_of (objects w2) t) in Hv.
      rewrite Hval in Hv. injection Hv as <-. split; [done|].
      intros other Hother. specialize (Hnames other). rewrite Htabs in Hnames.
      simpl in Hnames. by rewrite (str_eqb_ne name other) in Hnames.
Qed.

Lemma created_table_survives_restart_witness :
  exists w1 t w2 w3 w4 t',
    Database_open "db" fresh_world = (Ok (), w1)
    /\ Database_create_table "Grades" 4 0 w1 = (Ok t, w2)
    /\ Database_close w2 = (Ok (), w3)
    /\ Database_open "db" w3 = (Ok (), w4)
    /\ Database_get_table "Grades" w4 = (Ok (Some t'), w4)
    /\ value_of (objects w4) t' = Some grades.
Proof.
  destruct (created_table_survives_restart (Table_fields ANone 0 0)
              Index_fields (Table_fields (AStr "Grades") 4 0)
              fresh_world "db" "Grades" 4 0 grades_blob)
    as (w1 & t & w2 & w3 & Ho & Hc & Hcl & Hre); try reflexivity.
  - discriminate.
  - destruct (Hre w3 eq_refl) as (w4 & t' & Ho4 & Hg & Hv & _).
    exists w1, t, w2, w3, w4, t'. repeat (split; [assumption|]).
    rewrite Hv. vm_compute. reflexivity.
Defined.

(** X16: a saved table can only be loaded when [Table()] can be called
    without arguments.  When that call raises, rehydrating any mapping
    tagged ["Table"] raises the same exception, whatever the state; and
    so does loading the bytes saved for any table. *)
Theorem load_needs_default_constructor `{Msgpack} `{Classes} (e : exn) :
  Table_default = Raise e ->
  (forall d, dict_get key_eqb d (AStr "__custom_type__") = Some (PStr "Table") ->
     rehydrate (PDict d) = Raise e)
  /\ (forall h a c d b,
      value_of h a = Some (PInst c d) -> tag_of c = "Table" ->
      storable (PInst c d) = true -> save h a = Ok b ->
      load b = Raise e).
Proof.
  intros Hraise. split.
  - intros d Htag. rewrite rehydrate_dict. cbv zeta. rewrite Htag.
    simpl (is_str _ _). unfold construct. simpl (class_default _).
    by rewrite Hraise.
  - intros h a c d b Hv Htag Hs Hb. unfold save, load in *.
    rewrite (serialize_ser h a _ Hv (storable_keys_ok _ Hs)) in Hb.
    simpl in Hb. rewrite (unpackb_packb _ _ (storable_wire _ Hs) Hb).
    change (rehydrate (tagged (tag_of c) (PDict (prod_map id ser <$> d)))
            = Raise e).
    rewrite rehydrate_tagged, Htag. simpl (bool_decide _).
    unfold construct. simpl (class_default _). by rewrite Hraise.
Qed.

Lemma load_needs_default_constructor_witness :
  @load msgpack strict_classes grades_blob
  = Raise (TypeError "Table.__init__() missing 3 required positional arguments").
Proof.
  destruct (@load_needs_default_constructor msgpack strict_classes
              (TypeError "Table.__init__() missing 3 required positional arguments")
              eq_refl) as [_ Hload].
  apply (Hload grades_heap grades_addr TableClass
           (Table_fields (AStr "Grades") 4 0));
    vm_compute; reflexivity.
Defined.

(** ** File names, and a failed close *)

(** X17: a table's name and its file name determine each other: the
    file name [f"{name}.tbl"] ends in [.tbl], cutting its last four
    characters gives the name back, and two names have the same file
    name only when they are equal; this holds for every name, also an
    empty one and one that itself ends in [.tbl]. *)
Theorem table_file_name_round_trip (name : string) :
  endswith (tbl_file name) ".tbl" = true
  /\ drop_last4 (tbl_file name) = name
  /\ forall other, tbl_file other = tbl_file name -> other = name.
Proof.
  split; [apply endswith_tbl_file|]. split; [apply drop_last4_tbl_file|].
  intros other. apply tbl_file_inj.
Qed.

Lemma table_file_name_round_trip_witness :
  endswith "a.tbl.tbl" ".tbl" = true /\ drop_last4 "a.tbl.tbl" = "a.tbl".
Proof.
  destruct (table_file_name_round_trip "a.tbl") as (He & Hd & _).
  split; [exact He|exact Hd].
Defined.



(** ** More on [open] and [rehydrate] *)

(** X19: [open] stops at the first table file that does not load.  The
    exception comes out; the tables of the files listed before it are
    registered, with the values loaded; nothing else is registered:
    neither the tables of the files listed after it nor any table the
    database held before. *)
Theorem open_stops_at_first_failure `{Msgpack} `{Classes} (path : string)
    (w : world) (files : directory) (pre post : list string) (f : string)
    (data : bytes) (e : exn) :
  dict_get str_eqb (disk w) path = Some files ->
  NoDup files.*1 -> files.*1 = pre ++ f :: post ->
  Forall (fun f => endswith f ".tbl" = true ->
            read_file (disk w) path f = Ok []
            \/ exists data table, read_file (disk w) path f = Ok data
                                  /\ load data = Ok table) pre ->
  endswith f ".tbl" = true ->
  read_file (disk w) path f = Ok data -> data <> [] ->
  load data = Raise e ->
  exists w',
    Database_open path w = (Raise e, w')
    /\ (forall name, tbl_file name ∉ pre ->
          Database_get_table name w' = (Ok None, w'))
    /\ forall name saved v,
         tbl_file name ∈ pre ->
         read_file (disk w) path (tbl_file name) = Ok saved ->
         saved <> [] -> load saved = Ok v ->
         exists t, Database_get_table name w' = (Ok (Some t), w')
                   /\ value_of (objects w') t = Some v.
Proof.
  intros Hdir Hnd Hlist Hpre He Hread Hdata Hload.
  rewrite Hlist in Hnd. apply NoDup_app in Hnd as (Hndpre & _ & _).
  destruct (open_loop path (disk w) pre Hndpre Hpre
              (with_tables [] (with_path path w)) eq_refl)
    as (w1 & Hloop & Hd1 & _ & Hkeep & Hloaded).
  exists w1. split; [|split].
  - unfold Database_open. cbn [disk with_path]. unfold path_exists.
    rewrite bool_decide_eq_true_2 by (by rewrite Hdir).
    cbn [negb]. cbn [disk with_tables with_path].
    replace (listdir (disk w) path) with (pre ++ f :: post)
      by (unfold listdir; by rewrite Hdir).
    rewrite for_each_app, Hloop.
    rewrite for_each_cons. unfold load_table. rewrite He, Hd1, Hread.
    destruct data as [|b data]; [done|]. by rewrite Hload.
  - intros name Hnot. unfold Database_get_table. by rewrite (Hkeep name Hnot).
  - intros name saved v Hin Hr Hs Hl.
    destruct (Hloaded (tbl_file name) saved v Hin
                (endswith_tbl_file name) Hr) as (t & Ht & Hval); [done|done|].
    rewrite drop_last4_tbl_file in Ht. exists t. unfold Database_get_table.
    rewrite Ht. split; [done|]. by apply Hval.
Qed.

Lemma open_stops_at_first_failure_witness :
  exists e w' t,
    Database_open "db" corrupt_world = (Raise e, w')
    /\ Database_get_table "Grades" w' = (Ok (Some t), w')
    /\ value_of (objects w') t = Some grades
    /\ Database_get_table "Bad" w' = (Ok None, w')
    /\ Database_get_table "Old" w' = (Ok None, w').
Proof.
  destruct (load [xc1]) as [v|e|] eqn:Hl;
    [exfalso; revert Hl; vm_compute; discriminate| |
     exfalso; revert Hl; vm_compute; discriminate].
  destruct (open_stops_at_first_failure "db" corrupt_world
              [("Grades.tbl", grades_blob); ("Bad.tbl", [xc1])]
              ["Grades.tbl"] [] "Bad.tbl" [xc1] e)
    as (w' & Ho & Hnone & Hsome).
  - reflexivity.
  - change (NoDup ["Grades.tbl"; "Bad.tbl"]).
    repeat (apply NoDup_cons; split;
            [intros Hin;
             repeat (apply elem_of_cons in Hin as [Hin|Hin]; [discriminate|]);
             by apply elem_of_nil in Hin|]).
    apply NoDup_nil_2.
  - reflexivity.
  - apply Forall_cons_2; [|apply Forall_nil_2]. intros _. right.
    exists grades_blob, grades. split; vm_compute; reflexivity.
  - reflexivity.
  - reflexivity.
  - discriminate.
  - exact Hl.
  - assert (Hbad : forall n, n <> "Grades" -> tbl_file n ∉ ["Grades.tbl"]).
    { intros n Hn Hin. apply list_elem_of_singleton in Hin.
      apply Hn, tbl_file_inj, Hin. }
    destruct (Hsome "Grades" grades_blob grades) as (t & Hget & Hval).
    + change (tbl_file "Grades") with "Grades.tbl". left.
    + reflexivity.
    + discriminate.
    + vm_compute. reflexivity.
    + exists e, w', t. split; [exact Ho|]. split; [exact Hget|].
      split; [exact Hval|]. split; apply Hnone, Hbad; discriminate.
Defined.

(** X20: a mapping tagged ["Table"] or ["Index"] that has no ["state"]
    entry is rehydrated into the instance the constructor builds without
    arguments, unchanged; the other entries of the mapping are not
    looked at. *)
Theorem rehydrate_missing_state `{Classes} (d : list (atom * pyval)) :
  dict_get key_eqb d (AStr "state") = None ->
  (forall init,
     dict_get key_eqb d (AStr "__custom_type__") = Some (PStr "Table") ->
     Table_default = Ok init ->
     rehydrate (PDict d) = Ok (PInst TableClass init))
  /\ (forall init,
      dict_get key_eqb d (AStr "__custom_type__") = Some (PStr "Index") ->
      Index_default = Ok init ->
      rehydrate (PDict d) = Ok (PInst IndexClass init)).
Proof.
  intros Hstate. split; intros init Htag Hinit; rewrite rehydrate_dict;
    cbv zeta; rewrite Htag, Hstate; simpl (is_str _ _);
    unfold construct; simpl (class_default _); by rewrite Hinit.
Qed.

Lemma rehydrate_missing_state_witness :
  rehydrate (PDict [(AStr "__custom_type__", PStr "Index");
                    (AStr "rows", PTuple [])])
  = Ok (PInst IndexClass Index_fields).
Proof.
  destruct (rehydrate_missing_state
              [(AStr "__custom_type__", PStr "Index"); (AStr "rows", PTuple [])]
              eq_refl) as [_ Hindex].
  apply Hindex; reflexivity.
Defined.

(** X21: opening a directory and closing the database at once rewrites
    the files as they are.  When every table file of the directory is
    empty or holds the packed conversion of a durable value, [open]
    succeeds, and the [close] that follows succeeds and leaves every
    file, and the whole file system, exactly as it was. *)
Theorem open_close_rewrites_same `{Msgpack} `{Classes} (path : string)
    (w : world) (files : directory) :
  path <> "" ->
  dict_get str_eqb (disk w) path = Some files -> NoDup files.*1 ->
  Forall (fun f => endswith f ".tbl" = true ->
            read_file (disk w) path f = Ok []
            \/ exists v b, read_file (disk w) path f = Ok b
                           /\ durable v = true /\ packb (ser v) = Ok b)
         files.*1 ->
  exists w1,
    Database_open path w = (Ok (), w1)
    /\ Database_close w1 = (Ok (), w1)
    /\ disk w1 = disk w.
Proof.
  intros Hne Hdir Hnd Hcond.
  assert (Hls : listdir (disk w) path = files.*1).
  { unfold listdir. by rewrite Hdir. }
  rewrite <- Hls in Hnd, Hcond.
  assert (Hcond' : Forall (fun f => endswith f ".tbl" = true ->
            read_file (disk w) path f = Ok []
            \/ exists data table, read_file (disk w) path f = Ok data
                                  /\ load data = Ok table)
            (listdir (disk w) path)).
  { eapply Forall_impl; [exact Hcond|]. intros f Hf He.
    destruct (Hf He) as [?|(v & b & Hr & Hd & Hp)]; [by left|right].
    exists b, v. split; [done|]. by apply load_packed. }
  destruct (open_loop path (disk w) _ Hnd Hcond'
              (with_tables [] (with_path path w)) eq_refl)
    as (w' & Hopen & Hd' & _ & Hkeep & Hloaded).
  pose proof (open_loop_NoDup _ _ _ _ _ Hopen (NoDup_nil_2 : NoDup [])) as Hndt.
  pose proof (open_frame _ _ _ _ _ Hopen) as (_ & _ & Hp' & _).
  exists (print "Database loaded from disk." w'). split; [|split; [|done]].
  { unfold Database_open. cbn [disk with_path]. unfold path_exists.
    rewrite bool_decide_eq_true_2 by (by rewrite Hdir).
    cbn [negb]. cbn [disk with_tables with_path]. by rewrite Hopen. }
  unfold Database_close. cbn [db db_path print]. rewrite Hp'.
  cbn [db db_path with_tables with_path]. rewrite (str_eqb_ne path "" Hne).
  cbn [tables db print].
  assert (Hall : Forall (fun e => exists b,
            save (objects w') e.2 = Ok b
            /\ read_file (disk w') path (tbl_file e.1) = Ok b)
            (tables (db w'))).
  { apply Forall_forall. intros [name t] Hent. cbn [fst snd].
    pose proof (dict_get_of_elem _ _ _ Hndt Hent) as Hget. rewrite Hd'.
    destruct (read_file (disk w) path (tbl_file name)) as [[|b0 data]| |] eqn:Hr.
    - rewrite (open_loop_skips _ _ _ _ Hopen name (or_intror Hr)) in Hget.
      done.
    - assert (Hin : tbl_file name ∈ listdir (disk w) path).
      { rewrite Hls. apply read_file_Ok in Hr as (files' & Hdir' & Hfile).
        rewrite Hdir in Hdir'. injection Hdir' as <-.
        by eapply dict_get_Some_key. }
      rewrite Forall_forall in Hcond.
      destruct (Hcond _ Hin (endswith_tbl_file name))
        as [Hempty|(v & b & Hr' & Hdur & Hpack)]; [congruence|].
      rewrite Hr in Hr'. injection Hr' as <-.
      destruct (Hloaded (tbl_file name) (b0 :: data) v Hin
                  (endswith_tbl_file name) Hr) as (t' & Ht' & Hval);
        [done|by apply load_packed|].
      rewrite drop_last4_tbl_file, Hget in Ht'. injection Ht' as <-.
      exists (b0 :: data). split; [|done]. unfold save.
      by rewrite (serialize_ser _ _ v (Hval _ (reflexivity _))
                    (durable_keys_ok v Hdur)).
    - rewrite Hkeep in Hget; [done|]. rewrite Hls. unfold read_file in Hr.
      rewrite Hdir in Hr.
      destruct (dict_get str_eqb files (tbl_file name)) eqn:Hf; [done|].
      by apply dict_get_None_key.
    - unfold read_file in Hr.
      destruct (dict_get str_eqb (disk w) path) as [fl|]; [|done].
      by destruct (dict_get str_eqb fl (tbl_file name)). }
  apply close_again. cbn [objects disk print]. exact Hall.
Qed.

Lemma open_close_rewrites_same_witness :
  exists w1,
    Database_open "db" half_world = (Ok (), w1)
    /\ Database_close w1 = (Ok (), w1)
    /\ disk w1 = disk half_world.
Proof.
  apply (open_close_rewrites_same "db" half_world
           [("Broken.tbl", []); ("Grades.tbl", grades_blob);
            ("notes.txt", [])]).
  - discriminate.
  - reflexivity.
  - change (NoDup ["Broken.tbl"; "Grades.tbl"; "notes.txt"]).
    repeat (apply NoDup_cons; split;
            [intros Hin;
             repeat (apply elem_of_cons in Hin as [Hin|Hin]; [discriminate|]);
             by apply elem_of_nil in Hin|]).
    apply NoDup_nil_2.
  - apply Forall_cons_2; [|apply Forall_cons_2; [|apply Forall_cons_2;
      [|apply Forall_nil_2]]].
    + intros _. by left.
    + intros _. right. exists grades, grades_blob.
      split; [reflexivity|]. split; vm_compute; reflexivity.
    + intros He. exfalso. revert He. vm_compute. discriminate.
Defined.

(** ** Dict keys and instance attributes *)

(** X22: a dict with a key that is a tuple (or any other container, or
    an instance) cannot be converted.  Whenever the walk reaches such a
    dict, the key not being on the path, it raises the [TypeError] of
    the unhashable converted key: a table that holds such a dict cannot
    be saved. *)
Theorem convert_container_key_raises (fuel : nat) (h : heap) (a : addr)
    (seen : gset addr) (items : list (addr * addr)) (k x : addr) :
  (size (dom h ∖ seen) < fuel)%nat ->
  a ∉ seen -> deref h a = ODict items ->
  (k, x) ∈ items -> key_object h k = false -> k ∉ seen -> k <> a ->
  exists e seen',
    convert_to_serializable fuel h a seen = (Raise e, seen')
    /\ unhashable e.
Proof.
  intros Hfuel Ha Hd Hin Hk Hks Hka.
  destruct fuel as [|n]; [lia|].
  assert (Hdom : a ∈ dom h).
  { apply elem_of_dom. unfold deref in Hd. by destruct (h !! a). }
  pose proof (unseen_lt h seen a Hdom Ha) as Hlt.
  assert (Hrec : forall y, settled_with (fun _ => True) (seen ∪ {[a]})
                    (convert_to_serializable n h y (seen ∪ {[a]}))).
  { intros y. pose proof (convert_within h n y (seen ∪ {[a]})) as Hw.
    destruct (convert_to_serializable n h y _) as [[v| |] s]; simpl in *;
      try done; [|apply Hw; lia].
    by destruct Hw as [-> _]; [lia|]. }
  assert (Hkey : k ∉ seen ∪ {[a]}) by set_solver.
  pose proof (convert_unhashable_key h n k _ Hk Hkey) as Hconv.
  destruct (conv_items_unhashable _ items [] _ k x Hrec Hin Hconv)
    as (e & s & Hitems).
  pose proof (convert_leaves h (S n) a seen) as Hleaves.
  simpl in Hleaves |- *. rewrite decide_False in Hleaves |- * by done.
  rewrite Hd in Hleaves |- *. rewrite Hitems in Hleaves |- *.
  exists e, s. split; [done|]. by destruct Hleaves.
Qed.

Lemma convert_container_key_raises_witness :
  exists e seen',
    convert_to_serializable 8 (objects tuple_key_world) 4%positive ∅
    = (Raise e, seen')
    /\ unhashable e.
Proof.
  apply (convert_container_key_raises 8 (objects tuple_key_world) 4%positive
           ∅ [(5%positive, 6%positive)] 5%positive 6%positive).
  - vm_compute. lia.
  - set_solver.
  - reflexivity.
  - left.
  - reflexivity.
  - set_solver.
  - discriminate.
Defined.

(** X23: the attributes of a rehydrated table.  [rehydrate] builds the
    instance without arguments and updates its [__dict__] with the saved
    state: an attribute of the saved state has the saved value,
    rehydrated, and an attribute the saved state does not have keeps the
    value the constructor gave it.  (Stated for a state with string
    keys, no two equal, as [__dict__] has them.) *)
Theorem rehydrate_updates_defaults `{Classes}
    (init st st' : list (atom * pyval)) :
  Table_default = Ok init ->
  rehydrate (PDict st) = Ok (PDict st') ->
  Forall (fun k => exists t, k = AStr t) st'.*1 -> NoDup st'.*1 ->
  exists attrs,
    rehydrate (tagged "Table" (PDict st)) = Ok (PInst TableClass attrs)
    /\ forall s,
         dict_get key_eqb attrs (AStr s)
         = match dict_get key_eqb st' (AStr s) with
           | Some v => Some v
           | None => dict_get key_eqb init (AStr s)
           end.
Proof.
  intros Hinit Hst Hstr Hnd. exists (dict_update key_eqb init st'). split.
  - rewrite rehydrate_tagged. simpl (bool_decide _). unfold construct.
    simpl (class_default _). by rewrite Hinit, Hst.
  - intros s. by apply dict_update_get_str.
Qed.

Lemma rehydrate_updates_defaults_witness :
  exists attrs,
    rehydrate (tagged "Table" (PDict [(AStr "next_rid", PAtom (AInt 7))]))
    = Ok (PInst TableClass attrs)
    /\ dict_get key_eqb attrs (AStr "next_rid") = Some (PAtom (AInt 7))
    /\ dict_get key_eqb attrs (AStr "num_columns") = Some (PAtom (AInt 0)).
Proof.
  destruct (rehydrate_updates_defaults (Table_fields ANone 0 0)
              [(AStr "next_rid", PAtom (AInt 7))]
              [(AStr "next_rid", PAtom (AInt 7))])
    as (attrs & Hr & Hattrs).
  - reflexivity.
  - reflexivity.
  - apply Forall_cons_2; [by eexists|apply Forall_nil_2].
  - apply NoDup_singleton.
  - exists attrs. split; [exact Hr|]. split; apply Hattrs.
Defined.

(** ** [drop_table] *)

(** X24: [drop_table] of a name that is not registered does nothing and
    raises nothing.  For a registered table whose name is a file name
    and whose file exists, it returns normally, the name is no longer
    registered (every other name is as before) and the file is gone
    (every other file is as before).  For a registered table whose name
    is a file name and that has no file yet, the name is removed all the
    same and the [FileNotFoundError] of [os.remove] comes out. *)
Theorem drop_table_removes (name : string) (w : world) :
  (dict_get str_eqb (tables (db w)) name = None ->
     Database_drop_table name w = (Ok (), w))
  /\ (forall (t : addr) (path : string) (files : directory) (data : bytes),
      file_name name = true ->
      dict_get str_eqb (tables (db w)) name = Some t ->
      NoDup (tables (db w)).*1 ->
      db_path (db w) = Some path ->
      dict_get str_eqb (disk w) path = Some files -> NoDup files.*1 ->
      read_file (disk w) path (tbl_file name) = Ok data ->
      exists w',
        Database_drop_table name w = (Ok (), w')
        /\ dict_get str_eqb (tables (db w')) name = None
        /\ (forall other, other <> name ->
              dict_get str_eqb (tables (db w')) other
              = dict_get str_eqb (tables (db w)) other)
        /\ read_file (disk w') path (tbl_file name)
           = Raise (FileNotFoundError (tbl_file name))
        /\ forall p n, (p <> path \/ n <> tbl_file name) ->
             read_file (disk w') p n = read_file (disk w) p n)
  /\ (forall (t : addr) (path : string) (e : exn),
      file_name name = true ->
      dict_get str_eqb (tables (db w)) name = Some t ->
      db_path (db w) = Some path ->
      read_file (disk w) path (tbl_file name) = Raise e ->
      Database_drop_table name w
      = (Raise (FileNotFoundError (tbl_file name)),
         with_tables (dict_del str_eqb (tables (db w)) name) w)).
Proof.
  unfold Database_drop_table. split; [by intros ->|]. split.
  - intros t path files data _ Ht Hnd Hpath Hdir Hfiles Hread. rewrite Ht.
    cbn [db db_path disk with_tables]. rewrite Hpath.
    destruct (remove (disk w) path (tbl_file name)) as [fs'| |] eqn:Hrm.
    + destruct (read_remove _ _ _ _ _ Hdir Hfiles Hrm) as [Hgone Hother].
      eexists. split; [done|]. cbn [db tables disk with_tables with_disk].
      split; [by apply dict_get_del_eq|]. split; [|done].
      intros other Hne. by apply dict_get_del_ne.
    + unfold remove, read_file in *. rewrite Hdir in *.
      by destruct (dict_get str_eqb files (tbl_file name)).
    + unfold remove in Hrm. rewrite Hdir in Hrm.
      by destruct (dict_get str_eqb files (tbl_file name)).
  - intros t path e _ Ht Hpath Hread. rewrite Ht.
    cbn [db db_path disk with_tables]. rewrite Hpath.
    unfold remove, read_file in *.
    destruct (dict_get str_eqb (disk w) path) as [files|]; [|done].
    by destruct (dict_get str_eqb files (tbl_file name)).
Qed.

Lemma drop_table_removes_witness :
  exists w',
    Database_drop_table "Grades" saved_world = (Ok (), w')
    /\ dict_get str_eqb (tables (db w')) "Grades" = None
    /\ read_file (disk w') "db" "Grades.tbl"
       = Raise (FileNotFoundError "Grades.tbl")
    /\ Database_drop_table "Marks" saved_world = (Ok (), saved_world).
Proof.
  destruct (drop_table_removes "Grades" saved_world) as (_ & Hdrop & _).
  destruct (drop_table_removes "Marks" saved_world) as (Hnone & _).
  destruct (Hdrop grades_addr "db" [("Grades.tbl", grades_blob)] grades_blob)
    as (w' & Hw & Hgone & _ & Hfile & _).
  - reflexivity.
  - reflexivity.
  - apply NoDup_singleton.
  - reflexivity.
  - reflexivity.
  - apply NoDup_singleton.
  - reflexivity.
  - exists w'. split; [exact Hw|]. split; [exact Hgone|]. split; [exact Hfile|].
    apply Hnone. reflexivity.
Defined.
